(** * kml-tools: a shallow embedding of [kml/__init__.py]

    The module handles KML files as bs4 documents.  The embedding keeps the
    document as an ordered tree, Python references to elements as paths
    into that tree, dictionaries as finite maps, sets as finite sets, and
    exceptions as the error side of a result type. *)

From Stdlib Require Import ZArith List String Ascii Bool Lia.
From Stdlib Require Import DecimalString DecimalFacts DecimalPos DecimalN.
From Stdlib Require Import QArith Qreals Reals Lra.
From stdpp Require Import base gmap sets list strings sorting.

Set Warnings "-register-all,-clear-no-such-hyp".
Local Open Scope string_scope.
Local Open Scope list_scope.

(** ** Python values and exceptions *)

Module Py.

(** The exceptions the module raises or lets escape. *)
Inductive exn : Type :=
| ValueError (msg : string)
| KeyError
| NameError (name : string)
| AttributeError
| TypeError
| IndexError
| StopIteration
| ZeroDivisionError.

Inductive result (A : Type) : Type :=
| Ok (a : A)
| Raise (e : exn).
Arguments Ok {A} a.
Arguments Raise {A} e.

Definition bind {A B} (r : result A) (k : A -> result B) : result B :=
  match r with
  | Ok a => k a
  | Raise e => Raise e
  end.

Definition is_ok {A} (r : result A) : bool :=
  match r with Ok _ => true | Raise _ => false end.

(** [o] when it is there, else the exception [e]. *)
Definition or_raise {A} (o : option A) (e : exn) : result A :=
  match o with Some a => Ok a | None => Raise e end.

(** A [for] loop with an accumulator whose body may raise. *)
Definition for_each {A S} (body : S -> A -> result S) : list A -> S -> result S :=
  fix go (l : list A) (s : S) : result S :=
    match l with
    | [] => Ok s
    | x :: l' => bind (body s x) (go l')
    end.

(** A list comprehension whose element expression may raise. *)
Definition comprehension {A B} (f : A -> result B) : list A -> result (list B) :=
  fix go (l : list A) : result (list B) :=
    match l with
    | [] => Ok []
    | x :: l' => bind (f x) (fun y => bind (go l') (fun ys => Ok (y :: ys)))
    end.

(** [range(len(l))] with [l[i]] *)
Definition enumerate {A} (l : list A) : list (nat * A) :=
  combine (seq 0 (length l)) l.

(** The argument of [get_data] and [add]: a string, or a list of such. *)
Inductive name : Type :=
| NStr (s : string)
| NList (l : list name).

Section name_induction.
Variable P : name -> Prop.
Hypothesis HStr : forall s, P (NStr s).
Hypothesis HList : forall l, Forall P l -> P (NList l).

Fixpoint name_ind_nested (n : name) : P n :=
  match n with
  | NStr s => HStr s
  | NList l =>
      HList l
        ((fix all (l : list name) : Forall P l :=
            match l with
            | [] => Forall_nil_2 P
            | x :: r => Forall_cons_2 P x r (name_ind_nested x) (all r)
            end) l)
  end.
End name_induction.

(** *** Strings are sequences of code points below 256. *)

(** [str.isspace] on one character: the code points 9-13, 28-32, 133, 160. *)
Definition char_isspace (c : ascii) : bool :=
  let n := nat_of_ascii c in
  (Nat.leb 9 n && Nat.leb n 13) || (Nat.leb 28 n && Nat.leb n 32)
  || Nat.eqb n 133 || Nat.eqb n 160.

Fixpoint all_space (s : string) : bool :=
  match s with
  | EmptyString => true
  | String c s' => char_isspace c && all_space s'
  end.

(** [s.isspace()]: at least one character, and all of them whitespace. *)
Definition isspace (s : string) : bool :=
  match s with
  | EmptyString => false
  | String _ _ => all_space s
  end.

Fixpoint lstrip (s : string) : string :=
  match s with
  | EmptyString => EmptyString
  | String c s' => if char_isspace c then lstrip s' else s
  end.

Fixpoint rstrip (s : string) : string :=
  match s with
  | EmptyString => EmptyString
  | String c s' =>
      match rstrip s' with
      | EmptyString => if char_isspace c then EmptyString else String c EmptyString
      | r => String c r
      end
  end.

(** [s.strip()] *)
Definition strip (s : string) : string := rstrip (lstrip s).

(** [c in s] for a one-character [c]. *)
Fixpoint contains (c : ascii) (s : string) : bool :=
  match s with
  | EmptyString => false
  | String d s' => Ascii.eqb c d || contains c s'
  end.

(** [s.replace(k, v)] for a one-character [k]. *)
Fixpoint replace (k : ascii) (v : string) (s : string) : string :=
  match s with
  | EmptyString => EmptyString
  | String c s' => if Ascii.eqb c k then v ++ replace k v s' else String c (replace k v s')
  end.

(** [s[-1]] *)
Fixpoint last_char (s : string) : option ascii :=
  match s with
  | EmptyString => None
  | String c EmptyString => Some c
  | String _ s' => last_char s'
  end.

(** [s.split()]: the maximal runs of non-whitespace characters. *)
Fixpoint split_ws_aux (cur : string) (s : string) : list string :=
  match s with
  | EmptyString => match cur with EmptyString => [] | _ => [String.rev cur] end
  | String c s' =>
      if char_isspace c
      then match cur with
           | EmptyString => split_ws_aux EmptyString s'
           | _ => String.rev cur :: split_ws_aux EmptyString s'
           end
      else split_ws_aux (String c cur) s'
  end.
Definition split_ws (s : string) : list string := split_ws_aux EmptyString s.

(** [s.split(sep)] for a one-character [sep]: always at least one piece. *)
Fixpoint split_on_aux (sep : ascii) (cur : string) (s : string) : list string :=
  match s with
  | EmptyString => [String.rev cur]
  | String c s' =>
      if Ascii.eqb c sep
      then String.rev cur :: split_on_aux sep EmptyString s'
      else split_on_aux sep (String c cur) s'
  end.
Definition split_on (sep : ascii) (s : string) : list string :=
  split_on_aux sep EmptyString s.

(** Comparison of strings, code point by code point, as [sorted] does. *)
Fixpoint str_leb (s t : string) : bool :=
  match s, t with
  | EmptyString, _ => true
  | String _ _, EmptyString => false
  | String c s', String d t' =>
      let m := nat_of_ascii c in
      let n := nat_of_ascii d in
      if Nat.ltb m n then true else if Nat.ltb n m then false else str_leb s' t'
  end.

Definition str_le (s t : string) : Prop := str_leb s t = true.

(** [str(n)] for a natural number: its decimal digits. *)
Definition repr (n : N) : string := NilZero.string_of_uint (N.to_uint n).

(** [int(c)] for a one-character string. *)
Definition int_of_char (c : ascii) : result N :=
  let n := nat_of_ascii c in
  if Nat.leb 48 n && Nat.leb n 57 then Ok (N.of_nat (n - 48))
  else Raise (ValueError "invalid literal for int()").

End Py.

Export Py.

(** The loop bodies below are written with stdpp's bind notation
    [x ← e; k]: run [e], stop at the first exception. *)
#[export] Instance result_bind : MBind Py.result := fun A B k r => Py.bind r k.
#[export] Instance result_ret : MRet Py.result := fun A a => Py.Ok a.

(** ** The document tree (bs4) *)

Module Dom.

(** The classes of string objects that occur in a parsed document. *)
Inductive strkind : Type :=
| NavigableString
| CData
| Comment.

(** A page element: a string, or a tag with its namespace prefix, name,
    attributes (in insertion order) and contents.  The [BeautifulSoup]
    object is the tag at the root. *)
Inductive node : Type :=
| Str (k : strkind) (s : string)
| Tag (prefix : option string) (name : string)
      (attrs : list (string * string)) (contents : list node).

#[export] Instance strkind_eq_dec : EqDecision strkind.
Proof. solve_decision. Defined.

Section node_induction.
Variable P : node -> Prop.
Hypothesis HStr : forall k s, P (Str k s).
Hypothesis HTag : forall p nm a cs, Forall P cs -> P (Tag p nm a cs).

Fixpoint node_ind_nested (n : node) : P n :=
  match n with
  | Str k s => HStr k s
  | Tag p nm a cs =>
      HTag p nm a cs
        ((fix all (l : list node) : Forall P l :=
            match l with
            | [] => Forall_nil_2 P
            | x :: r => Forall_cons_2 P x r (node_ind_nested x) (all r)
            end) cs)
  end.
End node_induction.

Definition is_tag (n : node) : bool :=
  match n with Tag _ _ _ _ => true | Str _ _ => false end.

Definition tag_name (n : node) : option string :=
  match n with Tag _ nm _ _ => Some nm | Str _ _ => None end.

(** [tag.name == nm] *)
Definition named (nm : string) (n : node) : bool :=
  match n with Tag _ nm' _ _ => String.eqb nm' nm | Str _ _ => false end.

(** [tag.name in names] *)
Definition named_in (names : list string) (n : node) : bool :=
  existsb (fun nm => named nm n) names.

(** [tag[key]] and [key in tag.attrs] *)
Fixpoint attr (key : string) (a : list (string * string)) : option string :=
  match a with
  | [] => None
  | (k, v) :: a' => if String.eqb k key then Some v else attr key a'
  end.

(** [tag[key] = v] *)
Fixpoint set_attr (key v : string) (a : list (string * string)) : list (string * string) :=
  match a with
  | [] => [(key, v)]
  | (k, w) :: a' => if String.eqb k key then (k, v) :: a' else (k, w) :: set_attr key v a'
  end.

(** [tag.descendants]: every element below the tag, in document order. *)
Fixpoint descendants (n : node) : list node :=
  match n with
  | Str _ _ => []
  | Tag _ _ _ cs =>
      (fix go (l : list node) : list node :=
         match l with
         | [] => []
         | c :: r => c :: descendants c ++ go r
         end) cs
  end.

(** [tag(p)], that is [tag.find_all(p)], and [tag.find(p)]. *)
Definition find_all (p : node -> bool) (n : node) : list node :=
  List.filter p (descendants n).

Definition find (p : node -> bool) (n : node) : option node :=
  head (find_all p n).

(** [tag.string]: the tag's only child when that is a string, or the
    [.string] of an only child that is a tag; [None] otherwise. *)
Fixpoint string_of (n : node) : option (strkind * string) :=
  match n with
  | Str k s => Some (k, s)
  | Tag _ _ _ [c] => string_of c
  | Tag _ _ _ _ => None
  end.

(** *** References.  A reference to an element of the document is the
    path to it from the root: the child indices to follow. *)

Abbreviation path := (list nat).

Fixpoint get (n : node) (p : path) {struct p} : option node :=
  match p with
  | [] => Some n
  | i :: p' =>
      match n with
      | Tag _ _ _ cs => match cs !! i with Some c => get c p' | None => None end
      | Str _ _ => None
      end
  end.

(** The paths of [descendants n], in the same order. *)
Fixpoint descendant_paths (n : node) : list path :=
  match n with
  | Str _ _ => []
  | Tag _ _ _ cs =>
      (fix go (i : nat) (l : list node) : list path :=
         match l with
         | [] => []
         | c :: r => [i] :: List.map (cons i) (descendant_paths c) ++ go (S i) r
         end) 0%nat cs
  end.

(** The element at path [p] replaced by [f] of it. *)
Fixpoint update (f : node -> node) (n : node) (p : path) {struct p} : node :=
  match p with
  | [] => f n
  | i :: p' =>
      match n with
      | Tag pr nm a cs => Tag pr nm a (alter (fun c => update f c p') i cs)
      | Str _ _ => n
      end
  end.

(** The references [tag.find_all(p)] and [tag.find(p)] return, for the tag
    at [base]. *)
Definition find_all_paths (p : node -> bool) (soup : node) (base : path) : list path :=
  match get soup base with
  | Some n =>
      List.map (app base)
        (List.filter (fun q => match get n q with Some d => p d | None => false end)
           (descendant_paths n))
  | None => []
  end.

(** The first element of [l] or below one, in document order, that passes
    [p]; [below c] is the first below [c], and [i] the index of the head
    of [l]. *)
Definition find_in_list (p : node -> bool) (below : node -> option path)
  : nat -> list node -> option path :=
  fix go (i : nat) (l : list node) : option path :=
    match l with
    | [] => None
    | c :: r =>
        if p c then Some [i]
        else match below c with
             | Some q => Some (i :: q)
             | None => go (S i) r
             end
    end.

(** The first element below [n], in document order, that passes [p]. *)
Fixpoint find_first (p : node -> bool) (n : node) : option path :=
  match n with
  | Str _ _ => None
  | Tag _ _ _ cs => find_in_list p (find_first p) 0%nat cs
  end.

Definition find_path (p : node -> bool) (soup : node) (base : path) : option path :=
  match get soup base with
  | Some n => option_map (app base) (find_first p n)
  | None => None
  end.

(** [tag.parent] of a reference, [None] at the root. *)
Definition parent (p : path) : option path :=
  match p with
  | [] => None
  | _ => Some (removelast p)
  end.

(** [tag.parents]: the ancestors, nearest first. *)
Fixpoint parents_fuel (fuel : nat) (p : path) : list path :=
  match fuel with
  | O => []
  | S f => match parent p with
           | Some q => q :: parents_fuel f q
           | None => []
           end
  end.
Definition parents (p : path) : list path := parents_fuel (length p) p.

End Dom.

Export Dom.

(** ** [format]: the normalization pass *)

Module Format.

(** [REPLACE], in the order the dictionary yields its items. *)
Definition REPLACE : list (ascii * string) :=
  [("<"%char, "&lt;"); (">"%char, "&gt;"); ("&"%char, "&amp;")].

(** [_as_html]: one [str.replace] per item of [REPLACE], each on the
    result of the one before. *)
Definition _as_html (s : string) : string :=
  fold_left (fun acc kv => replace (fst kv) (snd kv) acc) REPLACE s.

(** [str(x)] of a string object of any class is its characters: bs4's
    string classes subclass [str] and leave [__str__] alone. *)
Definition str (k : strkind) (s : string) : string := s.

(** bs4's entity substitution for a printed string
    ([EntitySubstitution.substitute_xml]): every [&], [<] and [>] of the
    text is replaced once, in one pass over the text. *)
Fixpoint substitute_xml (s : string) : string :=
  match s with
  | EmptyString => EmptyString
  | String c s' =>
      (if Ascii.eqb c "&" then "&amp;"
       else if Ascii.eqb c "<" then "&lt;"
       else if Ascii.eqb c ">" then "&gt;"
       else String c EmptyString) ++ substitute_xml s'
  end.

(** What bs4 writes for a string object when the document is printed
    ([output_ready]): the class's delimiters around the characters, which
    are entity-substituted for a plain string. *)
Definition output_ready (k : strkind) (s : string) : string :=
  match k with
  | NavigableString => substitute_xml s
  | CData => "<![CDATA[" ++ s ++ "]]>"
  | Comment => "<!--" ++ s ++ "-->"
  end.

(** [any(c in s for c in REPLACE)] *)
Definition has_special (s : string) : bool :=
  existsb (fun kv => contains (fst kv) s) REPLACE.

(** Lines 76-81 for a tag with contents [cs]: when [e.string] is a
    non-empty string whose parent is [e], the new only child of [e];
    [None] when the condition of line 76 fails. *)
Definition restring (cs : list node) : option node :=
  match cs with
  | [Str k s] =>
      match s with
      | EmptyString => None
      | _ =>
          let s1 := strip s in
          if has_special s1
          then if (String.length (str CData s1) <=? String.length (_as_html s1))%nat
               then Some (Str CData s1)
               else Some (Str NavigableString s1)
          else Some (Str NavigableString s1)
      end
  | _ => None
  end.

(** Line 74-75: a [kml] prefix is cleared. *)
Definition clear_kml (p : option string) : option string :=
  if bool_decide (p = Some "kml") then None else p.

(** The loop of line 67 changes the tree it walks, and what it reaches
    after a change depends on bs4's [descendants].  Up to bs4 4.12 the
    generator reads [next_element] of the element it has yielded when the
    body of the loop has run; from bs4 4.13 on it reads it before it
    yields.  The module asks for no version of bs4. *)
Inductive bs4_version : Type :=
| Bs4_12
| Bs4_13.

(** Under bs4 4.12 and before: the first loop at one element of
    [soup.descendants] and everything below it.  A string is only recorded.
    A tag loses a [kml] prefix; a tag whose [.string] is its own child gets
    the new child of lines 77-81, which the loop reaches next and has
    nothing to record for. *)
Fixpoint visit (e : node) : node :=
  match e with
  | Str _ _ => e
  | Tag p nm a cs =>
      let p' := clear_kml p in
      match restring cs with
      | Some new => Tag p' nm a [new]
      | None => Tag p' nm a (List.map visit cs)
      end
  end.

(** A string goes to [destroy] when it is whitespace, to [strip] when it
    is not and trimming changes it.  Strings are immutable and the strings
    the first loop creates are trimmed, so the two lists hold exactly the
    strings of the tree after the first loop that pass the same tests. *)
Definition in_destroy (e : node) : bool :=
  match e with
  | Str _ s => isspace s
  | Tag _ _ _ _ => false
  end.

Definition in_strip (e : node) : bool :=
  match e with
  | Str _ s => negb (isspace s) && negb (String.eqb (strip s) s)
  | Tag _ _ _ _ => false
  end.

(** The children that pass [keep], each replaced by [f] of it. *)
Definition keep_map (keep : node -> bool) (f : node -> node) : list node -> list node :=
  fix go (l : list node) : list node :=
    match l with
    | [] => []
    | c :: r => if keep c then f c :: go r else go r
    end.

(** Lines 82-85: [d.extract()] for the strings of [destroy], and
    [s.replace_with(s.strip())] for those of [strip]; the replacement is a
    plain string object. *)
Fixpoint apply_recorded (e : node) : node :=
  match e with
  | Str k s => if in_strip e then Str NavigableString (strip s) else e
  | Tag p nm a cs =>
      Tag p nm a (keep_map (fun c => negb (in_destroy c)) apply_recorded cs)
  end.

(** Lines 86-89: the tags without contents are collected first, then each
    is decomposed. *)
Definition is_empty_tag (e : node) : bool :=
  match e with
  | Tag _ _ _ [] => true
  | _ => false
  end.

Fixpoint remove_empty (e : node) : node :=
  match e with
  | Str _ _ => e
  | Tag p nm a cs =>
      Tag p nm a (keep_map (fun c => negb (is_empty_tag c)) remove_empty cs)
  end.

(** [format(soup, no_empty)] under bs4 4.12 and before: the document
    after the call.  [soup] itself is not one of its descendants, so the
    first loop starts at its children.  Every string of [strip] is in the
    tree when line 85 replaces it, so nothing is raised. *)
Definition format_4_12 (soup : node) (no_empty : bool) : node :=
  match soup with
  | Str _ _ => soup
  | Tag p nm a cs =>
      let soup1 := Tag p nm a (List.map visit cs) in
      let soup2 := apply_recorded soup1 in
      if no_empty then remove_empty soup2 else soup2
  end.

(** Where the first loop is, under bs4 4.13 and later: still going, or
    ended, with the string it reached last. *)
Inductive walk : Type :=
| Going
| Ended (old : node).

(** Under bs4 4.13 and later: lines 67-85 at one element and everything
    below it, for a loop that arrives in the state [w]; the elements left in
    its place and the state after it.  At the first tag whose [.string] is a
    non-empty child of its own, the element the generator has read ahead is
    that child; line 77 takes it out of the tree, the loop body runs on it
    once more, and as it has no next element the loop ends there: nothing
    after that tag is reached.  A string reached before is recorded as
    under the older bs4, and lines 82-85 remove it or put the trimmed plain
    string in its place. *)
Fixpoint visit_4_13 (e : node) (w : walk) {struct e} : list node * walk :=
  match w with
  | Ended _ => ([e], w)
  | Going =>
      match e with
      | Str k s =>
          if in_destroy e then ([], Going)
          else if in_strip e then ([Str NavigableString (strip s)], Going)
          else ([e], Going)
      | Tag p nm a cs =>
          match restring cs with
          | Some new =>
              (* the old child, [cs] being that string alone *)
              ([Tag (clear_kml p) nm a [new]], Ended (List.hd e cs))
          | None =>
              let '(cs', w') :=
                (fix go (l : list node) (w : walk) : list node * walk :=
                   match l with
                   | [] => ([], w)
                   | c :: r =>
                       let '(c', w1) := visit_4_13 c w in
                       let '(r', w2) := go r w1 in
                       (c' ++ r', w2)
                   end) cs Going in
              ([Tag (clear_kml p) nm a cs'], w')
          end
      end
  end.

(** The same for the contents of a tag. *)
Definition visit_list_4_13 (l : list node) (w : walk) : list node * walk :=
  (fix go (l : list node) (w : walk) : list node * walk :=
     match l with
     | [] => ([], w)
     | c :: r =>
         let '(c', w1) := visit_4_13 c w in
         let '(r', w2) := go r w1 in
         (c' ++ r', w2)
     end) l w.

Definition not_in_tree : string :=
  "Cannot replace one element with another when the element to be replaced is not part of a tree.".

(** [format(soup, no_empty)] under bs4 4.13 and later.  The string the
    loop ended at is out of the tree: when it was recorded in [strip],
    [replace_with] raises [ValueError] at line 85 (the strings of [strip]
    before it are in the tree and replaced); when it was recorded in
    [destroy], [extract] does nothing. *)
Definition format_4_13 (soup : node) (no_empty : bool) : result node :=
  match soup with
  | Str _ _ => Ok soup
  | Tag p nm a cs =>
      let '(cs', w) := visit_list_4_13 cs Going in
      let soup2 := Tag p nm a cs' in
      match w with
      | Ended old =>
          if in_strip old then Raise (ValueError not_in_tree)
          else Ok (if no_empty then remove_empty soup2 else soup2)
      | Going => Ok (if no_empty then remove_empty soup2 else soup2)
      end
  end.

(** [format(soup, no_empty)]: the document after the call. *)
Definition format (v : bs4_version) (soup : node) (no_empty : bool) : result node :=
  match v with
  | Bs4_12 => Ok (format_4_12 soup no_empty)
  | Bs4_13 => format_4_13 soup no_empty
  end.

(** *** Properties of the document *)

(** No leading and no trailing whitespace. *)
Definition no_outer_space (s : string) : bool :=
  match s with
  | EmptyString => true
  | String c _ => negb (char_isspace c)
  end
  && match last_char s with
     | Some c => negb (char_isspace c)
     | None => true
     end.

(** No tag of the tree has two strings next to each other in its
    contents. *)
Fixpoint adjacent_strings (l : list node) : bool :=
  match l with
  | Str _ _ :: ((Str _ _ :: _) as r) => true
  | _ :: r => adjacent_strings r
  | [] => false
  end.

Fixpoint no_adjacent_strings (e : node) : bool :=
  match e with
  | Str _ _ => true
  | Tag _ _ _ cs =>
      negb (adjacent_strings cs)
      && (fix all (l : list node) : bool :=
            match l with
            | [] => true
            | c :: r => no_adjacent_strings c && all r
            end) cs
  end.

End Format.

Module FormatSpec.
Import Format.

(** A string of the document is trimmed when it is not whitespace and has
    neither leading nor trailing whitespace; a tag passes. *)
Definition trimmed_string (e : node) : Prop :=
  match e with
  | Str _ s => isspace s = false /\ no_outer_space s = true
  | Tag _ _ _ _ => True
  end.

(** The class of the string lines 77-81 leave in a tag for the trimmed
    text [t] when the comparison of line 80 holds. *)
Definition kind_of (t : string) : strkind :=
  if has_special t then CData else NavigableString.

(** Under bs4 4.12 and before: one element through the first loop and
    the two that follow it, and the same for the contents of a tag. *)
Definition pass (e : node) : node := apply_recorded (visit e).

Definition pass_list (cs : list node) : list node :=
  keep_map (fun c => negb (in_destroy c)) apply_recorded (List.map visit cs).

End FormatSpec.

(** ** The accessors: [get_data], [add], [coords_from_tag] *)

Module Access.

(** The names the module binds at its top level.  A name that is neither
    here nor a builtin raises [NameError] when it is evaluated. *)
Definition module_globals : list string :=
  ["CData"; "NavigableString"; "Tag"; "BeautifulSoup"; "_OPEN"; "REPLACE";
   "_as_html"; "format"; "formatted"; "get_data"; "add"; "_SOUP_STOCK";
   "new_soup"; "coords_from_tag"; "open"; "save"; "dock"; "_BLURPGRELLOW";
   "_GREEN_ORANGE"; "color"; "apply_color"; "spatial_index";
   "spatial_index_stats"; "_spatial_index"; "_spdx_pg"; "_spdx_ls";
   "_spdx_pt"; "_spdx_mg"; "_cells"; "_TAG_TO_FUNCTION"].

Definition builtins_used : list string :=
  ["isinstance"; "hasattr"; "str"; "len"; "list"; "any"; "next"; "iter";
   "tuple"; "float"; "int"; "set"; "sorted"; "range"; "sum"; "min"; "max";
   "ValueError"; "KeyError"; "StopIteration"].

Definition eval_name (nm : string) : result unit :=
  if existsb (String.eqb nm) (module_globals ++ builtins_used) then Ok tt
  else Raise (NameError nm).

(** What [get_data] returns: a string, or a list of what it returns. *)
Inductive data : Type :=
| DStr (s : string)
| DList (l : list data).

(** The test of line 108 on a tag. *)
Definition is_data_named (nm : string) (tag : node) : bool :=
  match tag with
  | Tag _ tn a _ =>
      (String.eqb tn "Data" || String.eqb tn "SimpleData")
      && match attr "name" a with
         | Some v => String.eqb v nm
         | None => false
         end
  | Str _ _ => false
  end.

(** [get_data(pm, name)].  For a name that is not a string, the second
    operand of line 106, [hasattr(name, __iter__)], is evaluated, and its
    argument [__iter__] is a name, not a string. *)
Fixpoint get_data (pm : node) (name : Py.name) : result data :=
  match name with
  | NList l =>
      _ ← eval_name "__iter__";
      vs ← comprehension (get_data pm) l;
      Ok (DList vs)
  | NStr nm =>
      match find (is_data_named nm) pm with
      | Some val =>
          target ← (if named "Data" val
                    then or_raise (find (named "value") val) AttributeError
                    else Ok val);
          '(_, s) ← or_raise (string_of target) AttributeError;
          Ok (DStr (strip s))
      | None =>
          Raise (ValueError ("Data/SimpleData not found: name='" ++ nm ++ "'"))
      end
  end.

(** [soup.new_tag(name)] *)
Definition new_tag (nm : string) : node := Tag None nm [] [].

(** [tag.append(new)] on the tag itself. *)
Definition append_child (new : node) (tag : node) : node :=
  match tag with
  | Tag p nm a cs => Tag p nm a (cs ++ [new])
  | Str _ _ => tag
  end.

(** The default of [add]'s [soup]: [tag] when it has no parent, else the
    first of its ancestors that has none. *)
Definition root_of (tag : path) : result path :=
  match parent tag with
  | None => Ok tag
  | Some _ =>
      or_raise
        (head (List.filter (fun q => match parent q with None => true | Some _ => false end)
                 (parents tag)))
        StopIteration
  end.

(** [soup.new_tag(name)] of line 136, for the reference [soup] that [add]
    has.  The root of the document is the [BeautifulSoup] object, which has
    the method.  Any other tag has not: [tag.new_tag] is then
    [tag.find("new_tag")], which is [None] when no element of that name lies
    below the tag, and calling [None] raises [TypeError]; when there is such
    an element, calling it is [find_all], and [tag.append] of the list that
    returns raises [AttributeError]. *)
Definition soup_new_tag (doc : node) (soup : path) (nm : string) : result node :=
  match soup with
  | [] => Ok (new_tag nm)
  | _ =>
      match get doc soup with
      | Some s =>
          match find (named "new_tag") s with
          | None => Raise TypeError
          | Some _ => Raise AttributeError
          end
      | None => Raise AttributeError
      end
  end.

(** [add(tag, name, soup)] on the document [doc]: the document after the
    call and the reference returned. *)
Fixpoint add (doc : node) (tag : path) (name : Py.name) (soup : option path)
  : result (node * path) :=
  soup' ← match soup with
          | Some r => Ok r
          | None => root_of tag
          end;
  match name with
  | NList l =>
      for_each (fun '(d, pointer) n => add d pointer n (Some soup')) l (doc, tag)
  | NStr nm =>
      new ← soup_new_tag doc soup' nm;
      match get doc tag with
      | Some (Tag _ _ _ cs) =>
          Ok (update (append_child new) doc tag, tag ++ [length cs])
      | _ => Raise AttributeError
      end
  end.

(** [tag.string = s]: the contents become one plain string. *)
Definition set_string (s : string) (tag : node) : node :=
  match tag with
  | Tag p nm a _ => Tag p nm a [Str NavigableString s]
  | Str _ _ => tag
  end.

Section coordinates.

(** Python's floats and [float(s)], [None] where it raises. *)
Variable float : Type.
Variable parse_float : string -> option float.

(** [coords_from_tag(coordinates_tag, first_n_coords)]; the tag is
    [None] when the attribute access that produced it found nothing. *)
Definition coords_from_tag (coordinates_tag : option node) (first_n_coords : nat)
  : result (list (list float)) :=
  tag ← or_raise coordinates_tag AttributeError;
  '(_, s) ← or_raise (string_of tag) AttributeError;
  comprehension
    (fun chunk =>
       dims ← comprehension
                (fun dim => or_raise (parse_float dim)
                              (ValueError "could not convert string to float"))
                (split_on "," chunk);
       Ok (take first_n_coords dims))
    (split_ws (strip s)).

End coordinates.

End Access.

(** ** [apply_color]: the coloring written into the document *)

Module Color.
Import Access.

Definition _BLURPGRELLOW : gmap N string :=
  list_to_map
    [(1%N, "http://maps.google.com/mapfiles/kml/paddle/blu-circle.png");
     (2%N, "http://maps.google.com/mapfiles/kml/paddle/ylw-circle.png");
     (3%N, "http://maps.google.com/mapfiles/kml/paddle/grn-circle.png");
     (4%N, "http://maps.google.com/mapfiles/kml/paddle/purple-circle.png")].

Definition _GREEN_ORANGE : gmap N string :=
  list_to_map
    [(1%N, "7fa8d7b6"); (2%N, "7f065fb4"); (3%N, "7f4fa86a"); (4%N, "7f6bb2f6")].

#[export] Instance str_le_dec : RelDecision str_le.
Proof. intros s t. unfold str_le. apply _. Defined.

(** [sorted(ids)] for a set of strings. *)
Definition sorted (ids : gset string) : list string :=
  merge_sort str_le (elements ids).

(** [url[1:]] *)
Definition drop_first (s : string) : string :=
  match s with
  | EmptyString => EmptyString
  | String _ r => r
  end.

(** Lines 296-299 for placemark [i].  The references [pms] were taken
    before the loop; they stay valid because the loop only replaces the
    contents of [styleUrl] tags and appends to placemarks (the model takes
    documents where no Placemark lies inside a [styleUrl]). *)
Definition style_placemark (coloring : gmap nat N)
    (st : node * gset string) (ipm : nat * path) : result (node * gset string) :=
  let '(soup, ids) := st in
  let '(i, pm) := ipm in
  c ← or_raise (coloring !! i) KeyError;
  let url := String.append "#color" (repr c) in
  '(soup1, target) ← match find_path (named "styleUrl") soup pm with
                     | Some t => Ok (soup, t)
                     | None => add soup pm (NStr "styleUrl") None
                     end;
  Ok (update (set_string url) soup1 target, {[ drop_first url ]} ∪ ids).

Definition is_style (e : node) : bool := named_in ["Style"; "StyleMap"] e.

(** Line 304 on a tag of the list of line 303. *)
Definition is_stale (ids : gset string) (e : node) : bool :=
  match e with
  | Tag _ _ a _ =>
      is_style e
      && match attr "id" a with
         | Some v => bool_decide (v ∈ ids)
         | None => false
         end
  | Str _ _ => false
  end.

(** Lines 303-305.  The list is taken first.  [decompose] destroys the tag
    and everything below it: a style tag below a decomposed one is still in
    the list, has lost its attributes, and [has_attr] on it raises
    [TypeError]. *)
Fixpoint remove_styles (ids : gset string) (e : node) : result node :=
  match e with
  | Str _ _ => Ok e
  | Tag p nm a cs =>
      cs' ← (fix go (l : list node) : result (list node) :=
               match l with
               | [] => Ok []
               | c :: r =>
                   if is_stale ids c
                   then if existsb is_style (descendants c)
                        then Raise TypeError
                        else go r
                   else c' ← remove_styles ids c; r' ← go r; Ok (c' :: r')
               end) cs;
      Ok (Tag p nm a cs')
  end.

(** [tag.insert(0, new)] on the tag itself. *)
Definition insert_first (new : node) (tag : node) : node :=
  match tag with
  | Tag p nm a cs => Tag p nm a (new :: cs)
  | Str _ _ => tag
  end.

(** [tag[key] = v] on the tag itself. *)
Definition set_item (key v : string) (tag : node) : node :=
  match tag with
  | Tag p nm a cs => Tag p nm (set_attr key v a) cs
  | Str _ _ => tag
  end.

(** [table[int(i[-1])]] *)
Definition lookup_last_digit (table : gmap N string) (i : string) : result string :=
  c ← or_raise (last_char i) IndexError;
  n ← int_of_char c;
  or_raise (table !! n) KeyError.

(** Lines 309-314 for the id [i], with the Document tag at [doc].  In an
    assignment the right-hand side is evaluated first. *)
Definition create_style_at (colorize icons : gmap N string)
    (doc : path) (soup : node) (i : string) : result node :=
  let soup := update (insert_first (new_tag "Style")) soup doc in
  let style := doc ++ [0%nat] in
  let soup := update (set_item "id" i) soup style in
  v ← lookup_last_digit colorize i;
  '(soup, t) ← add soup style (NList [NStr "PolyStyle"; NStr "color"]) None;
  let soup := update (set_string v) soup t in
  '(soup, t) ← add soup style (NList [NStr "LineStyle"; NStr "color"]) None;
  let soup := update (set_string "7fcccccc") soup t in
  v ← lookup_last_digit icons i;
  '(soup, t) ← add soup style (NList [NStr "IconStyle"; NStr "Icon"; NStr "href"]) None;
  Ok (update (set_string v) soup t).

(** One turn of the loop of line 308: [soup.Document] is looked up in
    the document as it is then. *)
Definition create_style (colorize icons : gmap N string)
    (soup : node) (i : string) : result node :=
  doc ← or_raise (find_path (named "Document") soup []) AttributeError;
  create_style_at colorize icons doc soup i.

(** Lines 290-299: the document and the set [ids] after the first loop. *)
Definition apply_urls (soup : node) (coloring : gmap nat N)
  : result (node * gset string) :=
  let pms := find_all_paths (named "Placemark") soup [] in
  for_each (style_placemark coloring) (enumerate pms) (soup, ∅).

(** Lines 308-314. *)
Definition create_styles (colorize icons : gmap N string)
    (soup : node) (ids : gset string) : result node :=
  for_each (create_style colorize icons) (sorted ids) soup.

(** [apply_color(soup, coloring, colorize, icons)]: the document after
    the call. *)
Definition apply_color (soup : node) (coloring : gmap nat N)
    (colorize icons : gmap N string) : result node :=
  '(soup, ids) ← apply_urls soup coloring;
  soup ← remove_styles ids soup;
  create_styles colorize icons soup ids.

End Color.

(** ** The spatial index *)

Module Spatial.
Import Access.

(** A grid cell. *)
Definition cell : Type := (Z * Z)%type.

Section collaborators.

(** Python's floats and [float(s)], [None] where it raises. *)
Variable float : Type.
Variable parse_float : string -> option float.

(** The first argument of the [spindex] functions: one coordinate tuple
    or a list of them. *)
Inductive points : Type :=
| OnePoint (p : list float)
| Points (l : list (list float)).

(** The keyword arguments [_cells] passes on: [boundary_cells]. *)
Definition kwargs : Type := option (gset cell).

(** The module [spindex] is not part of the repository; its three
    functions are taken as they are, each returning the cells the callers
    iterate over. *)
Variable get_cell : points -> Z -> kwargs -> gset cell.
Variable get_cells_1d : points -> Z -> kwargs -> gset cell.
Variable get_cells_2d : points -> Z -> kwargs -> gset cell.

(** [_cells(points, dim, scale, **named)] *)
Definition _cells (pts : points) (dim : Z) (scale : Z) (named : kwargs)
  : result (gset cell) :=
  match dim with
  | 0%Z => Ok (get_cell pts scale named)
  | 1%Z => Ok (get_cells_1d pts scale named)
  | 2%Z => Ok (get_cells_2d pts scale named)
  | _ => Raise (ValueError "dim must be 0, 1, or 2")
  end.

(** [tag.coordinates], then [coords_from_tag] with its default. *)
Definition coordinates_of (tag : node) : result (list (list float)) :=
  coords_from_tag float parse_float (find (named "coordinates") tag) 2.

(** The 1-d and 2-d cells of a hole, as lines 380-381 compute them. *)
Definition hole_rim (scale : Z) (inner : list (list float)) : gset cell :=
  get_cells_1d (Points inner) scale None.

Definition hole_fill (scale : Z) (inner : list (list float)) : gset cell :=
  get_cells_2d (Points inner) scale (Some (hole_rim scale inner)).

(** The cells of the outer boundary with, for each hole in turn, the
    cells taken out that are in the hole's 2-d set and not in its 1-d
    set. *)
Definition carved (scale : Z) (outer : list (list float))
    (holes : list (list (list float))) : gset cell :=
  fold_left (fun cells h => cells ∖ (hole_fill scale h ∖ hole_rim scale h))
    holes (get_cells_2d (Points outer) scale None).

(** The body of the loop of [_spdx_pg], lines 379-382. *)
Definition hole_step (scale : Z) (cells : gset cell) (ibi : node)
  : result (gset cell) :=
  inner ← coordinates_of ibi;
  hole_rim ← _cells (Points inner) 1 scale None;
  hole_fill ← _cells (Points inner) 2 scale (Some hole_rim);
  Ok (cells ∖ (hole_fill ∖ hole_rim)).

Definition _spdx_pg (pg : node) (scale : Z) : result (gset cell) :=
  obi ← or_raise (find (named "outerBoundaryIs") pg) AttributeError;
  outer ← coordinates_of obi;
  cells ← _cells (Points outer) 2 scale None;
  for_each (hole_step scale) (find_all (named "innerBoundaryIs") pg) cells.

Definition _spdx_ls (ls : node) (scale : Z) : result (gset cell) :=
  coords ← coordinates_of ls;
  _cells (Points coords) 1 scale None.

Definition _spdx_pt (pt : node) (scale : Z) : result (gset cell) :=
  coords ← coordinates_of pt;
  first ← or_raise (head coords) IndexError;
  _cells (OnePoint first) 0 scale None.

(** The loop of [_spdx_mg] over the geometries below [n], in document
    order, from the cells gathered so far.  The geometries below [n] are
    each child of [n] followed by the geometries below that child; for a
    MultiGeometry the table's function is [_spdx_mg] itself, which starts
    the same loop below that tag from the empty set. *)
Fixpoint mg_loop (scale : Z) (n : node) (cells : gset cell) {struct n}
  : result (gset cell) :=
  match n with
  | Str _ _ => Ok cells
  | Tag _ _ _ cs =>
      (fix go (l : list node) (cells : gset cell) : result (gset cell) :=
         match l with
         | [] => Ok cells
         | geom :: r =>
             cells1 ←
               (if named "MultiGeometry" geom
                then found ← mg_loop scale geom ∅; Ok (cells ∪ found)
                else if named "Polygon" geom
                then found ← _spdx_pg geom scale; Ok (cells ∪ found)
                else if named "LineString" geom
                then found ← _spdx_ls geom scale; Ok (cells ∪ found)
                else if named "Point" geom
                then found ← _spdx_pt geom scale; Ok (cells ∪ found)
                else Ok cells);
             cells2 ← mg_loop scale geom cells1;
             go r cells2
         end) cs cells
  end.

Definition _spdx_mg (mg : node) (scale : Z) : result (gset cell) :=
  mg_loop scale mg ∅.

(** [_TAG_TO_FUNCTION], in the order the dictionary yields its items. *)
Definition _TAG_TO_FUNCTION : list (string * (node -> Z -> result (gset cell))) :=
  [("MultiGeometry", _spdx_mg);
   ("Polygon", _spdx_pg);
   ("LineString", _spdx_ls);
   ("Point", _spdx_pt)].

(** [list(_TAG_TO_FUNCTION)] *)
Definition geometry_names : list string := List.map fst _TAG_TO_FUNCTION.

(** [_TAG_TO_FUNCTION[name]] *)
Definition tag_function (nm : string) : result (node -> Z -> result (gset cell)) :=
  or_raise
    (option_map snd (head (List.filter (fun kv => String.eqb (fst kv) nm) _TAG_TO_FUNCTION)))
    KeyError.

(** Line 394, the body of the loop of [_spdx_mg] as it is written. *)
Definition mg_body (scale : Z) (cells : gset cell) (geom : node) : result (gset cell) :=
  nm ← or_raise (tag_name geom) AttributeError;
  f ← tag_function nm;
  found ← f geom scale;
  Ok (cells ∪ found).

Definition no_geometry_message : string :=
  "Placemark has no Point, LineString, Polygon, or MultiGeometry".

(** [_spatial_index(pm, scale)]: the function of the first item of the
    table whose tag is found below [pm]. *)
Definition _spatial_index (pm : node) (scale : Z) : result (gset cell) :=
  match
    head (omap (fun '(name, f) =>
                  match find (named name) pm with
                  | Some tag => Some (f tag scale)
                  | None => None
                  end) _TAG_TO_FUNCTION)
  with
  | Some r => r
  | None => Raise (ValueError no_geometry_message)
  end.

(** Lines 329-334 for the placemark [i]. *)
Definition add_to_index (i : nat) (cells : gset cell)
    (index : gmap cell (gset nat)) : gmap cell (gset nat) :=
  set_fold (fun c idx => <[c := {[i]} ∪ default ∅ (idx !! c)]> idx) index cells.

(** [spatial_index(soup, scale)] *)
Definition spatial_index (soup : node) (scale : Z) : result (gmap cell (gset nat)) :=
  for_each
    (fun index '(i, pm) =>
       cells ← _spatial_index pm scale;
       Ok (add_to_index i cells index))
    (enumerate (find_all (named "Placemark") soup)) ∅.

End collaborators.

Arguments OnePoint {float} p.
Arguments Points {float} l.

(** *** [spatial_index_stats] *)

(** The median is a number or a list of two. *)
Inductive median_value : Type :=
| MedInt (z : Z)
| MedList (l : list Z).

(** The dictionary returned.  The mean is the exact quotient and the
    deviation the exact square root: the rounding of Python's floats is
    left out. *)
Record stats_result : Type := {
  avg : Q;
  stdev : R;
  median : median_value;
  stat_min : Z;
  stat_max : Z;
  stat_range : Z;
  data : list Z
}.

(** [sum(l)] *)
Definition sum_Z (l : list Z) : Z := fold_left Z.add l 0%Z.
Definition sum_Q (l : list Q) : Q := fold_left Qplus l (0 # 1).

(** [min(l)] and [max(l)] *)
Definition py_min (l : list Z) : result Z :=
  match l with
  | [] => Raise (ValueError "min() arg is an empty sequence")
  | x :: r => Ok (fold_left Z.min r x)
  end.

Definition py_max (l : list Z) : result Z :=
  match l with
  | [] => Raise (ValueError "max() arg is an empty sequence")
  | x :: r => Ok (fold_left Z.max r x)
  end.

(** [sorted(l)] for numbers. *)
Definition sorted_Z (l : list Z) : list Z := merge_sort Z.le l.

(** [l[lo:hi]] *)
Definition slice {A} (l : list A) (lo hi : nat) : list A := take (hi - lo) (drop lo l).

(** [sum(stats) / len(stats)] *)
Definition mean (stats : list Z) : result Q :=
  match stats with
  | [] => Raise ZeroDivisionError
  | _ => Ok (inject_Z (sum_Z stats) / inject_Z (Z.of_nat (length stats)))%Q
  end.

(** [sum((stat - avg)**2 for stat in stats) / len(stats)] *)
Definition mean_square_deviation (stats : list Z) (avg : Q) : result Q :=
  match stats with
  | [] => Raise ZeroDivisionError
  | _ =>
      Ok (sum_Q (List.map (fun stat => (inject_Z stat - avg) * (inject_Z stat - avg)) stats)
          / inject_Z (Z.of_nat (length stats)))%Q
  end.

(** Lines 342-353. *)
Definition median_of (stats : list Z) : result median_value :=
  let max_index := (Z.of_nat (length stats) - 1)%Z in
  if (max_index mod 2 =? 0)%Z
  then
    let med_index := (max_index / 2)%Z in
    m ← or_raise (nth_error (sorted_Z stats) (Z.to_nat med_index)) IndexError;
    Ok (MedInt m)
  else
    let med_index_lo := (max_index / 2)%Z in
    let med_index_hi := (med_index_lo + 1)%Z in
    let median : gset Z :=
      list_to_set (slice (sorted_Z stats) (Z.to_nat med_index_lo)
                     (Z.to_nat (med_index_hi + 1))) in
    if (size median =? 1)%nat
    then m ← or_raise (head (elements median)) KeyError; Ok (MedInt m)
    else Ok (MedList (sorted_Z (elements median))).

(** Lines 339-362, on the list [stats] of line 338. *)
Definition stats_from (stats : list Z) : result stats_result :=
  avg ← mean stats;
  m ← py_min stats;
  M ← py_max stats;
  median ← median_of stats;
  let _range := (M - m)%Z in
  msd ← mean_square_deviation stats avg;
  let stdev := sqrt (Q2R msd) in
  Ok {| avg := avg; stdev := stdev; median := median; stat_min := m; stat_max := M;
        stat_range := _range; data := stats |}.

(** [[len(v) for v in index.values()]].  The order of [index.values()] is
    the dictionary's; here it is the map's. *)
Definition counts (index : gmap cell (gset nat)) : list Z :=
  List.map (fun kv => Z.of_nat (size (snd kv))) (map_to_list index).

(** [spatial_index_stats(soup, index)]; [soup] is not used. *)
Definition spatial_index_stats (index : gmap cell (gset nat)) : result stats_result :=
  stats_from (counts index).

(** What the statistics [r] of the counts [stats] are when the mean and
    the deviation are taken exactly: the mean times the number of counts is
    their sum; the
    deviation is the non-negative root of [v], and [v] times the number of
    counts is the sum of the squared differences from the mean; the least
    and the greatest count; their difference; and the median read off the
    sorted counts. *)
Definition describes (stats : list Z) (r : stats_result) : Prop :=
  let n := length stats in
  let s := sorted_Z stats in
  data r = stats /\
  (avg r * inject_Z (Z.of_nat n) == inject_Z (sum_Z stats))%Q /\
  (exists v : Q,
      (v * inject_Z (Z.of_nat n) ==
       sum_Q (List.map (fun x => (inject_Z x - avg r) * (inject_Z x - avg r)) stats))%Q /\
      (0 <= stdev r)%R /\ (stdev r * stdev r = Q2R v)%R) /\
  (In (stat_min r) stats /\ Forall (fun x => (stat_min r <= x)%Z) stats) /\
  (In (stat_max r) stats /\ Forall (fun x => (x <= stat_max r)%Z) stats) /\
  stat_range r = (stat_max r - stat_min r)%Z /\
  (Sorted Z.le s /\ s ≡ₚ stats) /\
  (Nat.odd n = true ->
   exists m, nth_error s (n / 2) = Some m /\ median r = MedInt m) /\
  (Nat.even n = true ->
   exists a b,
     nth_error s (n / 2 - 1) = Some a /\ nth_error s (n / 2) = Some b /\
     (a <= b)%Z /\
     median r = if (a =? b)%Z then MedInt a else MedList [a; b]).

(** What the whole-number statistics [r] of the counts [stats] are: the
    least and the greatest count; their difference; and the median read off
    the sorted counts. *)
Definition order_statistics (stats : list Z) (r : stats_result) : Prop :=
  let n := length stats in
  let s := sorted_Z stats in
  (In (stat_min r) stats /\ Forall (fun x => (stat_min r <= x)%Z) stats) /\
  (In (stat_max r) stats /\ Forall (fun x => (x <= stat_max r)%Z) stats) /\
  stat_range r = (stat_max r - stat_min r)%Z /\
  (Sorted Z.le s /\ s ≡ₚ stats) /\
  (Nat.odd n = true ->
   exists m, nth_error s (n / 2) = Some m /\ median r = MedInt m) /\
  (Nat.even n = true ->
   exists a b,
     nth_error s (n / 2 - 1) = Some a /\ nth_error s (n / 2) = Some b /\
     (a <= b)%Z /\
     median r = if (a =? b)%Z then MedInt a else MedList [a; b]).

End Spatial.

(** ** A stand-in for [spindex] on whole-number coordinates

    The grid-cell functions are injected, so a deterministic double can
    take their place: coordinates are integers, a cell is a lattice point,
    the 2-d cells of a ring are the points of its bounding box and its 1-d
    cells those on the border of the box. *)

Module Double.
Import Spatial.

Definition parse_float (s : string) : option Z :=
  option_map Z.of_int (NilZero.int_of_string s).

Definition xs (l : list (list Z)) : list Z := omap head l.
Definition ys (l : list (list Z)) : list Z := omap (fun p => nth_error p 1) l.

Definition least (l : list Z) : Z := match l with [] => 0%Z | x :: r => fold_left Z.min r x end.
Definition greatest (l : list Z) : Z := match l with [] => 0%Z | x :: r => fold_left Z.max r x end.

Definition span (lo hi : Z) : list Z := seqZ lo (hi - lo + 1).

Definition box (l : list (list Z)) : list cell :=
  x ← span (least (xs l)) (greatest (xs l));
  y ← span (least (ys l)) (greatest (ys l));
  [(x, y)].

Definition on_border (l : list (list Z)) (c : cell) : bool :=
  (fst c =? least (xs l))%Z || (fst c =? greatest (xs l))%Z
  || (snd c =? least (ys l))%Z || (snd c =? greatest (ys l))%Z.

Definition get_cell (pts : points Z) (scale : Z) (named : kwargs) : gset cell :=
  match pts with
  | OnePoint [x; y] => {[ (x, y) ]}
  | _ => ∅
  end.

Definition get_cells_1d (pts : points Z) (scale : Z) (named : kwargs) : gset cell :=
  match pts with
  | Points l => list_to_set (List.filter (on_border l) (box l))
  | OnePoint _ => ∅
  end.

Definition get_cells_2d (pts : points Z) (scale : Z) (named : kwargs) : gset cell :=
  match pts with
  | Points l => list_to_set (box l)
  | OnePoint _ => ∅
  end.

(** A tag that holds one string. *)
Definition text_tag (nm s : string) : node := Tag None nm [] [Str NavigableString s].

Definition ring (boundary coordinates : string) : node :=
  Tag None boundary [] [Tag None "LinearRing" [] [text_tag "coordinates" coordinates]].

(** A square from (0,0) to (4,4) with a square hole from (1,1) to (3,3). *)
Definition square_with_hole : node :=
  Tag None "Polygon" []
    [ring "outerBoundaryIs" "0,0 4,0 4,4 0,4 0,0";
     ring "innerBoundaryIs" "1,1 3,1 3,3 1,3 1,1"].

(** A square from (0,0) to (8,8) with two square holes that overlap, one
    from (1,1) to (4,4) and one from (3,3) to (6,6). *)
Definition square_with_two_holes : node :=
  Tag None "Polygon" []
    [ring "outerBoundaryIs" "0,0 8,0 8,8 0,8 0,0";
     ring "innerBoundaryIs" "1,1 4,1 4,4 1,4 1,1";
     ring "innerBoundaryIs" "3,3 6,3 6,6 3,6 3,3"].

Definition point_placemark : node :=
  Tag None "Placemark" [] [Tag None "Point" [] [text_tag "coordinates" "2,3,0"]].

Definition empty_placemark : node :=
  Tag None "Placemark" [] [text_tag "name" "nowhere"].

Definition two_placemarks : node :=
  Tag None "[document]" []
    [Tag None "kml" [] [Tag None "Document" [] [point_placemark; empty_placemark]]].

End Double.

Module ColorSpec.
Import Color.

(** The id of the style of color [c]: [url[1:]] of line 299. *)
Definition style_id (c : N) : string := String.append "color" (repr c).

(** A style element with fill color [v] and icon [w]. *)
Definition style_element (i v w : string) : node :=
  Tag None "Style" [("id", i)]
    [Tag None "PolyStyle" [] [Tag None "color" [] [Str NavigableString v]];
     Tag None "LineStyle" [] [Tag None "color" [] [Str NavigableString "7fcccccc"]];
     Tag None "IconStyle" []
       [Tag None "Icon" [] [Tag None "href" [] [Str NavigableString w]]]].

(** The style element of the id [i] with what the two tables hold at
    [int(i[-1])]. *)
Definition styled (colorize icons : gmap N string) (i : string) : result node :=
  v ← lookup_last_digit colorize i;
  w ← lookup_last_digit icons i;
  Ok (style_element i v w).

(** The outcome [r] of a call made inside the element at [doc], seen
    from the document [soup0] around it. *)
Definition lift (soup0 : node) (doc : path) (r : result (node * path))
  : result (node * path) :=
  match r with
  | Ok (D, q) => Ok (update (fun _ => D) soup0 doc, doc ++ q)
  | Raise e => Raise e
  end.

(** The color numbers of the placemarks [0 .. n-1]. *)
Definition colors_used (coloring : gmap nat N) (n : nat) : list N :=
  omap (fun i => coloring !! i) (seq 0 n).

(** [sorted] on a set of numbers. *)
Definition sorted_N (cs : gset N) : list N := merge_sort N.le (elements cs).

End ColorSpec.

(** ** Documents for the examples *)

Module Examples.
Import Color ColorSpec.

Definition placemark (children : list node) : node := Tag None "Placemark" [] children.

(** A document with two placemarks, one with a [styleUrl] already. *)
Definition two_regions : node :=
  Tag None "[document]" []
    [Tag None "kml" []
       [Tag None "Document" []
          [placemark [Tag None "styleUrl" [] [Str NavigableString "#old"]];
           placemark [Tag None "name" [] [Str NavigableString "east"]]]]].

Definition two_regions_styled (c0 c1 : string) : list node :=
  [placemark [Tag None "styleUrl" [] [Str NavigableString c0]];
   placemark [Tag None "name" [] [Str NavigableString "east"];
              Tag None "styleUrl" [] [Str NavigableString c1]]].

Definition in_document (children : list node) : node :=
  Tag None "[document]" [] [Tag None "kml" [] [Tag None "Document" [] children]].

(** A document with one placemark. *)
Definition one_region : node :=
  in_document [placemark [Tag None "name" [] [Str NavigableString "north"]]].

End Examples.

(** ** More of [format]: [formatted], and what the pass keeps *)

Module Formatted.
Import Format.

(** [formatted(soup)]: [format] with its default flag; the document
    returned is the one passed in. *)
Definition formatted (v : bs4_version) (soup : node) : result node :=
  format v soup false.

End Formatted.

Module HtmlSpec.

(** What [_as_html] leaves in place of one character. *)
Definition escape (c : ascii) : string :=
  if Ascii.eqb c "<" then "&amp;lt;"
  else if Ascii.eqb c ">" then "&amp;gt;"
  else if Ascii.eqb c "&" then "&amp;"
  else String c EmptyString.

Fixpoint escape_all (s : string) : string :=
  match s with
  | EmptyString => EmptyString
  | String c r => String.append (escape c) (escape_all r)
  end.

End HtmlSpec.

Module TreeSpec.
Import Format.

(** [tag.prefix] *)
Definition prefix_of (e : node) : option string :=
  match e with
  | Tag p _ _ _ => p
  | Str _ _ => None
  end.

(** The name and the attributes of a tag. *)
Definition element_of (e : node) : option (string * list (string * string)) :=
  match e with
  | Tag _ nm a _ => Some (nm, a)
  | Str _ _ => None
  end.

(** The tags below [n], in document order, each by name and attributes. *)
Definition elements (n : node) : list (string * list (string * string)) :=
  omap element_of (descendants n).

(** The same for [e] and what is below it. *)
Definition self_elements (e : node) : list (string * list (string * string)) :=
  omap element_of (e :: descendants e).

(** A tag whose contents are whitespace strings only, and not exactly
    one of them. *)
Definition is_blank (e : node) : bool :=
  match e with
  | Tag _ _ _ cs => forallb in_destroy cs && negb (Nat.eqb (length cs) 1)
  | Str _ _ => false
  end.

(** Of the elements [l], the tags that are not blank, each by name and
    attributes. *)
Definition not_blank (l : list node) : list (string * list (string * string)) :=
  omap element_of (List.filter (fun e => negb (is_blank e)) l).

(** The text of a string of the document. *)
Definition text_of (e : node) : option string :=
  match e with
  | Str _ s => Some s
  | Tag _ _ _ _ => None
  end.

(** The texts of the strings below [n], in document order. *)
Definition texts (n : node) : list string := omap text_of (descendants n).

(** A string of the document whose text is the trimmed text of one of
    [originals]; a tag passes. *)
Definition trims_one_of (originals : list string) (e : node) : Prop :=
  match e with
  | Str _ t => exists s, In s originals /\ t = strip s
  | Tag _ _ _ _ => True
  end.

(** A tag whose only child is a non-empty string: the condition of line
    76. *)
Definition sole_text (e : node) : bool :=
  match e with
  | Tag _ _ _ [Str _ (String _ _)] => true
  | _ => false
  end.

(** The first tag below [soup], in document order, whose only child is a
    non-empty string, and that string. *)
Definition first_sole_text (soup : node) : option node :=
  match find sole_text soup with
  | Some (Tag _ _ _ (c :: _)) => Some c
  | _ => None
  end.

(** The state in which the loop of bs4 4.13 leaves the elements [l], in
    document order, when it reaches them going: ended when there is among
    them a tag whose only child is a non-empty string, with the child of
    the first such tag. *)
Definition state_after (l : list node) : walk :=
  match head (List.filter sole_text l) with
  | Some (Tag _ _ _ (c :: _)) => Ended c
  | _ => Going
  end.







End TreeSpec.

(** ** What [add] builds *)

Module AccessSpec.


(** One new tag per name, each inside the one before it. *)
Fixpoint chain (names : list string) : list node :=
  match names with
  | [] => []
  | n :: r => [Tag None n [] (chain r)]
  end.

(** From a tag that had [start] children, the way to the innermost tag
    of the chain appended to it. *)
Definition deepest (start : nat) (names : list string) : path :=
  match names with
  | [] => []
  | _ :: r => start :: repeat 0%nat (length r)
  end.

(** The pieces of the text of a [coordinates] tag: its chunks, each split
    at the commas. *)
Definition pieces (s : string) : list (list string) :=
  List.map (split_on ",") (split_ws (strip s)).

End AccessSpec.

(** ** The cells of one geometry *)

Module SpatialSpec.
Import Access Spatial.

Section collaborators.
Variable float : Type.
Variable parse_float : string -> option float.
Variable get_cell get_cells_1d get_cells_2d : points float -> Z -> kwargs -> gset cell.

(** [_TAG_TO_FUNCTION[geom.name](geom, scale)], the call of line 394. *)
Definition geometry_cells (geom : node) (scale : Z) : result (gset cell) :=
  nm ← or_raise (tag_name geom) AttributeError;
  f ← tag_function float parse_float get_cell get_cells_1d get_cells_2d nm;
  f geom scale.

(** The placemarks of [soup] that cover [c]: the [i] with [c] among the
    cells [_spatial_index] returns for placemark [i]. *)
Definition covers (soup : node) (scale : Z) (c : cell) (i : nat) : Prop :=
  exists pm cells,
    find_all (named "Placemark") soup !! i = Some pm /\
    _spatial_index float parse_float get_cell get_cells_1d get_cells_2d pm scale = Ok cells /\
    c ∈ cells.

End collaborators.

(** The median lies between [lo] and [hi]; when it is a list, each of
    its numbers does. *)
Definition median_within (lo hi : Z) (m : median_value) : Prop :=
  match m with
  | MedInt z => (lo <= z <= hi)%Z
  | MedList l => Forall (fun z => (lo <= z <= hi)%Z) l
  end.

End SpatialSpec.

(** ** The styles of a document *)

Module StyleSpec.
Import Color.

(** A [Style] or [StyleMap] tag with the id [i]. *)
Definition has_style_id (i : string) (e : node) : bool :=
  match e with
  | Tag _ _ a _ => is_style e && bool_decide (attr "id" a = Some i)
  | Str _ _ => false
  end.

(** A tag the removal loop can decompose and go on: when its id is one of
    [ids], no [Style] or [StyleMap] tag lies below it. *)
Definition removable (ids : gset string) (e : node) : Prop :=
  is_stale ids e = true -> existsb is_style (descendants e) = false.

End StyleSpec.

(** ** [new_soup] *)

Module Soup.
Import Format Access.

(** The double quote. *)
Definition quote : string := String "034" EmptyString.

(** [_SOUP_STOCK], the text of an empty KML document. *)
Definition _SOUP_STOCK : string :=
  String.concat EmptyString
    ["<?xml version="; quote; "1.0"; quote; " encoding="; quote; "UTF-8"; quote; "?>";
     "<kml xmlns="; quote; "http://www.opengis.net/kml/2.2"; quote;
     " xmlns:gx="; quote; "http://www.google.com/kml/ext/2.2"; quote;
     " xmlns:kml="; quote; "http://www.opengis.net/kml/2.2"; quote;
     " xmlns:atom="; quote; "http://www.w3.org/2005/Atom"; quote; ">";
     "<Document>";
     "</Document>";
     "</kml>"].

Section parser.

(** [BeautifulSoup(src, 'xml')]: the parser is bs4's, taken as it is. *)
Variable parse : string -> node.

(** [new_soup(name, src)].  [soup.Document] is [None] when the document
    has no such tag, and [add] then fails at [tag.parent]. *)
Definition new_soup (v : bs4_version) (name : option string) (src : string)
  : result node :=
  let soup := parse src in
  soup ← match name with
         | Some nm =>
             document ← or_raise (find_path (named "Document") soup []) AttributeError;
             '(soup, new) ← add soup document (NStr "name") None;
             Ok (update (set_string nm) soup new)
         | None => Ok soup
         end;
  format v soup false.

End parser.

End Soup.

(** ** The first loop of [apply_color], placemark by placemark *)

Module UrlSpec.
Import Access Color ColorSpec.

(** The [url] of line 297 for the color [c]. *)
Definition url_of (c : N) : string := String.append "#color" (repr c).

(** Line 298 inside one placemark: the contents of its first [styleUrl]
    tag become the url; when it has none, a new [styleUrl] tag with the url
    is appended to it. *)
Definition style_one (url : string) (pm : node) : node :=
  match find_first (named "styleUrl") pm with
  | Some t => update (set_string url) pm t
  | None => append_child (Tag None "styleUrl" [] [Str NavigableString url]) pm
  end.

(** Lines 296-298 for the placemark at position [k]. *)
Definition style_at (coloring : gmap nat N) (k : nat) (pm : node) : result node :=
  c ← or_raise (coloring !! k) KeyError;
  Ok (style_one (url_of c) pm).

(** The tree below [n] with every placemark styled, the first one at
    position [k]; with it, the position after the last one.  A placemark
    is styled as a whole, what lies below it is not gone through. *)
Fixpoint restyle (coloring : gmap nat N) (n : node) (k : nat) : result (node * nat) :=
  match n with
  | Str _ _ => Ok (n, k)
  | Tag p nm a cs =>
      '(cs', k') ←
        (fix go (l : list node) (k : nat) : result (list node * nat) :=
           match l with
           | [] => Ok ([], k)
           | c :: r =>
               '(c', k1) ← (if named "Placemark" c
                            then pm ← style_at coloring k c; Ok (pm, S k)
                            else restyle coloring c k);
               '(r', k2) ← go r k1;
               Ok (c' :: r', k2)
           end) cs k;
      Ok (Tag p nm a cs', k')
  end.

(** The same for a list of children. *)
Definition restyle_children (coloring : gmap nat N) (l : list node) (k : nat)
  : result (list node * nat) :=
  (fix go (l : list node) (k : nat) : result (list node * nat) :=
     match l with
     | [] => Ok ([], k)
     | c :: r =>
         '(c', k1) ← (if named "Placemark" c
                      then pm ← style_at coloring k c; Ok (pm, S k)
                      else restyle coloring c k);
         '(r', k2) ← go r k1;
         Ok (c' :: r', k2)
     end) l k.

(** The document part of [style_placemark]. *)
Definition style_step (coloring : gmap nat N) (soup : node) (ipm : nat * path)
  : result node :=
  match style_placemark coloring (soup, ∅) ipm with
  | Ok (soup', _) => Ok soup'
  | Raise e => Raise e
  end.

(** The references of line 290 for the tree below [n], and for a list
    of children of which the first is child [i]. *)
Definition placemark_paths (n : node) : list path :=
  List.filter (fun q => match get n q with Some d => named "Placemark" d | None => false end)
    (descendant_paths n).

Fixpoint child_paths (i : nat) (l : list node) : list path :=
  match l with
  | [] => []
  | c :: r =>
      (if named "Placemark" c then [[i]] else [])
      ++ List.map (cons i) (placemark_paths c) ++ child_paths (S i) r
  end.

(** The ids of the colors of the positions below [n]. *)
Definition ids_upto (coloring : gmap nat N) (n : nat) : gset string :=
  list_to_set (style_id <$> colors_used coloring n).

(** No Placemark lies below a Placemark. *)
Fixpoint flat (n : node) : bool :=
  match n with
  | Str _ _ => true
  | Tag _ _ _ cs =>
      (fix all (l : list node) : bool :=
         match l with
         | [] => true
         | c :: r =>
             (if named "Placemark" c
              then negb (existsb (named "Placemark") (descendants c))
              else flat c)
             && all r
         end) cs
  end.

Definition flat_children (l : list node) : bool :=
  forallb (fun c => if named "Placemark" c
                    then negb (existsb (named "Placemark") (descendants c))
                    else flat c) l.

(** No Placemark, Style, StyleMap or Document lies below a Placemark, a
    Style or a StyleMap. *)
Definition marked (e : node) : bool := named_in ["Placemark"; "Style"; "StyleMap"] e.
Definition barred (e : node) : bool :=
  named_in ["Placemark"; "Style"; "StyleMap"; "Document"] e.

Fixpoint tidy (n : node) : bool :=
  match n with
  | Str _ _ => true
  | Tag _ _ _ cs =>
      (fix all (l : list node) : bool :=
         match l with
         | [] => true
         | c :: r =>
             (if marked c then negb (existsb barred (descendants c)) else tidy c)
             && all r
         end) cs
  end.

Definition tidy_children (l : list node) : bool :=
  forallb (fun c => if marked c then negb (existsb barred (descendants c)) else tidy c) l.

(** The loop of [remove_styles] over a list of children. *)
Definition remove_children (ids : gset string) (l : list node) : result (list node) :=
  (fix go (l : list node) : result (list node) :=
     match l with
     | [] => Ok []
     | c :: r =>
         if is_stale ids c
         then if existsb is_style (descendants c)
              then Raise TypeError
              else go r
         else c' ← remove_styles ids c; r' ← go r; Ok (c' :: r')
     end) l.

End UrlSpec.

(** * Theorems *)

(** ** Facts about strings *)

Section string_facts.

Lemma lstrip_head s c r : lstrip s = String c r -> char_isspace c = false.
Proof.
  induction s as [|d s IH]; simpl; [discriminate|].
  destruct (char_isspace d) eqn:E; [exact IH|].
  intros [= -> ->]. exact E.
Qed.

Lemma rstrip_head c r :
  char_isspace c = false -> exists r', rstrip (String c r) = String c r'.
Proof.
  intros E. simpl. destruct (rstrip r); [rewrite E|]; eauto.
Qed.

Lemma rstrip_last s c : last_char (rstrip s) = Some c -> char_isspace c = false.
Proof.
  induction s as [|d s IH]; simpl; [discriminate|].
  destruct (rstrip s) as [|e r] eqn:R.
  - destruct (char_isspace d) eqn:E; simpl; [discriminate|].
    intros [= <-]. exact E.
  - intros H. apply IH. exact H.
Qed.

Lemma lstrip_fix s :
  match s with EmptyString => true | String c _ => negb (char_isspace c) end = true ->
  lstrip s = s.
Proof.
  destruct s as [|c r]; simpl; [reflexivity|].
  destruct (char_isspace c); [discriminate|reflexivity].
Qed.

Lemma rstrip_fix s :
  match last_char s with Some c => negb (char_isspace c) | None => true end = true ->
  rstrip s = s.
Proof.
  induction s as [|c r IH]; [reflexivity|].
  simpl. destruct r as [|d r'].
  - simpl. destruct (char_isspace c); [discriminate|reflexivity].
  - intros H. rewrite (IH H). reflexivity.
Qed.

Lemma rstrip_last_ok s :
  match last_char (rstrip s) with
  | Some c => negb (char_isspace c)
  | None => true
  end = true.
Proof.
  destruct (last_char (rstrip s)) as [c|] eqn:E; [|reflexivity].
  rewrite (rstrip_last _ _ E). reflexivity.
Qed.

Lemma strip_no_outer_space s : Format.no_outer_space (strip s) = true.
Proof.
  unfold Format.no_outer_space, strip.
  rewrite rstrip_last_ok, andb_true_r.
  destruct (lstrip s) as [|c r] eqn:L; [reflexivity|].
  pose proof (lstrip_head _ _ _ L) as E.
  destruct (rstrip_head c r E) as [r' ->]. rewrite E. reflexivity.
Qed.

Lemma no_outer_space_strip s : Format.no_outer_space s = true -> strip s = s.
Proof.
  unfold Format.no_outer_space, strip. intros [H1 H2]%andb_true_iff.
  rewrite (lstrip_fix _ H1). apply rstrip_fix, H2.
Qed.

Lemma strip_fix_iff s : strip s = s <-> Format.no_outer_space s = true.
Proof.
  split; [|apply no_outer_space_strip].
  intros <-. apply strip_no_outer_space.
Qed.

Lemma strip_idem s : strip (strip s) = strip s.
Proof. apply no_outer_space_strip, strip_no_outer_space. Qed.

Lemma no_outer_space_not_isspace s : Format.no_outer_space s = true -> isspace s = false.
Proof.
  destruct s as [|c r]; [reflexivity|].
  unfold Format.no_outer_space. simpl isspace. cbn [all_space].
  intros [H _]%andb_true_iff. apply negb_true_iff in H. rewrite H. reflexivity.
Qed.

Lemma isspace_strip s : isspace (strip s) = false.
Proof. apply no_outer_space_not_isspace, strip_no_outer_space. Qed.

Lemma length_append (s t : string) :
  String.length (s ++ t) = (String.length s + String.length t)%nat.
Proof. induction s as [|c s IH]; simpl; [reflexivity|]. rewrite IH. reflexivity. Qed.

Lemma length_replace k v s :
  (1 <= String.length v)%nat ->
  (String.length s <= String.length (replace k v s))%nat.
Proof.
  intros Hv. induction s as [|c s IH]; simpl; [lia|].
  destruct (Ascii.eqb c k); simpl; [rewrite length_append|]; lia.
Qed.

Lemma length_as_html s : (String.length s <= String.length (Format._as_html s))%nat.
Proof.
  unfold Format._as_html. simpl.
  etransitivity; [|apply length_replace; simpl; lia].
  etransitivity; [|apply length_replace; simpl; lia].
  apply length_replace; simpl; lia.
Qed.

End string_facts.

(** ** Facts about the document tree *)

Section dom_facts.

Lemma descendants_Tag p nm a cs :
  descendants (Tag p nm a cs) = concat (List.map (fun c => c :: descendants c) cs).
Proof.
  simpl. induction cs as [|c r IH]; [reflexivity|].
  simpl. rewrite IH. reflexivity.
Qed.

Lemma Forall_descendants_Tag (P : node -> Prop) p nm a cs :
  Forall P (descendants (Tag p nm a cs)) <->
  Forall (fun c => P c /\ Forall P (descendants c)) cs.
Proof.
  rewrite descendants_Tag. induction cs as [|c r IH]; simpl.
  - split; constructor.
  - rewrite Forall_cons, Forall_app, IH, Forall_cons. tauto.
Qed.

Lemma keep_map_spec keep f l :
  Format.keep_map keep f l = List.map f (List.filter keep l).
Proof.
  induction l as [|c r IH]; simpl; [reflexivity|].
  destruct (keep c); simpl; rewrite IH; reflexivity.
Qed.

End dom_facts.

(** ** [format] *)

Module FormatFacts.
Import Format FormatSpec.

Lemma in_destroy_visit e : in_destroy (visit e) = in_destroy e.
Proof. destruct e as [k s|p nm a cs]; simpl; [reflexivity|]. destruct (restring cs); reflexivity. Qed.

Lemma restring_Some cs new :
  restring cs = Some new ->
  exists k s c r, cs = [Str k (String c r)] /\
    new = Str (if has_special (strip (String c r)) then CData else NavigableString)
              (strip (String c r)) /\ s = String c r.
Proof.
  unfold restring. destruct cs as [|[k s|] [|]]; try discriminate.
  destruct s as [|c r]; [discriminate|].
  intros H. exists k, (String c r), c, r. split; [reflexivity|]. split; [|reflexivity].
  destruct (has_special (strip (String c r))); [|congruence].
  unfold str in H.
  pose proof (length_as_html (strip (String c r))) as L.
  apply Nat.leb_le in L. rewrite L in H. congruence.
Qed.

Lemma apply_recorded_Str_trimmed k s :
  isspace s = false -> trimmed_string (apply_recorded (Str k s)).
Proof.
  intros E. simpl. rewrite E. simpl.
  destruct (String.eqb (strip s) s) eqn:Q; simpl.
  - apply String.eqb_eq in Q. split; [exact E|]. apply strip_fix_iff, Q.
  - split; [apply isspace_strip|apply strip_no_outer_space].
Qed.

Lemma apply_recorded_is_Str k s : exists k' s', apply_recorded (Str k s) = Str k' s'.
Proof. simpl. destruct (_ && _); eauto. Qed.

Lemma apply_visit_trimmed e :
  in_destroy e = false ->
  trimmed_string (apply_recorded (visit e)) /\
  Forall trimmed_string (descendants (apply_recorded (visit e))).
Proof.
  induction e as [k s|p nm a cs IH] using node_ind_nested; intros D.
  - split; [apply apply_recorded_Str_trimmed, D|].
    simpl visit. destruct (apply_recorded_is_Str k s) as (k' & s' & ->). constructor.
  - simpl visit. destruct (restring cs) as [new|] eqn:R.
    + apply restring_Some in R as (k & s & c & r & -> & -> & _).
      split; [exact I|]. cbn [apply_recorded].
      apply Forall_descendants_Tag. rewrite keep_map_spec.
      cbn [List.filter in_destroy]. rewrite isspace_strip.
      cbn [negb List.map apply_recorded in_strip].
      rewrite isspace_strip, strip_idem, String.eqb_refl. cbn [negb andb].
      repeat constructor; [apply isspace_strip|apply strip_no_outer_space].
    + split; [exact I|]. simpl apply_recorded.
      apply Forall_descendants_Tag. rewrite keep_map_spec.
      apply Forall_map. apply Forall_forall. intros c' Hin%list_elem_of_In.
      apply filter_In in Hin as [Hin Hk].
      apply in_map_iff in Hin as (c & <- & Hc).
      rewrite Forall_forall in IH. apply IH; [apply list_elem_of_In, Hc|].
      rewrite in_destroy_visit in Hk. apply negb_true_iff, Hk.
Qed.

Lemma remove_empty_trimmed e :
  trimmed_string e /\ Forall trimmed_string (descendants e) ->
  trimmed_string (remove_empty e) /\ Forall trimmed_string (descendants (remove_empty e)).
Proof.
  induction e as [k s|p nm a cs IH] using node_ind_nested; intros [H1 H2].
  - simpl. split; [exact H1|constructor].
  - split; [exact I|]. simpl remove_empty.
    apply Forall_descendants_Tag. rewrite keep_map_spec.
    apply Forall_descendants_Tag in H2.
    apply Forall_map. apply Forall_forall. intros c Hin%list_elem_of_In.
    apply filter_In in Hin as [Hin _].
    rewrite Forall_forall in IH, H2.
    apply list_elem_of_In in Hin. apply IH; [exact Hin|]. apply H2, Hin.
Qed.

(** Under bs4 4.12 and before, every string left in the document is
    trimmed: it is not whitespace in the sense of [str.isspace], and it has
    neither leading nor trailing whitespace.  (A string that was all
    whitespace and the only child of its tag is left as an empty string.) *)
Lemma format_4_12_trimmed (soup : node) (no_empty : bool) :
  Forall trimmed_string (descendants (format_4_12 soup no_empty)).
Proof.
  destruct soup as [k s|p nm a cs]; [constructor|].
  assert (H : Forall trimmed_string
                (descendants (apply_recorded (Tag p nm a (List.map visit cs))))).
  { simpl apply_recorded. apply Forall_descendants_Tag. rewrite keep_map_spec.
    apply Forall_map. apply Forall_forall. intros c' Hin%list_elem_of_In.
      apply filter_In in Hin as [Hin Hk].
    apply in_map_iff in Hin as (c & <- & Hc).
    apply apply_visit_trimmed. rewrite in_destroy_visit in Hk.
    apply negb_true_iff, Hk. }
  unfold format_4_12. destruct no_empty; [|exact H].
  apply remove_empty_trimmed. split; [exact I|exact H].
Qed.

(** C6.  Under bs4 4.13 and later the loop of line 67 ends at the first
    tag whose only child is a non-empty string: in the first document the
    text of [name] is rewritten, the loop ends, and [format] returns with
    the text of [description] untrimmed and the whitespace after it still
    there.  In the second document the old text of [name] is recorded to
    be trimmed after it has left the tree, and line 85 raises.  Under bs4
    4.12 and before both documents come out trimmed. *)
Theorem format_stops_at_first_text :
  let text nm s := Tag None nm [] [Str NavigableString s] in
  let soup :=
    Tag None "[document]" []
      [Tag None "Document" []
         [text "name" "x"; text "description" " y "; Str NavigableString " "]] in
  let soup' := Tag None "[document]" [] [Tag None "Document" [] [text "name" " x "]] in
  format Bs4_13 soup false = Ok soup /\
  ~ Forall trimmed_string (descendants soup) /\
  format Bs4_13 soup' false = Raise (ValueError not_in_tree) /\
  format Bs4_12 soup false
  = Ok (Tag None "[document]" []
          [Tag None "Document" [] [text "name" "x"; text "description" "y"]]) /\
  format Bs4_12 soup' false
  = Ok (Tag None "[document]" [] [Tag None "Document" [] [text "name" "x"]]).
Proof.
  cbv zeta. split; [reflexivity|]. split; [|repeat split].
  intros H. rewrite Forall_forall in H.
  destruct (H (Str NavigableString " y ")) as [_ H'].
  - apply list_elem_of_In. cbn. do 4 right. left. reflexivity.
  - discriminate H'.
Qed.

Lemma restring_Str k s :
  restring [Str k s] =
  match s with
  | EmptyString => None
  | _ => Some (Str (kind_of (strip s)) (strip s))
  end.
Proof.
  unfold restring, kind_of, str. destruct s as [|c r]; [reflexivity|].
  pose proof (length_as_html (strip (String c r))) as L.
  apply Nat.leb_le in L. rewrite L.
  destruct (has_special _); reflexivity.
Qed.

Lemma restring_not_sole_string cs :
  (forall k c r, cs <> [Str k (String c r)]) -> restring cs = None.
Proof.
  intros H. destruct cs as [|[k [|c r]|] [|]]; try reflexivity.
  exfalso. apply (H k c r). reflexivity.
Qed.

Lemma clear_kml_idem p : clear_kml (clear_kml p) = clear_kml p.
Proof.
  unfold clear_kml. destruct (bool_decide (p = Some "kml")) eqn:E; [reflexivity|].
  rewrite E. reflexivity.
Qed.

Lemma apply_recorded_trimmed k t :
  no_outer_space t = true -> apply_recorded (Str k t) = Str k t.
Proof.
  intros H. simpl. rewrite (no_outer_space_strip t H), String.eqb_refl, andb_false_r.
  reflexivity.
Qed.

Lemma apply_recorded_Tag p nm a cs :
  apply_recorded (Tag p nm a cs) =
  Tag p nm a (keep_map (fun c => negb (in_destroy c)) apply_recorded cs).
Proof. reflexivity. Qed.

Lemma in_destroy_trimmed k t : no_outer_space t = true -> in_destroy (Str k t) = false.
Proof. intros H. apply no_outer_space_not_isspace, H. Qed.

Lemma pass_list_spec cs :
  pass_list cs = List.map pass (List.filter (fun c => negb (in_destroy c)) cs).
Proof.
  unfold pass_list, pass. rewrite keep_map_spec.
  induction cs as [|c r IH]; [reflexivity|].
  simpl. rewrite in_destroy_visit. destruct (in_destroy c); simpl; rewrite IH; reflexivity.
Qed.

Lemma pass_Tag p nm a cs :
  pass (Tag p nm a cs) =
  Tag (clear_kml p) nm a
    match restring cs with
    | Some new => [new]
    | None => pass_list cs
    end.
Proof.
  unfold pass. simpl visit. destruct (restring cs) as [new|] eqn:R; [|reflexivity].
  apply restring_Some in R as (k & s & c & r & -> & -> & _).
  rewrite apply_recorded_Tag, keep_map_spec. cbn [List.filter].
  rewrite in_destroy_trimmed by apply strip_no_outer_space.
  cbn [negb List.map]. rewrite apply_recorded_trimmed by apply strip_no_outer_space.
  reflexivity.
Qed.

Lemma pass_Str k s :
  isspace s = false ->
  exists k' t, pass (Str k s) = Str k' t /\ no_outer_space t = true.
Proof.
  intros E. unfold pass. simpl. rewrite E. simpl.
  destruct (String.eqb (strip s) s) eqn:Q; simpl.
  - apply String.eqb_eq in Q. exists k, s. split; [reflexivity|]. apply strip_fix_iff, Q.
  - exists NavigableString, (strip s). split; [reflexivity|apply strip_no_outer_space].
Qed.

Lemma in_destroy_pass e : in_destroy e = false -> in_destroy (pass e) = false.
Proof.
  destruct e as [k s|p nm a cs]; intros D.
  - destruct (pass_Str k s D) as (k' & t & -> & Ht). apply in_destroy_trimmed, Ht.
  - rewrite pass_Tag. reflexivity.
Qed.

Lemma is_tag_pass e : is_tag (pass e) = is_tag e.
Proof.
  destruct e as [k s|p nm a cs]; [|rewrite pass_Tag; reflexivity].
  unfold pass. simpl. destruct (_ && _); reflexivity.
Qed.

Lemma pass_list_idem cs :
  Forall (fun c => in_destroy c = false -> pass (pass c) = pass c) cs ->
  pass_list (pass_list cs) = pass_list cs.
Proof.
  intros H. rewrite !pass_list_spec.
  induction H as [|c r Hc Hr IH]; [reflexivity|].
  simpl. destruct (in_destroy c) eqn:D; simpl; [exact IH|].
  rewrite (in_destroy_pass c D). simpl. rewrite (Hc eq_refl), IH. reflexivity.
Qed.

Lemma adjacent_strings_all_str cs :
  Forall (fun c => is_tag c = false) cs -> adjacent_strings cs = false ->
  (length cs <= 1)%nat.
Proof.
  intros H A. destruct H as [|c r Hc Hr]; [simpl; lia|].
  destruct Hr as [|d r' Hd Hr']; [simpl; lia|].
  simpl in Hc, Hd. destruct c; [|discriminate Hc]. destruct d; [|discriminate Hd].
  simpl in A. discriminate A.
Qed.

Lemma filter_kept_singleton cs x :
  List.filter (fun c => negb (in_destroy c)) cs = [x] -> is_tag x = false ->
  Forall (fun c => is_tag c = false) cs.
Proof.
  intros Hf Hx. apply Forall_forall. intros y Hy%list_elem_of_In.
  destruct y as [k s|p nm a l]; [reflexivity|].
  assert (Hin : In (Tag p nm a l) (List.filter (fun c => negb (in_destroy c)) cs)).
  { apply filter_In. split; [exact Hy|reflexivity]. }
  rewrite Hf in Hin. destruct Hin as [->|[]]. simpl in Hx. discriminate Hx.
Qed.

Lemma restring_pass_list cs :
  adjacent_strings cs = false -> restring cs = None -> restring (pass_list cs) = None.
Proof.
  intros A R. apply restring_not_sole_string. intros k c0 r0 E.
  rewrite pass_list_spec in E.
  destruct (List.filter (fun c => negb (in_destroy c)) cs) as [|x [|]] eqn:Hf;
    try discriminate.
  injection E as E.
  assert (Hx : is_tag x = false) by (rewrite <- is_tag_pass, E; reflexivity).
  pose proof (adjacent_strings_all_str cs (filter_kept_singleton cs x Hf Hx) A) as Hlen.
  destruct cs as [|c [|]]; [discriminate| |simpl in Hlen; lia].
  simpl in Hf. destruct (in_destroy c); [discriminate|].
  injection Hf as ->. destruct x as [k0 s0|]; [|discriminate].
  rewrite restring_Str in R. destruct s0; [|discriminate].
  unfold pass in E. simpl in E. discriminate E.
Qed.

Lemma no_adjacent_strings_Tag p nm a cs :
  no_adjacent_strings (Tag p nm a cs) = true <->
  adjacent_strings cs = false /\ Forall (fun c => no_adjacent_strings c = true) cs.
Proof.
  cbn [no_adjacent_strings]. rewrite andb_true_iff, negb_true_iff.
  apply and_iff_compat_l.
  induction cs as [|c r IH]; [split; [constructor|reflexivity]|].
  rewrite andb_true_iff, IH, Forall_cons. reflexivity.
Qed.

Lemma pass_idem e :
  no_adjacent_strings e = true -> in_destroy e = false -> pass (pass e) = pass e.
Proof.
  induction e as [k s|p nm a cs IH] using node_ind_nested; intros N D.
  - destruct (pass_Str k s D) as (k' & t & -> & Ht).
    unfold pass. simpl visit. apply apply_recorded_trimmed, Ht.
  - apply no_adjacent_strings_Tag in N as [A N].
    rewrite pass_Tag. destruct (restring cs) as [new|] eqn:R.
    + apply restring_Some in R as (k & s & c & r & -> & -> & _).
      rewrite pass_Tag, clear_kml_idem. fold (kind_of (strip (String c r))).
      rewrite restring_Str, strip_idem.
      destruct (strip (String c r)) as [|c' r'] eqn:S; [|reflexivity].
      reflexivity.
    + rewrite pass_Tag, clear_kml_idem, (restring_pass_list cs A R).
      f_equal. apply pass_list_idem.
      apply Forall_forall. intros c Hc Dc.
      rewrite Forall_forall in IH, N. apply IH; auto.
Qed.

(** Under bs4 4.12 and before, with [no_empty] off, a second [format]
    changes nothing in a document where no tag has two strings next to each
    other in its contents. *)
Lemma format_4_12_separated (soup : node) :
  no_adjacent_strings soup = true ->
  format_4_12 (format_4_12 soup false) false = format_4_12 soup false.
Proof.
  destruct soup as [k s|p nm a cs]; [reflexivity|].
  intros [_ N]%no_adjacent_strings_Tag.
  unfold format_4_12. rewrite !apply_recorded_Tag.
  fold (pass_list cs). fold (pass_list (pass_list cs)).
  f_equal. apply pass_list_idem.
  apply Forall_forall. intros c Hc Dc.
  rewrite Forall_forall in N. apply pass_idem; auto.
Qed.

(** C4.  The tag [name] holds the text [a<b] alone.  Written out, the
    CDATA block has 15 characters and the escaped text 6, so the comparison
    the claim describes keeps the escaped text.  Line 80 compares the
    length of [str(cdata)], the 3 bare characters, with the length of
    [_as_html] of the text, which is 10 ([_as_html] escapes the ampersands
    it has just written), and [format] wraps the text in CDATA, under
    either bs4. *)
Theorem format_wraps_short_text :
  (forall v,
     format v (Tag None "[document]" [] [Tag None "name" [] [Str NavigableString "a<b"]]) false
     = Ok (Tag None "[document]" [] [Tag None "name" [] [Str CData "a<b"]]))
  /\ _as_html "a<b" = "a&amp;lt;b"
  /\ String.length (output_ready CData "a<b") = 15%nat
  /\ output_ready NavigableString "a<b" = "a&lt;b"
  /\ String.length (output_ready NavigableString "a<b") = 6%nat
  /\ String.length (str CData "a<b") = 3%nat.
Proof. repeat split. intros []; reflexivity. Qed.

(** Line 80 holds for every text: a tag whose only child is a non-empty
    string with one of [<], [>], [&] in its trimmed text always gets a
    CDATA string. *)
Lemma restring_special k c r :
  has_special (strip (String c r)) = true ->
  restring [Str k (String c r)] = Some (Str CData (strip (String c r))).
Proof. intros H. rewrite restring_Str. unfold kind_of. rewrite H. reflexivity. Qed.

End FormatFacts.

(** ** The accessors *)

Module AccessFacts.
Import Access.

(** C3.  [get_data] with a list of names returns nothing: line 106 names
    the undefined [__iter__], so the call raises [NameError] before the
    comprehension of line 107 runs, whatever the placemark and the names. *)
Theorem get_data_list_raises (pm : node) (names : list Py.name) :
  get_data pm (NList names) = Raise (NameError "__iter__").
Proof. reflexivity. Qed.

(** With a string, [get_data] finds the field. *)
Example get_data_string :
  get_data
    (Tag None "Placemark" []
       [Tag None "ExtendedData" []
          [Tag None "Data" [("name", "pop")] [Tag None "value" [] [Str NavigableString " 12 "]];
           Tag None "SimpleData" [("name", "area")] [Str NavigableString "7"]]])
    (NStr "pop") = Ok (DStr "12").
Proof. reflexivity. Qed.

Lemma parents_fuel_last (fuel : nat) (p : path) :
  length p = S fuel ->
  exists l, parents_fuel (S fuel) p = l ++ [[]] /\ Forall (fun q => q <> []) l.
Proof.
  revert p. induction fuel as [|fuel IH]; intros p Hlen.
  - destruct p as [|i [|]]; try discriminate. exists []. split; [reflexivity|constructor].
  - assert (Hp : p <> []) by (intros ->; discriminate).
    assert (Hr : length (removelast p) = S fuel).
    { destruct (exists_last Hp) as (q & x & ->).
      rewrite removelast_last. rewrite length_app in Hlen. simpl in Hlen. lia. }
    destruct (IH _ Hr) as (l & El & Fl).
    exists (removelast p :: l). split.
    + change (parents_fuel (S (S fuel)) p) with
        (match parent p with
         | Some q => q :: parents_fuel (S fuel) q
         | None => []
         end).
      destruct p; [congruence|]. cbn [parent]. rewrite El. reflexivity.
    + constructor; [|exact Fl]. intros E. rewrite E in Hr. discriminate.
Qed.

(** The default of [soup] is the root of the document. *)
Lemma root_of_root (tag : path) : root_of tag = Ok [].
Proof.
  unfold root_of. destruct tag as [|i t]; [reflexivity|].
  cbn [parent]. unfold parents. change (length (i :: t)) with (S (length t)).
  destruct (parents_fuel_last (length t) (i :: t) eq_refl) as (l & -> & Fl).
  rewrite List.filter_app.
  replace (List.filter _ l) with (@nil path).
  - reflexivity.
  - induction Fl as [|q l Hq Fl IH]; [reflexivity|].
    simpl. destruct q; [congruence|]. exact IH.
Qed.

Lemma root_of_total (tag : path) : exists r, root_of tag = Ok r.
Proof. exists []. apply root_of_root. Qed.

(** C10.  [add] with an empty list of names returns the anchor itself and
    leaves the document as it was. *)
Theorem add_empty_list (doc : node) (tag : path) (soup : option path) :
  add doc tag (NList []) soup = Ok (doc, tag).
Proof.
  destruct soup as [r|]; [reflexivity|].
  cbn [add]. destruct (root_of_total tag) as (r & ->). reflexivity.
Qed.

End AccessFacts.

(** ** Loops *)

Section loop_facts.
Context {A S : Type}.
Implicit Types (body : S -> A -> result S) (l : list A) (s : S).

Lemma for_each_app body l1 l2 s :
  for_each body (l1 ++ l2) s = Py.bind (for_each body l1 s) (for_each body l2).
Proof.
  revert s. induction l1 as [|x l1 IH]; intros s; [reflexivity|].
  simpl. destruct (body s x) as [s'|e]; simpl; [apply IH|reflexivity].
Qed.

Lemma for_each_raises body l1 x l2 s :
  (forall s', exists e, body s' x = Raise e) ->
  exists e, for_each body (l1 ++ x :: l2) s = Raise e.
Proof.
  intros Hx. rewrite for_each_app.
  destruct (for_each body l1 s) as [s'|e]; simpl; [|eauto].
  destruct (Hx s') as (e & ->). simpl. eauto.
Qed.

Lemma for_each_ok body l s :
  Forall (fun x => forall s', exists s'', body s' x = Ok s'') l ->
  exists s', for_each body l s = Ok s'.
Proof.
  intros H. revert s. induction H as [|x l Hx Hl IH]; intros s; [eexists; reflexivity|].
  simpl. destruct (Hx s) as (s'' & ->). simpl. apply IH.
Qed.

End loop_facts.

Lemma enumerate_from_app {A} (l1 l2 : list A) (k : nat) :
  combine (seq k (length (l1 ++ l2))) (l1 ++ l2) =
  combine (seq k (length l1)) l1 ++ combine (seq (k + length l1) (length l2)) l2.
Proof.
  revert k. induction l1 as [|x l1 IH]; intros k; simpl.
  - rewrite Nat.add_0_r. reflexivity.
  - rewrite IH. replace (k + S (length l1))%nat with (S k + length l1)%nat by lia.
    reflexivity.
Qed.

Lemma enumerate_split {A} (l1 : list A) (x : A) (l2 : list A) :
  enumerate (l1 ++ x :: l2) =
  enumerate l1 ++ (length l1, x) :: combine (seq (S (length l1)) (length l2)) l2.
Proof. unfold enumerate. rewrite enumerate_from_app. reflexivity. Qed.

Lemma Forall_enumerate {A} (P : A -> Prop) (l : list A) :
  Forall P l -> Forall (fun ix => P (snd ix)) (enumerate l).
Proof.
  unfold enumerate. generalize 0%nat. intros k H. revert k.
  induction H as [|x l Hx Hl IH]; intros k; simpl; constructor; auto.
Qed.

(** ** The spatial index *)

Module SpatialFacts.
Import Access Spatial.

Section collaborators.
Variable float : Type.
Variable parse_float : string -> option float.
Variable get_cell get_cells_1d get_cells_2d : points float -> Z -> kwargs -> gset cell.

Local Abbreviation _spatial_index :=
  (_spatial_index float parse_float get_cell get_cells_1d get_cells_2d).
Local Abbreviation spatial_index :=
  (spatial_index float parse_float get_cell get_cells_1d get_cells_2d).
Local Abbreviation _spdx_pg :=
  (_spdx_pg float parse_float get_cell get_cells_1d get_cells_2d).
Local Abbreviation hole_step :=
  (hole_step float parse_float get_cell get_cells_1d get_cells_2d).
Local Abbreviation coordinates_of := (coordinates_of float parse_float).
Local Abbreviation hole_rim := (hole_rim float get_cells_1d).
Local Abbreviation hole_fill := (hole_fill float get_cells_1d get_cells_2d).
Local Abbreviation carved := (carved float get_cells_1d get_cells_2d).

Lemma _spatial_index_no_geometry (pm : node) (scale : Z) :
  Forall (fun nm => find (named nm) pm = None)
    ["Point"; "LineString"; "Polygon"; "MultiGeometry"] ->
  _spatial_index pm scale = Raise (ValueError no_geometry_message).
Proof.
  intros H. inversion_clear H as [|? ? Hpt H1]. inversion_clear H1 as [|? ? Hls H2].
  inversion_clear H2 as [|? ? Hpg H3]. inversion_clear H3 as [|? ? Hmg _].
  unfold Spatial._spatial_index, _TAG_TO_FUNCTION. cbn [omap list_omap].
  rewrite Hpt, Hls, Hpg, Hmg. reflexivity.
Qed.

(** C8.  When some placemark has none of the four geometries below it,
    [spatial_index] returns no index: the call raises.  When the
    placemarks before the first such one are all indexed without an
    exception, what is raised is the [ValueError] of [_spatial_index] for
    that placemark. *)
Theorem spatial_index_no_geometry (soup : node) (scale : Z)
    (before : list node) (pm : node) (after : list node) :
  find_all (named "Placemark") soup = before ++ pm :: after ->
  Forall (fun nm => find (named nm) pm = None)
    ["Point"; "LineString"; "Polygon"; "MultiGeometry"] ->
  (exists e, spatial_index soup scale = Raise e) /\
  (Forall (fun p => is_ok (_spatial_index p scale) = true) before ->
   spatial_index soup scale = Raise (ValueError no_geometry_message)).
Proof.
  intros Hpms Hpm. pose proof (_spatial_index_no_geometry pm scale Hpm) as Hraise.
  unfold Spatial.spatial_index. rewrite Hpms, enumerate_split. split.
  - apply for_each_raises. intros index. cbn beta iota. rewrite Hraise. eauto.
  - intros Hbefore. rewrite for_each_app.
    match goal with
    | |- Py.bind (for_each ?b ?l ?s) _ = _ =>
        destruct (for_each_ok b l s) as (index & ->)
    end.
    + eapply Forall_impl; [apply (Forall_enumerate _ _ Hbefore)|].
      intros [i p] Hp index. cbn in Hp |- *.
      destruct (_spatial_index p scale); [eauto|discriminate].
    + cbn [Py.bind for_each]. rewrite Hraise. reflexivity.
Qed.

Lemma hole_step_eq (scale : Z) (cells : gset cell) (ibi : node) :
  hole_step scale cells ibi =
  Py.bind (coordinates_of ibi)
    (fun inner =>
       Ok (cells ∖ (hole_fill scale inner ∖ hole_rim scale inner))).
Proof. reflexivity. Qed.

Lemma holes_loop (scale : Z) (ibis : list node) (holes : list (list (list float)))
    (cells : gset cell) :
  comprehension coordinates_of ibis = Ok holes ->
  for_each (hole_step scale) ibis cells =
  Ok (fold_left (fun acc h => acc ∖ (hole_fill scale h ∖ hole_rim scale h))
        holes cells).
Proof.
  revert holes cells. induction ibis as [|ibi r IH]; intros holes cells.
  - intros [= <-]. reflexivity.
  - cbn [comprehension for_each]. rewrite hole_step_eq.
    destruct (coordinates_of ibi) as [inner|e]; [|discriminate].
    cbn [Py.bind].
    destruct (comprehension coordinates_of r) as [hs|e] eqn:E; [|discriminate].
    intros [= <-]. rewrite (IH hs _ eq_refl). reflexivity.
Qed.

Lemma elem_of_holes_fold (rim fill : list (list float) -> gset cell)
    (holes : list (list (list float))) (cells : gset cell) (c : cell) :
  c ∈ fold_left (fun acc h => acc ∖ (fill h ∖ rim h)) holes cells <->
  c ∈ cells /\ Forall (fun h => c ∈ fill h -> c ∈ rim h) holes.
Proof.
  revert cells. induction holes as [|h r IH]; intros cells; cbn [fold_left].
  - split; [intros H; split; [exact H|constructor]|intros [H _]; exact H].
  - rewrite IH, Forall_cons, elem_of_difference, elem_of_difference.
    split.
    + intros [[Hc Hn] Hr]. split; [exact Hc|]. split; [|exact Hr].
      intros Hf. destruct (decide (c ∈ rim h)) as [Hrim|Hrim]; [exact Hrim|].
      exfalso. apply Hn. split; assumption.
    + intros [Hc [Hh Hr]]. split; [|exact Hr]. split; [exact Hc|].
      intros [Hf Hn]. apply Hn, Hh, Hf.
Qed.

(** [_spdx_mg] as it is written: the loop of line 393 over
    [mg(list(_TAG_TO_FUNCTION))] with the body of line 394. *)
Lemma mg_step_eq (scale : Z) (cells : gset cell) (geom : node) :
  (if named "MultiGeometry" geom
   then found ← mg_loop float parse_float get_cell get_cells_1d get_cells_2d scale geom ∅;
        Ok (cells ∪ found)
   else if named "Polygon" geom
   then found ← _spdx_pg geom scale; Ok (cells ∪ found)
   else if named "LineString" geom
   then found ← _spdx_ls float parse_float get_cell get_cells_1d get_cells_2d geom scale;
        Ok (cells ∪ found)
   else if named "Point" geom
   then found ← _spdx_pt float parse_float get_cell get_cells_1d get_cells_2d geom scale;
        Ok (cells ∪ found)
   else Ok cells) =
  if named_in (geometry_names float parse_float get_cell get_cells_1d get_cells_2d) geom
  then mg_body float parse_float get_cell get_cells_1d get_cells_2d scale cells geom
  else Ok cells.
Proof.
  destruct geom as [k s|p nm a cs]; [reflexivity|].
  unfold named_in, geometry_names, mg_body, tag_function, _TAG_TO_FUNCTION.
  cbn [List.map fst snd existsb named tag_name or_raise List.filter mbind result_bind Py.bind].
  rewrite !(String.eqb_sym _ nm).
  destruct (String.eqb nm "MultiGeometry") eqn:E1.
  { apply String.eqb_eq in E1 as ->. reflexivity. }
  destruct (String.eqb nm "Polygon") eqn:E2.
  { apply String.eqb_eq in E2 as ->. reflexivity. }
  destruct (String.eqb nm "LineString") eqn:E3.
  { apply String.eqb_eq in E3 as ->. reflexivity. }
  destruct (String.eqb nm "Point") eqn:E4.
  { apply String.eqb_eq in E4 as ->. reflexivity. }
  reflexivity.
Qed.

Lemma mg_loop_unfold (scale : Z) (n : node) :
  forall cells,
    mg_loop float parse_float get_cell get_cells_1d get_cells_2d scale n cells =
    for_each (mg_body float parse_float get_cell get_cells_1d get_cells_2d scale)
      (find_all (named_in (geometry_names float parse_float get_cell get_cells_1d
                             get_cells_2d)) n)
      cells.
Proof.
  induction n as [k s|p nm a cs IH] using node_ind_nested; intros cells; [reflexivity|].
  unfold find_all. rewrite descendants_Tag. cbn [mg_loop].
  revert cells. induction IH as [|c r Hc Hr IHr]; intros cells; [reflexivity|].
  cbn [List.map concat]. rewrite <- app_comm_cons. cbn [List.filter].
  rewrite List.filter_app.
  rewrite mg_step_eq.
  destruct (named_in _ c).
  - cbn [for_each mbind result_bind Py.bind].
    destruct (mg_body float parse_float get_cell get_cells_1d get_cells_2d scale cells c)
      as [cells1|e]; [|reflexivity].
    cbn [mbind result_bind Py.bind]. rewrite for_each_app, Hc. unfold find_all.
    destruct (for_each _ (List.filter _ (descendants c)) cells1) as [cells2|e];
      [|reflexivity].
    cbn [mbind result_bind Py.bind]. apply IHr.
  - cbn [mbind result_bind Py.bind]. rewrite for_each_app, Hc. unfold find_all.
    destruct (for_each _ (List.filter _ (descendants c)) cells) as [cells2|e];
      [|reflexivity].
    cbn [mbind result_bind Py.bind]. apply IHr.
Qed.

Lemma _spdx_mg_unfold (mg : node) (scale : Z) :
  _spdx_mg float parse_float get_cell get_cells_1d get_cells_2d mg scale =
  for_each (mg_body float parse_float get_cell get_cells_1d get_cells_2d scale)
    (find_all (named_in (geometry_names float parse_float get_cell get_cells_1d
                           get_cells_2d)) mg)
    ∅.
Proof. apply mg_loop_unfold. Qed.

(** C7, as amended.  For a Polygon whose boundaries parse, [_spdx_pg]
    returns the 2-d cells of the outer boundary from which each inner
    boundary, in document order, has taken the cells that are in its 2-d
    set and not in its 1-d set.  A cell stays exactly when it is in the
    outer set and, for every hole, is on the rim if it is in the fill; so
    the step of a hole never removes a cell of that hole's own rim, and a
    cell on the rim of one hole goes when it is in the fill of another hole
    and not on that one's rim. *)
Theorem _spdx_pg_cells (pg : node) (scale : Z) (obi : node)
    (outer : list (list float)) (holes : list (list (list float))) :
  find (named "outerBoundaryIs") pg = Some obi ->
  coordinates_of obi = Ok outer ->
  comprehension coordinates_of (find_all (named "innerBoundaryIs") pg) = Ok holes ->
  _spdx_pg pg scale = Ok (carved scale outer holes) /\
  (forall c, c ∈ carved scale outer holes <->
             c ∈ get_cells_2d (Points outer) scale None /\
             Forall (fun h => c ∈ hole_fill scale h -> c ∈ hole_rim scale h) holes) /\
  (forall earlier h later c,
      holes = earlier ++ h :: later ->
      c ∈ carved scale outer earlier -> c ∈ hole_rim scale h ->
      c ∈ carved scale outer (earlier ++ [h])).
Proof.
  intros Hobi Houter Hholes. split; [|split].
  - unfold Spatial._spdx_pg. rewrite Hobi. cbn [or_raise mbind result_bind Py.bind].
    fold coordinates_of. rewrite Houter. cbn [Py.bind _cells].
    apply holes_loop, Hholes.
  - intros c. apply elem_of_holes_fold.
  - intros earlier h later c _ Hc Hr. unfold Spatial.carved. rewrite fold_left_app.
    cbn [fold_left]. apply elem_of_difference. split; [exact Hc|].
    intros Hd. apply elem_of_difference in Hd as [_ Hn]. apply Hn, Hr.
Qed.

End collaborators.

Import Double.

Lemma _spdx_pg_cells_witness :
  let obi := ring "outerBoundaryIs" "0,0 4,0 4,4 0,4 0,0" in
  let outer := [[0; 0]; [4; 0]; [4; 4]; [0; 4]; [0; 0]]%Z in
  let holes := [[[1; 1]; [3; 1]; [3; 3]; [1; 3]; [1; 1]]]%Z in
  let rim := hole_rim Z get_cells_1d 3 in
  let inside := hole_fill Z get_cells_1d get_cells_2d 3 in
  let cut := carved Z get_cells_1d get_cells_2d 3 outer in
  find (named "outerBoundaryIs") square_with_hole = Some obi /\
  coordinates_of Z parse_float obi = Ok outer /\
  comprehension (coordinates_of Z parse_float)
    (find_all (named "innerBoundaryIs") square_with_hole) = Ok holes /\
  (_spdx_pg Z parse_float get_cell get_cells_1d get_cells_2d square_with_hole 3
   = Ok (cut holes) /\
   (forall c, c ∈ cut holes <->
              c ∈ get_cells_2d (Points outer) 3 None /\
              Forall (fun h => c ∈ inside h -> c ∈ rim h) holes) /\
   (forall earlier h later c,
       holes = earlier ++ h :: later ->
       c ∈ cut earlier -> c ∈ rim h -> c ∈ cut (earlier ++ [h]))).
Proof.
  cbv zeta. split; [reflexivity|]. split; [reflexivity|]. split; [reflexivity|].
  apply (_spdx_pg_cells Z parse_float get_cell get_cells_1d get_cells_2d
           square_with_hole 3 (ring "outerBoundaryIs" "0,0 4,0 4,4 0,4 0,0"));
    reflexivity.
Defined.

(** C7, as stated, fails in its last clause.  The square from (0,0) to
    (8,8) has two holes that overlap.  The cell (4,4) is in the fill of the
    outer boundary and on the rim of the first hole, whose step keeps it;
    it is in the fill of the second hole and not on its rim, and the step
    of the second hole removes it. *)
Lemma rim_cell_removed_by_later_hole :
  let outer := [[0; 0]; [8; 0]; [8; 8]; [0; 8]; [0; 0]]%Z in
  let first := [[1; 1]; [4; 1]; [4; 4]; [1; 4]; [1; 1]]%Z in
  let second := [[3; 3]; [6; 3]; [6; 6]; [3; 6]; [3; 3]]%Z in
  comprehension (coordinates_of Z parse_float)
    (find_all (named "innerBoundaryIs") square_with_two_holes) = Ok [first; second] /\
  (4, 4)%Z ∈ get_cells_2d (Points outer) 3 None /\
  (4, 4)%Z ∈ hole_rim Z get_cells_1d 3 first /\
  (4, 4)%Z ∈ carved Z get_cells_1d get_cells_2d 3 outer [first] /\
  exists cells,
    _spdx_pg Z parse_float get_cell get_cells_1d get_cells_2d square_with_two_holes 3
    = Ok cells /\
    (4, 4)%Z ∉ cells.
Proof.
  cbv zeta. split; [reflexivity|].
  split; [apply (bool_decide_unpack _); vm_compute; exact I|].
  split; [apply (bool_decide_unpack _); vm_compute; exact I|].
  split; [apply (bool_decide_unpack _); vm_compute; exact I|].
  eexists. split; [vm_compute; reflexivity|].
  intros H. apply (bool_decide_pack _) in H. vm_compute in H. exact H.
Qed.

(** The square with the hole of the double: the middle cell is gone and
    the cells of the hole's rim are there. *)
Example square_with_hole_cells :
  _spdx_pg Z parse_float get_cell get_cells_1d get_cells_2d square_with_hole 3
  = Ok (list_to_set
          (List.filter (fun c => negb (bool_decide (c = (2, 2)%Z)))
             (box [[0; 0]; [4; 4]]%Z))).
Proof. vm_compute. reflexivity. Qed.

Lemma spatial_index_no_geometry_witness :
  find_all (named "Placemark") two_placemarks = [point_placemark] ++ empty_placemark :: [] /\
  Forall (fun nm => find (named nm) empty_placemark = None)
    ["Point"; "LineString"; "Polygon"; "MultiGeometry"] /\
  Forall (fun p =>
            is_ok (_spatial_index Z parse_float get_cell get_cells_1d get_cells_2d p 16)
            = true) [point_placemark] /\
  (exists e,
      spatial_index Z parse_float get_cell get_cells_1d get_cells_2d two_placemarks 16
      = Raise e) /\
  spatial_index Z parse_float get_cell get_cells_1d get_cells_2d two_placemarks 16
  = Raise (ValueError no_geometry_message).
Proof.
  assert (Hbefore :
            Forall (fun p =>
                      is_ok (_spatial_index Z parse_float get_cell get_cells_1d
                               get_cells_2d p 16) = true) [point_placemark])
    by (repeat constructor).
  split; [reflexivity|]. split; [repeat constructor|]. split; [exact Hbefore|].
  destruct (spatial_index_no_geometry Z parse_float get_cell get_cells_1d get_cells_2d
              two_placemarks 16 [point_placemark] empty_placemark [])
    as [Hraise Hvalue]; [reflexivity|repeat constructor|].
  split; [exact Hraise|exact (Hvalue Hbefore)].
Defined.

End SpatialFacts.

(** ** [spatial_index_stats] *)

Module StatsFacts.
Import Spatial.

Lemma fold_min_spec (r : list Z) (x : Z) :
  In (fold_left Z.min r x) (x :: r) /\ Forall (fun y => (fold_left Z.min r x <= y)%Z) (x :: r).
Proof.
  revert x. induction r as [|y r IH]; intros x; cbn [fold_left].
  - split; [left; reflexivity|]. constructor; [lia|constructor].
  - destruct (IH (Z.min x y)) as [Hin Hall]. split.
    + destruct Hin as [E|Hin]; [|right; right; exact Hin].
      rewrite <- E. destruct (Z.min_spec x y) as [[_ ->]|[_ ->]]; [left|right; left]; reflexivity.
    + inversion_clear Hall as [|? ? Hm Hr]. constructor; [lia|]. constructor; [lia|exact Hr].
Qed.

Lemma fold_max_spec (r : list Z) (x : Z) :
  In (fold_left Z.max r x) (x :: r) /\ Forall (fun y => (y <= fold_left Z.max r x)%Z) (x :: r).
Proof.
  revert x. induction r as [|y r IH]; intros x; cbn [fold_left].
  - split; [left; reflexivity|]. constructor; [lia|constructor].
  - destruct (IH (Z.max x y)) as [Hin Hall]. split.
    + destruct Hin as [E|Hin]; [|right; right; exact Hin].
      rewrite <- E. destruct (Z.max_spec x y) as [[_ ->]|[_ ->]]; [right; left|left]; reflexivity.
    + inversion_clear Hall as [|? ? Hm Hr]. constructor; [lia|]. constructor; [lia|exact Hr].
Qed.

Lemma sum_Q_acc_nonneg (l : list Q) (a : Q) :
  (0 <= a)%Q -> Forall (fun q => (0 <= q)%Q) l -> (0 <= fold_left Qplus l a)%Q.
Proof.
  intros Ha H. revert a Ha. induction H as [|q l Hq Hl IH]; intros a Ha; [exact Ha|].
  cbn [fold_left]. apply IH.
  change 0%Q with (0 + 0)%Q. apply Qplus_le_compat; assumption.
Qed.

Lemma square_nonneg (q : Q) : (0 <= q * q)%Q.
Proof.
  destruct (Qlt_le_dec q 0) as [H|H].
  - assert (E : (q * q == (- q) * (- q))%Q) by ring. rewrite E.
    apply Qmult_le_0_compat; apply (Qopp_le_compat q 0), Qlt_le_weak, H.
  - apply Qmult_le_0_compat; exact H.
Qed.

Lemma Q2R_zero : Q2R 0 = 0%R.
Proof. unfold Q2R. cbn [Qnum Qden]. rewrite Rmult_0_l. reflexivity. Qed.

Lemma length_sorted_Z (l : list Z) : length (sorted_Z l) = length l.
Proof. apply Permutation_length, merge_sort_Permutation. Qed.

Lemma sorted_pair (a b : Z) : (a < b)%Z -> sorted_Z (elements ({[a; b]} : gset Z)) = [a; b].
Proof.
  intros Hab. apply (Sorted_unique Z.le).
  - apply Sorted_merge_sort, _.
  - repeat constructor. lia.
  - unfold sorted_Z. rewrite merge_sort_Permutation.
    rewrite elements_union_singleton by set_solver by lia.
    rewrite elements_singleton. reflexivity.
Qed.

Lemma Sorted_nth_le (s : list Z) (i j : nat) (a b : Z) :
  Sorted Z.le s -> (i <= j)%nat -> nth_error s i = Some a -> nth_error s j = Some b ->
  (a <= b)%Z.
Proof.
  intros Hs%Sorted_StronglySorted; [|apply _]. revert i j.
  induction Hs as [|x s Hs IH Hx]; intros i j Hij Hi Hj; [destruct i; discriminate|].
  destruct i as [|i], j as [|j]; cbn in Hi, Hj.
  - injection Hi as <-. injection Hj as <-. lia.
  - injection Hi as <-. rewrite Forall_forall in Hx. apply Hx.
    apply list_elem_of_In. eapply nth_error_In, Hj.
  - lia.
  - apply (IH i j); [lia|assumption..].
Qed.

Lemma slice_two (s : list Z) (lo : nat) (a b : Z) :
  nth_error s lo = Some a -> nth_error s (S lo) = Some b ->
  slice s lo (S (S lo)) = [a; b].
Proof.
  unfold slice. replace (S (S lo) - lo)%nat with 2%nat by lia.
  revert lo. induction s as [|x s IH]; intros lo Ha Hb; [destruct lo; discriminate|].
  destruct lo as [|lo]; cbn in Ha, Hb |- *.
  - injection Ha as ->. destruct s as [|y s]; [discriminate|].
    cbn in Hb. injection Hb as ->. reflexivity.
  - apply IH; assumption.
Qed.

Lemma nth_error_sorted_Z (stats : list Z) (i : nat) :
  (i < length stats)%nat -> exists m, nth_error (sorted_Z stats) i = Some m.
Proof.
  intros H. destruct (nth_error (sorted_Z stats) i) as [m|] eqn:E; [eauto|].
  apply nth_error_None in E. rewrite length_sorted_Z in E. lia.
Qed.

Lemma median_odd (stats : list Z) :
  Nat.odd (length stats) = true ->
  exists m, nth_error (sorted_Z stats) (length stats / 2) = Some m /\
            median_of stats = Ok (MedInt m).
Proof.
  intros Hodd. apply Nat.odd_spec in Hodd as [k Hk].
  assert (Hdiv : (length stats / 2 = k)%nat).
  { symmetry. apply (Nat.div_unique _ 2 k 1); lia. }
  destruct (nth_error_sorted_Z stats k) as (m & Hm); [lia|].
  exists m. rewrite Hdiv. split; [exact Hm|].
  unfold median_of.
  replace (Z.of_nat (length stats) - 1)%Z with (Z.of_nat k * 2)%Z by lia.
  rewrite Z_mod_mult. cbn [Z.eqb]. rewrite Z.div_mul by lia. rewrite Nat2Z.id, Hm.
  reflexivity.
Qed.

Lemma median_even (stats : list Z) :
  stats <> [] -> Nat.even (length stats) = true ->
  exists a b,
    nth_error (sorted_Z stats) (length stats / 2 - 1) = Some a /\
    nth_error (sorted_Z stats) (length stats / 2) = Some b /\
    (a <= b)%Z /\
    median_of stats = Ok (if (a =? b)%Z then MedInt a else MedList [a; b]).
Proof.
  intros Hne Heven. apply Nat.even_spec in Heven as [k Hk].
  assert (Hpos : (1 <= k)%nat).
  { destruct stats; [congruence|]. simpl in Hk. lia. }
  assert (Hdiv : (length stats / 2 = k)%nat).
  { symmetry. apply (Nat.div_unique _ 2 k 0); lia. }
  destruct (nth_error_sorted_Z stats (k - 1)) as (a & Ha); [lia|].
  destruct (nth_error_sorted_Z stats k) as (b & Hb); [lia|].
  assert (Hab : (a <= b)%Z).
  { apply (Sorted_nth_le (sorted_Z stats) (k - 1) k); try assumption; [|lia].
    apply Sorted_merge_sort, _. }
  exists a, b. rewrite Hdiv. repeat split; try assumption.
  unfold median_of.
  replace (Z.of_nat (length stats) - 1)%Z with (1 + (Z.of_nat k - 1) * 2)%Z by lia.
  rewrite Z_mod_plus_full, Z.div_add by lia.
  change (1 mod 2)%Z with 1%Z. change (1 / 2)%Z with 0%Z. cbn [Z.eqb].
  rewrite !Z.add_0_l.
  replace (Z.to_nat (Z.of_nat k - 1)) with (k - 1)%nat by lia.
  replace (Z.to_nat (Z.of_nat k - 1 + 1 + 1)) with (S (S (k - 1))) by lia.
  rewrite (slice_two _ _ a b Ha) by (replace (S (k - 1)) with k by lia; exact Hb).
  cbn [list_to_set foldr].
  destruct (Z.eqb_spec a b) as [->|Hne'].
  - rewrite (right_id_L ∅ (∪)), (idemp_L (∪)).
    rewrite size_singleton, elements_singleton. reflexivity.
  - rewrite (right_id_L ∅ (∪)).
    rewrite size_union, !size_singleton by (apply disjoint_singleton_l, not_elem_of_singleton, Hne').
    cbn [Nat.add Nat.eqb]. rewrite sorted_pair by lia. reflexivity.
Qed.

Lemma median_total (stats : list Z) :
  stats <> [] -> exists m, median_of stats = Ok m.
Proof.
  intros Hne. destruct (Nat.odd (length stats)) eqn:E.
  - destruct (median_odd stats E) as (m & _ & ->). eauto.
  - assert (Heven : Nat.even (length stats) = true).
    { rewrite <- Nat.negb_odd, E. reflexivity. }
    destruct (median_even stats Hne Heven) as (a & b & _ & _ & _ & ->). eauto.
Qed.

Lemma inject_Z_length_nonzero {A} (x : A) (r : list A) :
  ~ (inject_Z (Z.of_nat (length (x :: r))) == 0)%Q.
Proof. unfold Qeq. cbn [Qnum Qden inject_Z length]. lia. Qed.

Lemma mean_square_deviation_nonneg (stats : list Z) (a v : Q) :
  mean_square_deviation stats a = Ok v -> (0 <= v)%Q.
Proof.
  destruct stats as [|x r]; [discriminate|]. intros [= <-].
  apply Qle_shift_div_l.
  - unfold Qlt. cbn [Qnum Qden inject_Z length]. lia.
  - rewrite Qmult_0_l. apply sum_Q_acc_nonneg; [apply Qle_refl|].
    apply Forall_forall. intros q Hq%list_elem_of_In.
    apply (in_map_iff (fun stat : Z => ((inject_Z stat - a) * (inject_Z stat - a))%Q)
             (x :: r) q) in Hq as (y & <- & _).
    apply square_nonneg.
Qed.

(** The statistics of a non-empty list of counts. *)
Lemma stats_from_spec (stats : list Z) :
  stats <> [] -> exists r, stats_from stats = Ok r /\ describes stats r.
Proof.
  intros Hne. unfold describes, stats_from.
  destruct (median_total stats Hne) as (med & Hmed).
  destruct stats as [|x l]; [congruence|].
  set (stats := x :: l) in *.
  cbn [mean py_min py_max mean_square_deviation mbind result_bind Py.bind stats].
  fold stats. rewrite Hmed. cbn [Py.bind].
  eexists. split; [reflexivity|]. cbn [data avg stdev median stat_min stat_max stat_range].
  split; [reflexivity|]. split.
  { rewrite Qmult_comm. apply Qmult_div_r, inject_Z_length_nonzero. }
  split.
  { eexists. split; [|split].
    - rewrite Qmult_comm. apply Qmult_div_r, inject_Z_length_nonzero.
    - apply sqrt_pos.
    - apply sqrt_sqrt.
      match goal with |- (0 <= Q2R ?v)%R => assert (Hv : (0 <= v)%Q) end.
      { apply (mean_square_deviation_nonneg stats
                 (inject_Z (sum_Z stats) / inject_Z (Z.of_nat (length stats)))).
        reflexivity. }
      apply Qle_Rle in Hv. rewrite Q2R_zero in Hv. exact Hv. }
  split; [apply fold_min_spec|]. split; [apply fold_max_spec|].
  split; [reflexivity|]. split.
  { split; [apply Sorted_merge_sort, _|apply merge_sort_Permutation]. }
  split.
  - intros Hodd. destruct (median_odd stats Hodd) as (m & Hm & Hmed').
    exists m. split; [exact Hm|]. congruence.
  - intros Heven. destruct (median_even stats Hne Heven) as (a & b & Ha & Hb & Hab & Hmed').
    exists a, b. repeat split; try assumption. congruence.
Qed.

(** X27.  For a non-empty index, [spatial_index_stats] returns, and of what
    it returns: [data] holds, for every cell of the index, the number of
    placemarks stored at it; [min] and [max] are the least and the greatest
    of these counts and [range] is their difference; and [median] is the
    middle one of the sorted counts when their number is odd, else the two
    middle ones, as one number when they are equal and as the list of both
    in ascending order when they are not. *)
Theorem spatial_index_stats_orders (index : gmap cell (gset nat)) :
  index <> ∅ ->
  exists r,
    spatial_index_stats index = Ok r /\
    data r ≡ₚ List.map (fun kv => Z.of_nat (size (snd kv))) (map_to_list index) /\
    order_statistics (data r) r.
Proof.
  intros Hne.
  destruct (stats_from_spec (counts index)) as (r & Hr & Hd).
  { unfold counts. intros E. apply map_eq_nil in E.
    apply map_to_list_empty_iff in E. exact (Hne E). }
  exists r. split; [exact Hr|].
  destruct Hd as (Hdata & _ & _ & Hmin & Hmax & Hrange & Hsorted & Hodd & Heven).
  rewrite Hdata. split; [reflexivity|].
  unfold order_statistics. auto 10.
Qed.

Lemma spatial_index_stats_orders_witness :
  let index : gmap cell (gset nat) :=
    <[(0, 0)%Z := {[0%nat; 1%nat]}]> (<[(0, 1)%Z := {[1%nat]}]> ∅) in
  index <> ∅ /\
  exists r,
    spatial_index_stats index = Ok r /\
    data r ≡ₚ List.map (fun kv => Z.of_nat (size (snd kv))) (map_to_list index) /\
    order_statistics (data r) r.
Proof.
  cbv zeta. split; [apply insert_non_empty|].
  apply spatial_index_stats_orders, insert_non_empty.
Defined.

End StatsFacts.


(** ** References into the tree *)

Section path_facts.
Implicit Types (n m : node) (p q : path) (f g : node -> node).

Lemma get_app n p q :
  get n (p ++ q) = match get n p with Some m => get m q | None => None end.
Proof.
  revert n. induction p as [|i p IH]; intros n; [reflexivity|].
  destruct n as [k s|pr nm a cs]; [reflexivity|]. cbn [app get].
  destruct (cs !! i); [apply IH|reflexivity].
Qed.

Lemma get_update f n p m :
  get n p = Some m -> get (update f n p) p = Some (f m).
Proof.
  revert n. induction p as [|i p IH]; intros n; cbn [get update].
  - intros [= ->]. reflexivity.
  - destruct n as [k s|pr nm a cs]; [discriminate|].
    destruct (cs !! i) as [c|] eqn:E; [|discriminate].
    intros H. cbn [get]. rewrite list_lookup_alter_eq, E. cbn. apply IH, H.
Qed.

Lemma update_update f g n p q :
  update g (update f n p) (p ++ q) = update (fun m => update g (f m) q) n p.
Proof.
  revert n. induction p as [|i p IH]; intros n; [reflexivity|].
  destruct n as [k s|pr nm a cs]; [reflexivity|]. cbn [app update]. f_equal.
  rewrite list_alter_alter_eq. apply list_alter_ext; [|reflexivity].
  intros c _. apply IH.
Qed.

Lemma update_ext f g n p :
  (forall m, get n p = Some m -> f m = g m) -> update f n p = update g n p.
Proof.
  revert n. induction p as [|i p IH]; intros n H; cbn [update].
  - apply H. reflexivity.
  - destruct n as [k s|pr nm a cs]; [reflexivity|]. f_equal.
    apply list_alter_ext; [|reflexivity]. intros c Hc. apply IH.
    intros m Hm. apply H. cbn [get]. rewrite Hc. exact Hm.
Qed.

Lemma update_get n p m : get n p = Some m -> update (fun _ => m) n p = n.
Proof.
  revert n. induction p as [|i p IH]; intros n; cbn [get update].
  - intros [= ->]. reflexivity.
  - destruct n as [k s|pr nm a cs]; [discriminate|].
    destruct (cs !! i) as [c|] eqn:E; [|discriminate].
    intros H. f_equal.
    transitivity (alter (fun x : node => x) i cs); [|apply list_alter_id; reflexivity].
    apply list_alter_ext; [|reflexivity]. intros c' Hc'.
    assert (c' = c) as -> by congruence. apply IH, H.
Qed.

(** With the element at [p] known, everything at or below [p] happens
    in that element. *)
Lemma get_focus n p q m0 m :
  get n p = Some m0 -> get (update (fun _ => m) n p) (p ++ q) = get m q.
Proof. intros H. rewrite get_app, (get_update _ _ _ _ H). reflexivity. Qed.

Lemma update_focus g n p q m :
  update g (update (fun _ => m) n p) (p ++ q) = update (fun _ => update g m q) n p.
Proof. apply update_update. Qed.

Lemma named_update nm f n q : q <> [] -> named nm (update f n q) = named nm n.
Proof.
  destruct q as [|i q]; [congruence|]. intros _.
  destruct n as [k s|pr tn a cs]; reflexivity.
Qed.

End path_facts.

(** ** Finding the first element *)

Section find_facts.
Implicit Types (n m : node) (p q d : path) (pred : node -> bool).

Lemma find_in_list_ge pred below j l d :
  find_in_list pred below j l = Some d -> exists i q, d = i :: q /\ (j <= i)%nat.
Proof.
  revert j. induction l as [|c r IH]; intros j; cbn [find_in_list]; [discriminate|].
  destruct (pred c); [intros [= <-]; eauto|].
  destruct (below c) as [q|]; [intros [= <-]; eauto|].
  intros H. destruct (IH _ H) as (i & q & -> & Hle). exists i, q. split; [reflexivity|lia].
Qed.

Lemma find_first_nonempty pred n : find_first pred n <> Some [].
Proof.
  destruct n as [k s|pr nm a cs]; cbn [find_first]; [discriminate|].
  intros H. destruct (find_in_list_ge _ _ _ _ _ H) as (i & q & E & _). discriminate.
Qed.

Lemma find_in_list_sound pred below j l i q :
  find_in_list pred below j l = Some (i :: q) ->
  exists c, l !! (i - j)%nat = Some c /\
    ((pred c = true /\ q = []) \/ (pred c = false /\ below c = Some q)).
Proof.
  revert j. induction l as [|c r IH]; intros j; cbn [find_in_list]; [discriminate|].
  destruct (pred c) eqn:Ep.
  { intros [= <- <-]. exists c. rewrite Nat.sub_diag. split; [reflexivity|]. left. auto. }
  destruct (below c) as [q'|] eqn:Eb.
  { intros [= <- <-]. exists c. rewrite Nat.sub_diag. split; [reflexivity|]. right. auto. }
  intros H. destruct (find_in_list_ge _ _ _ _ _ H) as (i' & q' & [= <- <-] & Hle).
  destruct (IH _ H) as (c' & Hc' & Hcase). exists c'. split; [|exact Hcase].
  replace (i - j)%nat with (S (i - S j)) by lia. exact Hc'.
Qed.

Lemma find_in_list_stable pred below g j l i q :
  find_in_list pred below j l = Some (i :: q) ->
  (forall c, l !! (i - j)%nat = Some c ->
             (pred c = true -> q = [] -> pred (g c) = true) /\
             (pred c = false -> below c = Some q ->
              pred (g c) = false /\ below (g c) = Some q)) ->
  find_in_list pred below j (alter g (i - j)%nat l) = Some (i :: q).
Proof.
  revert j. induction l as [|c r IH]; intros j; cbn [find_in_list]; [discriminate|].
  destruct (pred c) eqn:Ep.
  { intros [= <- <-] Hg. rewrite Nat.sub_diag in *. cbn [alter list_alter find_in_list].
    destruct (Hg c eq_refl) as [H1 _]. rewrite (H1 Ep eq_refl). reflexivity. }
  destruct (below c) as [q'|] eqn:Eb.
  { intros [= <- <-] Hg. rewrite Nat.sub_diag in *. cbn [alter list_alter find_in_list].
    destruct (Hg c eq_refl) as [_ H2]. destruct (H2 Ep Eb) as [-> ->].
    reflexivity. }
  intros H Hg. destruct (find_in_list_ge _ _ _ _ _ H) as (i' & q' & [= <- <-] & Hle).
  replace (i - j)%nat with (S (i - S j)) in * by lia.
  cbn [alter list_alter find_in_list]. rewrite Ep, Eb.
  apply IH; [exact H|]. intros c' Hc'. apply Hg. exact Hc'.
Qed.

(** The first element named [nm] is still the first after a change at
    it that leaves it so named. *)
Lemma find_first_stable nm f n d m :
  find_first (named nm) n = Some d -> get n d = Some m ->
  named nm (f m) = true ->
  find_first (named nm) (update f n d) = Some d.
Proof.
  intros Hfind Hget Hf. revert n Hfind Hget.
  induction d as [|i q IH]; intros n Hfind Hget.
  { exfalso. exact (find_first_nonempty _ _ Hfind). }
  destruct n as [k s|pr tn a cs]; [discriminate|].
  cbn [find_first update get] in *.
  rewrite <- (Nat.sub_0_r i) at 1.
  apply find_in_list_stable; [exact Hfind|]. rewrite Nat.sub_0_r.
  intros c Hc. rewrite Hc in Hget. split.
  - intros _ ->. cbn [update get] in *. injection Hget as ->. exact Hf.
  - intros Hp Hq.
    assert (Hne : q <> []) by (intros ->; exact (find_first_nonempty _ _ Hq)).
    rewrite named_update by exact Hne. split; [exact Hp|].
    apply IH; assumption.
Qed.

Lemma find_first_sound pred n d :
  find_first pred n = Some d -> exists m, get n d = Some m /\ pred m = true.
Proof.
  revert n. induction d as [|i q IH]; intros n Hfind.
  { exfalso. exact (find_first_nonempty _ _ Hfind). }
  destruct n as [k s|pr tn a cs]; [discriminate|].
  cbn [find_first get] in *.
  destruct (find_in_list_sound _ _ _ _ _ _ Hfind) as (c & Hc & Hcase).
  rewrite Nat.sub_0_r in Hc. rewrite Hc.
  destruct Hcase as [[Hp ->]|[_ Hq]]; [exists c; auto|apply IH, Hq].
Qed.

Lemma find_in_list_find pred (l : list node) :
  Forall (fun c => find pred c =
                   match find_first pred c with Some q => get c q | None => None end) l ->
  forall j,
    head (List.filter pred (concat (List.map (fun c => c :: descendants c) l))) =
    match find_in_list pred (find_first pred) j l with
    | Some (i :: q) => match l !! (i - j)%nat with Some c => get c q | None => None end
    | _ => None
    end.
Proof.
  induction 1 as [|c r Hc Hr IH]; intros j; [reflexivity|].
  cbn [List.map concat find_in_list]. rewrite <- app_comm_cons. cbn [List.filter].
  destruct (pred c) eqn:Ep.
  { rewrite Nat.sub_diag. reflexivity. }
  rewrite List.filter_app. unfold find, find_all in Hc.
  destruct (find_first pred c) as [q|] eqn:Eq.
  - rewrite Nat.sub_diag. cbn [lookup list_lookup].
    destruct (find_first_sound _ _ _ Eq) as (m & Hm & _). rewrite Hm in Hc |- *.
    destruct (List.filter pred (descendants c)); [discriminate|]. exact Hc.
  - destruct (List.filter pred (descendants c)); [|discriminate].
    cbn [app]. rewrite (IH (S j)).
    destruct (find_in_list pred (find_first pred) (S j) r) as [[|i q]|] eqn:E;
      try reflexivity.
    destruct (find_in_list_ge _ _ _ _ _ E) as (i' & q' & [= <- <-] & Hle).
    replace (i - j)%nat with (S (i - S j)) by lia. reflexivity.
Qed.

(** [find] returns the element at the reference [find_first] returns. *)
Lemma find_find_first pred n :
  find pred n = match find_first pred n with Some q => get n q | None => None end.
Proof.
  induction n as [k s|p nm a cs IH] using node_ind_nested; [reflexivity|].
  unfold find, find_all. rewrite descendants_Tag, (find_in_list_find _ _ IH 0).
  cbn [find_first].
  destruct (find_in_list pred (find_first pred) 0 cs) as [[|i q]|] eqn:E; try reflexivity.
  - exfalso. destruct (find_in_list_ge _ _ _ _ _ E) as (i & q & [=] & _).
  - rewrite Nat.sub_0_r. reflexivity.
Qed.

Lemma descendant_paths_get n :
  Forall2 (fun q (x : node) => get n q = Some x) (descendant_paths n) (descendants n).
Proof.
  induction n as [k s|p nm a cs IH] using node_ind_nested; [constructor|].
  cbn [descendant_paths descendants].
  assert (H : forall pre l, cs = pre ++ l -> Forall (fun c =>
              Forall2 (fun q (x : node) => get c q = Some x) (descendant_paths c) (descendants c)) l ->
            Forall2 (fun q (x : node) => get (Tag p nm a cs) q = Some x)
              ((fix go (i : nat) (l : list node) : list path :=
                  match l with
                  | [] => []
                  | c :: r => [i] :: List.map (cons i) (descendant_paths c) ++ go (S i) r
                  end) (length pre) l)
              ((fix go (l : list node) : list node :=
                  match l with
                  | [] => []
                  | c :: r => c :: descendants c ++ go r
                  end) l)).
  { intros pre l. revert pre. induction l as [|c r IHl]; intros pre Hcs Hl; [constructor|].
    inversion_clear Hl as [|? ? Hc Hr].
    assert (Hlook : forall q, get (Tag p nm a cs) (length pre :: q) = get c q).
    { intros q. cbn [get]. rewrite Hcs, lookup_app_r, Nat.sub_diag by lia. reflexivity. }
    constructor; [apply Hlook|].
    apply Forall2_app.
    - apply Forall2_fmap_l. eapply Forall2_impl; [exact Hc|].
      intros q x Hq. exact (eq_trans (Hlook q) Hq).
    - specialize (IHl (pre ++ [c])). rewrite length_app, Nat.add_1_r in IHl.
      apply IHl; [rewrite <- app_assoc; exact Hcs|exact Hr]. }
  apply (H [] cs eq_refl IH).
Qed.

(** The references [find_all_paths] returns point at the elements
    [find_all] returns, in the same order. *)
Lemma find_all_paths_spec pred soup :
  Forall2 (fun q (x : node) => get soup q = Some x)
    (find_all_paths pred soup []) (find_all pred soup).
Proof.
  unfold find_all_paths, find_all. cbn [get app].
  rewrite map_id. induction (descendant_paths_get soup) as [|q x qs xs Hq Hqs IH];
    [constructor|].
  cbn [List.filter]. rewrite Hq. destruct (pred x); [constructor; assumption|exact IH].
Qed.

Lemma find_path_root pred soup : find_path pred soup [] = find_first pred soup.
Proof. unfold find_path. cbn [get]. destruct (find_first pred soup); reflexivity. Qed.

End find_facts.

(** ** [apply_color] *)

Module ColorFacts.
Import Access Color ColorSpec.
Import AccessFacts.

Lemma for_each_ext {A S} (body body' : S -> A -> result S) (l : list A) (s : S) :
  Forall (fun x => forall s', body s' x = body' s' x) l ->
  for_each body l s = for_each body' l s.
Proof.
  intros H. revert s. induction H as [|x l Hx Hl IH]; intros s; [reflexivity|].
  cbn [for_each]. rewrite Hx. destruct (body' s x); [apply IH|reflexivity].
Qed.

(** Without a [soup] argument [add] takes the root of the document. *)
Lemma add_soup (name : Py.name) (doc : node) (tag : path) :
  add doc tag name None = add doc tag name (Some []).
Proof.
  destruct name as [x|l]; cbn [add]; rewrite root_of_root; reflexivity.
Qed.

(** [add] at or below a known element works in that element. *)
Lemma add_focus (name : Py.name) (soup0 : node) (doc : path) (D0 D : node) (q : path) :
  get soup0 doc = Some D0 ->
  add (update (fun _ => D) soup0 doc) (doc ++ q) name (Some []) =
  lift soup0 doc (add D q name (Some [])).
Proof.
  intros Hget. revert D q. induction name as [x|l IH] using name_ind_nested; intros D q.
  - cbn [add soup_new_tag mbind result_bind Py.bind]. rewrite (get_focus _ _ _ D0 _ Hget).
    destruct (get D q) as [[k s|pr nm a cs]|]; try reflexivity.
    cbn [lift]. rewrite update_focus, <- app_assoc. reflexivity.
  - cbn [add mbind result_bind Py.bind].
    revert D q. induction IH as [|n r Hn Hr IHr]; intros D q; [reflexivity|].
    cbn [for_each]. rewrite Hn.
    destruct (add D q n (Some [])) as [[D' q']|e]; [|reflexivity].
    cbn [lift Py.bind]. apply IHr.
Qed.

Lemma update_here (g : node -> node) (n : node) (p : path) (m : node) :
  update g (update (fun _ => m) n p) p = update (fun _ => g m) n p.
Proof.
  rewrite <- (app_nil_r p) at 2. rewrite update_focus. reflexivity.
Qed.

Ltac focus_add Hget D0 :=
  rewrite !add_soup, (add_focus _ _ _ D0 _ _ Hget);
  match goal with
  | |- context [lift _ _ ?x] => destruct x as [[? ?]|?]; [|reflexivity]
  end;
  cbn [lift mbind result_bind Py.bind]; rewrite update_focus.

Lemma create_style_at_focus colorize icons (soup0 : node) (doc : path) (D0 D : node)
    (i : string) :
  get soup0 doc = Some D0 ->
  create_style_at colorize icons doc (update (fun _ => D) soup0 doc) i =
  Py.bind (create_style_at colorize icons [] D i)
    (fun D' => Ok (update (fun _ => D') soup0 doc)).
Proof.
  intros Hget. unfold create_style_at. cbn [app].
  change (update (insert_first (new_tag "Style")) D [])
    with (insert_first (new_tag "Style") D).
  rewrite update_here, update_focus.
  destruct (lookup_last_digit colorize i) as [v|e]; [|reflexivity].
  cbn [mbind result_bind Py.bind]. focus_add Hget D0.
  focus_add Hget D0.
  destruct (lookup_last_digit icons i) as [w|e]; [|reflexivity].
  cbn [mbind result_bind Py.bind]. focus_add Hget D0. reflexivity.
Qed.

Lemma create_style_at_local colorize icons p nm a cs (i : string) :
  create_style_at colorize icons [] (Tag p nm a cs) i =
  Py.bind (styled colorize icons i) (fun e => Ok (Tag p nm a (e :: cs))).
Proof.
  unfold create_style_at, styled.
  destruct (lookup_last_digit colorize i) as [v|e]; [|reflexivity].
  destruct (lookup_last_digit icons i) as [w|e]; reflexivity.
Qed.

(** *** The order of [sorted] on strings *)

Lemma nat_of_ascii_inj (c d : ascii) : nat_of_ascii c = nat_of_ascii d -> c = d.
Proof.
  intros H. rewrite <- (ascii_nat_embedding c), <- (ascii_nat_embedding d), H.
  reflexivity.
Qed.

#[export] Instance str_le_total : Total str_le.
Proof.
  unfold Total, str_le. intros s. induction s as [|c s IH]; intros t; [left; reflexivity|].
  destruct t as [|d t]; [right; reflexivity|]. cbn [str_leb].
  destruct (Nat.ltb_spec (nat_of_ascii c) (nat_of_ascii d)) as [H1|H1]; [left; reflexivity|].
  destruct (Nat.ltb_spec (nat_of_ascii d) (nat_of_ascii c)) as [H2|H2]; [right; reflexivity|].
  apply IH.
Qed.

#[export] Instance str_le_trans : Transitive str_le.
Proof.
  unfold Transitive, str_le. intros s. induction s as [|c s IH]; intros t u; [reflexivity|].
  destruct t as [|d t]; [discriminate|]. destruct u as [|e u]; [intros _; discriminate|].
  cbn [str_leb].
  destruct (Nat.ltb_spec (nat_of_ascii c) (nat_of_ascii d)) as [H1|H1];
  destruct (Nat.ltb_spec (nat_of_ascii d) (nat_of_ascii c)) as [H2|H2];
  destruct (Nat.ltb_spec (nat_of_ascii d) (nat_of_ascii e)) as [H3|H3];
  destruct (Nat.ltb_spec (nat_of_ascii e) (nat_of_ascii d)) as [H4|H4];
  destruct (Nat.ltb_spec (nat_of_ascii c) (nat_of_ascii e)) as [H5|H5];
  destruct (Nat.ltb_spec (nat_of_ascii e) (nat_of_ascii c)) as [H6|H6];
  try reflexivity; try discriminate; try lia.
  apply IH.
Qed.

#[export] Instance str_le_antisym : AntiSymm (=) str_le.
Proof.
  unfold AntiSymm, str_le. intros s. induction s as [|c s IH]; intros t.
  - destruct t; [reflexivity|discriminate].
  - destruct t as [|d t]; [discriminate|]. cbn [str_leb].
    destruct (Nat.ltb_spec (nat_of_ascii c) (nat_of_ascii d)) as [H1|H1];
    destruct (Nat.ltb_spec (nat_of_ascii d) (nat_of_ascii c)) as [H2|H2];
    try discriminate; try lia.
    intros Hs Ht. f_equal; [apply nat_of_ascii_inj; lia|apply IH; assumption].
Qed.

Lemma sorted_Sorted (ids : gset string) : Sorted str_le (sorted ids).
Proof. apply Sorted_merge_sort, _. Qed.

Lemma sorted_elem_of (ids : gset string) (i : string) : i ∈ sorted ids <-> i ∈ ids.
Proof. unfold sorted. rewrite merge_sort_Permutation. apply elem_of_elements. Qed.

Lemma sorted_NoDup (ids : gset string) : NoDup (sorted ids).
Proof. unfold sorted. rewrite merge_sort_Permutation. apply NoDup_elements. Qed.

(** *** The loop that creates the styles *)

Lemma create_style_spec colorize icons (soup : node) (doc : path) p nm a cs (i : string) :
  find_path (named "Document") soup [] = Some doc ->
  get soup doc = Some (Tag p nm a cs) ->
  create_style colorize icons soup i =
  Py.bind (styled colorize icons i)
    (fun e => Ok (update (fun _ => Tag p nm a (e :: cs)) soup doc)).
Proof.
  intros Hfind Hget. unfold create_style. rewrite Hfind. cbn [or_raise mbind result_bind Py.bind].
  rewrite <- (update_get soup doc _ Hget) at 1.
  rewrite (create_style_at_focus _ _ _ _ _ _ _ Hget), create_style_at_local.
  destruct (styled colorize icons i); reflexivity.
Qed.

Lemma find_Document_stable (soup : node) (doc : path) p nm a cs cs' :
  find_path (named "Document") soup [] = Some doc ->
  get soup doc = Some (Tag p nm a cs) ->
  find_path (named "Document") (update (fun _ => Tag p nm a cs') soup doc) [] = Some doc.
Proof.
  rewrite !find_path_root. intros Hfind Hget.
  apply (find_first_stable _ _ _ _ _ Hfind Hget).
  destruct (find_first_sound _ _ _ Hfind) as (m & Hm & Hnamed).
  rewrite Hget in Hm. injection Hm as <-. exact Hnamed.
Qed.

Lemma create_styles_loop colorize icons (l : list string) :
  forall (soup : node) (doc : path) p nm a cs es,
    find_path (named "Document") soup [] = Some doc ->
    get soup doc = Some (Tag p nm a cs) ->
    comprehension (styled colorize icons) l = Ok es ->
    for_each (create_style colorize icons) l soup =
    Ok (update (fun _ => Tag p nm a (rev es ++ cs)) soup doc).
Proof.
  induction l as [|i r IH]; intros soup doc p nm a cs es Hfind Hget Hes.
  - injection Hes as <-. cbn [for_each rev app]. rewrite (update_get _ _ _ Hget). reflexivity.
  - cbn [comprehension] in Hes.
    destruct (styled colorize icons i) as [e|] eqn:Ee; [|discriminate].
    cbn [Py.bind] in Hes.
    destruct (comprehension (styled colorize icons) r) as [es'|] eqn:Er; [|discriminate].
    injection Hes as <-.
    cbn [for_each]. rewrite (create_style_spec _ _ _ _ _ _ _ _ _ Hfind Hget), Ee.
    cbn [Py.bind].
    rewrite (IH _ doc p nm a (e :: cs) es'
               (find_Document_stable _ _ _ _ _ _ _ Hfind Hget)
               (get_update _ _ _ _ Hget) eq_refl).
    rewrite update_here. cbn [rev]. rewrite <- app_assoc. reflexivity.
Qed.

(** *** The ids the first loop collects *)

Lemma style_placemark_ids coloring (soup : node) (ids : gset string) (i : nat) (pm : path)
    (soup' : node) (ids' : gset string) :
  style_placemark coloring (soup, ids) (i, pm) = Ok (soup', ids') ->
  exists c, coloring !! i = Some c /\ ids' = {[ style_id c ]} ∪ ids.
Proof.
  unfold style_placemark. destruct (coloring !! i) as [c|]; [|discriminate].
  cbn [or_raise mbind result_bind Py.bind].
  destruct (match find_path (named "styleUrl") soup pm with
            | Some t => Ok (soup, t)
            | None => add soup pm (NStr "styleUrl") None
            end) as [[s1 t]|e]; [|discriminate].
  cbn [Py.bind]. intros [= _ <-]. exists c. split; reflexivity.
Qed.

Lemma urls_loop_ids coloring (l : list (nat * path)) :
  forall (soup : node) (ids : gset string) soup' ids',
    for_each (style_placemark coloring) l (soup, ids) = Ok (soup', ids') ->
    ids' = list_to_set (style_id <$> omap (fun i => coloring !! i) (fst <$> l)) ∪ ids.
Proof.
  induction l as [|[i pm] r IH]; intros soup ids soup' ids'.
  - intros [= _ <-]. cbn. set_solver.
  - cbn [for_each].
    destruct (style_placemark coloring (soup, ids) (i, pm)) as [[s1 ids1]|e] eqn:E;
      [|discriminate].
    cbn [Py.bind]. intros H. apply IH in H.
    apply style_placemark_ids in E as (c & Hc & ->).
    rewrite H. cbn [fmap list_fmap omap list_omap fst]. rewrite Hc.
    cbn [fmap list_fmap list_to_set]. set_solver.
Qed.

Lemma fst_enumerate {A} (l : list A) : fst <$> enumerate l = seq 0 (length l).
Proof.
  unfold enumerate. generalize 0%nat. induction l as [|x l IH]; intros k; [reflexivity|].
  cbn. rewrite IH. reflexivity.
Qed.

Lemma apply_urls_ids (soup : node) coloring soup1 (ids : gset string) :
  apply_urls soup coloring = Ok (soup1, ids) ->
  ids = list_to_set
          (style_id <$> colors_used coloring
                          (length (find_all_paths (named "Placemark") soup []))).
Proof.
  unfold apply_urls, colors_used. intros H%urls_loop_ids.
  rewrite fst_enumerate in H. rewrite H. set_solver.
Qed.

(** *** Ids of one digit: the order of the strings is that of the numbers *)

Lemma small_cases (c : N) :
  (c < 10)%N ->
  c = 0%N \/ c = 1%N \/ c = 2%N \/ c = 3%N \/ c = 4%N \/
  c = 5%N \/ c = 6%N \/ c = 7%N \/ c = 8%N \/ c = 9%N.
Proof. lia. Qed.

Ltac small c H :=
  apply small_cases in H;
  destruct H as [->|[->|[->|[->|[->|[->|[->|[->|[->| ->]]]]]]]]].

Lemma style_id_mono (x y : N) :
  (x < 10)%N -> (y < 10)%N -> (x <= y)%N -> str_le (style_id x) (style_id y).
Proof.
  intros Hx Hy Hle. small x Hx; small y Hy; try lia; reflexivity.
Qed.

Lemma style_id_inj_small (x y : N) :
  (x < 10)%N -> (y < 10)%N -> style_id x = style_id y -> x = y.
Proof.
  intros Hx Hy. small x Hx; small y Hy; intros E; try reflexivity; discriminate E.
Qed.

Lemma Sorted_style_ids (l : list N) :
  Forall (fun c => (c < 10)%N) l -> Sorted N.le l -> Sorted str_le (style_id <$> l).
Proof.
  intros Hsmall Hs. apply Sorted_StronglySorted in Hs; [|apply _].
  apply StronglySorted_Sorted.
  induction Hs as [|x l Hl IH Hx]; [constructor|].
  inversion_clear Hsmall as [|? ? Hx10 Hl10]. cbn [fmap list_fmap].
  constructor; [apply IH, Hl10|].
  apply Forall_fmap, Forall_forall. intros y Hy.
  rewrite Forall_forall in Hx, Hl10. apply style_id_mono; auto.
Qed.

Lemma sorted_small_colors (colors : list N) :
  Forall (fun c => (c < 10)%N) colors ->
  sorted (list_to_set (style_id <$> colors)) = style_id <$> sorted_N (list_to_set colors).
Proof.
  intros Hsmall.
  assert (Hin : forall c, c ∈ sorted_N (list_to_set colors) <-> c ∈ colors).
  { intros c. unfold sorted_N. rewrite merge_sort_Permutation, elem_of_elements.
    apply elem_of_list_to_set. }
  assert (Hsmall' : Forall (fun c => (c < 10)%N) (sorted_N (list_to_set colors))).
  { apply Forall_forall. intros c Hc%Hin. rewrite Forall_forall in Hsmall. auto. }
  apply (Sorted_unique str_le).
  - apply sorted_Sorted.
  - apply Sorted_style_ids; [exact Hsmall'|]. apply Sorted_merge_sort, _.
  - apply NoDup_Permutation.
    + apply sorted_NoDup.
    + apply NoDup_fmap_2_strong.
      * intros x y Hx Hy. rewrite Forall_forall in Hsmall'.
        apply style_id_inj_small; auto.
      * unfold sorted_N. rewrite merge_sort_Permutation. apply NoDup_elements.
    + intros i. rewrite sorted_elem_of, elem_of_list_to_set, !list_elem_of_fmap.
      split; intros (c & -> & Hc); exists c; (split; [reflexivity|apply Hin, Hc]).
Qed.

(** *** [int(i[-1])] is the last decimal digit of the color number *)

Lemma last_char_cons (c : ascii) (s : string) :
  s <> EmptyString -> last_char (String c s) = last_char s.
Proof. destruct s; [congruence|reflexivity]. Qed.

Lemma last_char_append (s t : string) :
  t <> EmptyString -> last_char (String.append s t) = last_char t.
Proof.
  intros Ht. induction s as [|c s IH]; [reflexivity|].
  change (String.append (String c s) t) with (String c (String.append s t)).
  rewrite last_char_cons; [exact IH|].
  destruct s; [exact Ht|discriminate].
Qed.

Lemma string_of_uint_nonempty (d : Decimal.uint) :
  d <> Decimal.Nil -> NilEmpty.string_of_uint d <> EmptyString.
Proof. destruct d; [congruence|discriminate..]. Qed.

Lemma last_char_revapp (d acc : Decimal.uint) :
  acc <> Decimal.Nil ->
  last_char (NilEmpty.string_of_uint (Decimal.revapp d acc)) =
  last_char (NilEmpty.string_of_uint acc).
Proof.
  revert acc. induction d as [|d IH|d IH|d IH|d IH|d IH|d IH|d IH|d IH|d IH|d IH];
    intros acc Hacc; [reflexivity|..];
    cbn [Decimal.revapp]; rewrite IH by discriminate;
    cbn [NilEmpty.string_of_uint]; apply last_char_cons, string_of_uint_nonempty, Hacc.
Qed.

Lemma of_lu_to_lu (n : N) :
  DecimalPos.Unsigned.of_lu (DecimalPos.Unsigned.to_lu n) = n.
Proof.
  destruct n as [|p]; [reflexivity|]. cbn [DecimalPos.Unsigned.to_lu].
  induction p as [p IH|p IH|]; cbn [Pos.to_little_uint]; [| |reflexivity].
  - rewrite DecimalPos.Unsigned.of_lu_succ_double, IH. reflexivity.
  - rewrite DecimalPos.Unsigned.of_lu_double, IH. reflexivity.
Qed.

Lemma to_uint_rev (n : N) : N.to_uint n = Decimal.rev (DecimalPos.Unsigned.to_lu n).
Proof. destruct n; reflexivity. Qed.

Lemma last_digit_of_lu (d : Decimal.uint) :
  d <> Decimal.Nil ->
  Py.bind (or_raise (last_char (NilEmpty.string_of_uint (Decimal.rev d))) IndexError)
    int_of_char
  = Ok (DecimalPos.Unsigned.of_lu d mod 10)%N.
Proof.
  intros Hd. unfold Decimal.rev.
  assert (Hmod : forall k q : N, (k < 10)%N -> ((k + 10 * q) mod 10 = k)%N).
  { intros k q Hk. rewrite (N.mul_comm 10 q), N.Div0.mod_add.
    apply N.mod_small, Hk. }
  destruct d; [congruence|..]; cbn [Decimal.revapp];
    rewrite last_char_revapp by discriminate;
    cbn [NilEmpty.string_of_uint last_char or_raise Py.bind DecimalPos.Unsigned.of_lu];
    [rewrite <- (N.add_0_l (10 * _))|..]; rewrite Hmod by lia; reflexivity.
Qed.

(** The table entry a style gets is that of the last digit of its
    color number. *)
Lemma lookup_last_digit_style_id (table : gmap N string) (c : N) :
  lookup_last_digit table (style_id c) = or_raise (table !! (c mod 10)%N) KeyError.
Proof.
  unfold lookup_last_digit, style_id, repr.
  assert (Hne : DecimalPos.Unsigned.to_lu c <> Decimal.Nil).
  { intros E. pose proof (of_lu_to_lu c) as H. rewrite E in H. cbn in H. subst c.
    discriminate E. }
  assert (Hne' : N.to_uint c <> Decimal.Nil).
  { rewrite to_uint_rev. intros E%DecimalFacts.rev_nil_inv. exact (Hne E). }
  assert (Hs : NilZero.string_of_uint (N.to_uint c) = NilEmpty.string_of_uint (N.to_uint c)).
  { destruct (N.to_uint c); [congruence|reflexivity..]. }
  rewrite Hs, last_char_append by (apply string_of_uint_nonempty, Hne').
  rewrite to_uint_rev.
  pose proof (last_digit_of_lu _ Hne) as H. rewrite of_lu_to_lu in H.
  destruct (last_char _) as [ch|]; [|discriminate H].
  cbn [or_raise mbind result_bind Py.bind] in H |- *. rewrite H. reflexivity.
Qed.

Import Examples.

(** C1, as stated, fails: with the colors 2 and 10 the loop goes through
    [color10] before [color2], which is not the ascending order of the
    numbers, so the style of [color2], inserted last, comes first in the
    document. *)
Lemma creation_order_not_numeric :
  let coloring : gmap nat N := list_to_map [(0%nat, 2%N); (1%nat, 10%N)] in
  let colorize : gmap N string := list_to_map [(0%N, "7f000000"); (2%N, "7f065fb4")] in
  let icons : gmap N string := list_to_map [(0%N, "zero.png"); (2%N, "two.png")] in
  sorted (list_to_set (style_id <$> [2%N; 10%N])) = ["color10"; "color2"] /\
  style_id <$> sorted_N (list_to_set [2%N; 10%N]) = ["color2"; "color10"] /\
  sorted (list_to_set (style_id <$> [2%N; 10%N]))
  <> style_id <$> sorted_N (list_to_set [2%N; 10%N]) /\
  apply_color two_regions coloring colorize icons
  = Ok (in_document
          (style_element "color2" "7f065fb4" "two.png"
           :: style_element "color10" "7f000000" "zero.png"
           :: two_regions_styled "#color2" "#color10")).
Proof. cbv zeta. repeat split; vm_compute; (reflexivity || discriminate). Qed.

(** C2.  One placemark of color 12, and tables with entries for 2 and for
    12: the style [color12] gets the entries of 2, the last digit, where
    the claim says those of 12.  For every color number the entry read is
    that of the number modulo 10. *)
Theorem color12_takes_entries_of_2 :
  let coloring : gmap nat N := list_to_map [(0%nat, 12%N)] in
  let colorize : gmap N string := list_to_map [(2%N, "7f065fb4"); (12%N, "7f0000ff")] in
  let icons : gmap N string := list_to_map [(2%N, "two.png"); (12%N, "twelve.png")] in
  apply_color one_region coloring colorize icons
  = Ok (in_document
          [style_element "color12" "7f065fb4" "two.png";
           placemark [Tag None "name" [] [Str NavigableString "north"];
                      Tag None "styleUrl" [] [Str NavigableString "#color12"]]])
  /\ lookup_last_digit colorize (style_id 12) = Ok "7f065fb4"
  /\ colorize !! 12%N = Some "7f0000ff"
  /\ (forall (table : gmap N string) (c : N),
         lookup_last_digit table (style_id c) = or_raise (table !! (c mod 10)%N) KeyError).
Proof.
  cbv zeta. split; [vm_compute; reflexivity|]. split; [vm_compute; reflexivity|].
  split; [vm_compute; reflexivity|]. apply lookup_last_digit_style_id.
Qed.

End ColorFacts.

(** ** [_as_html] *)

Module HtmlFacts.
Import Format HtmlSpec.

Lemma append_String (c : ascii) (s t : string) :
  String.append (String c s) t = String c (String.append s t).
Proof. reflexivity. Qed.

Lemma append_assoc (s t u : string) :
  String.append (String.append s t) u = String.append s (String.append t u).
Proof.
  induction s as [|c s IH]; [reflexivity|]. rewrite !append_String, IH. reflexivity.
Qed.

Lemma replace_append k v s t :
  replace k v (String.append s t) = String.append (replace k v s) (replace k v t).
Proof.
  induction s as [|c s IH]; [reflexivity|].
  rewrite append_String. cbn [replace]. destruct (Ascii.eqb c k).
  - rewrite IH. symmetry. apply append_assoc.
  - rewrite IH. reflexivity.
Qed.

Lemma contains_append c s t :
  contains c (String.append s t) = contains c s || contains c t.
Proof.
  induction s as [|d s IH]; [reflexivity|]. rewrite append_String. cbn [contains].
  rewrite IH. apply orb_assoc.
Qed.

Lemma _as_html_unfold s :
  _as_html s = replace "&" "&amp;" (replace ">" "&gt;" (replace "<" "&lt;" s)).
Proof. reflexivity. Qed.

Lemma _as_html_String c r :
  _as_html (String c r) = String.append (escape c) (_as_html r).
Proof.
  rewrite !_as_html_unfold. unfold escape. cbn [replace].
  destruct (Ascii.eqb_spec c "<") as [->|H1].
  { rewrite !replace_append. reflexivity. }
  destruct (Ascii.eqb_spec c ">") as [->|H2].
  { cbn [replace Ascii.eqb Bool.eqb]. rewrite !replace_append. reflexivity. }
  cbn [replace].
  destruct (Ascii.eqb_spec c ">") as [E|_]; [contradiction|].
  cbn [replace].
  destruct (Ascii.eqb_spec c "&") as [->|H3]; reflexivity.
Qed.

(** X1.  [_as_html] works character by character, and because [&] is replaced
    last, after [<] and [>] have already become [&lt;] and [&gt;], a
    less-than sign ends as [&amp;lt;] and a greater-than sign as
    [&amp;gt;]. *)
Theorem _as_html_escapes_twice (s : string) : _as_html s = escape_all s.
Proof.
  induction s as [|c r IH]; [reflexivity|].
  rewrite _as_html_String, IH. reflexivity.
Qed.

Lemma escape_no_angle c :
  contains "<" (escape c) = false /\ contains ">" (escape c) = false.
Proof.
  unfold escape.
  destruct (Ascii.eqb_spec c "<") as [->|H1]; [split; reflexivity|].
  destruct (Ascii.eqb_spec c ">") as [->|H2]; [split; reflexivity|].
  destruct (Ascii.eqb_spec c "&") as [->|H3]; [split; reflexivity|].
  cbn [contains]. split; rewrite orb_false_r; apply Ascii.eqb_neq; congruence.
Qed.

Lemma escape_plain c :
  existsb (fun kv => Ascii.eqb (fst kv) c) REPLACE = false -> escape c = String c EmptyString.
Proof.
  unfold escape. cbn [existsb REPLACE fst]. rewrite !(Ascii.eqb_sym c).
  destruct (Ascii.eqb "<" c); [discriminate|].
  destruct (Ascii.eqb ">" c); [discriminate|].
  destruct (Ascii.eqb "&" c); [discriminate|]. reflexivity.
Qed.

Lemma has_special_String c r :
  has_special (String c r) =
  existsb (fun kv => Ascii.eqb (fst kv) c) REPLACE || has_special r.
Proof.
  unfold has_special. cbn [existsb REPLACE fst contains].
  destruct (Ascii.eqb "<" c), (Ascii.eqb ">" c), (Ascii.eqb "&" c),
    (contains "<" r), (contains ">" r), (contains "&" r); reflexivity.
Qed.

Lemma escape_length c :
  (1 <= String.length (escape c))%nat /\
  (existsb (fun kv => Ascii.eqb (fst kv) c) REPLACE = true ->
   2 <= String.length (escape c))%nat.
Proof.
  unfold escape. cbn [existsb REPLACE fst]. rewrite !(Ascii.eqb_sym c).
  destruct (Ascii.eqb "<" c); [cbn; lia|].
  destruct (Ascii.eqb ">" c); [cbn; lia|].
  destruct (Ascii.eqb "&" c); [cbn; lia|]. cbn. split; [lia|discriminate].
Qed.

(** X2.  The result of [_as_html] holds no less-than and no greater-than sign,
    and it is the argument itself exactly when the argument holds none of
    the three characters of [REPLACE]. *)
Theorem _as_html_no_angle (s : string) :
  contains "<" (_as_html s) = false /\
  contains ">" (_as_html s) = false /\
  (_as_html s = s <-> has_special s = false).
Proof.
  split; [|split].
  - induction s as [|c r IH]; [reflexivity|].
    rewrite _as_html_String, contains_append, IH.
    rewrite (proj1 (escape_no_angle c)). reflexivity.
  - induction s as [|c r IH]; [reflexivity|].
    rewrite _as_html_String, contains_append, IH.
    rewrite (proj2 (escape_no_angle c)). reflexivity.
  - induction s as [|c r IH]; [split; reflexivity|].
    rewrite _as_html_String, has_special_String.
    destruct (existsb (fun kv => Ascii.eqb (fst kv) c) REPLACE) eqn:E.
    + split; [|discriminate]. intros H. exfalso.
      apply (f_equal String.length) in H. rewrite length_append in H.
      pose proof (proj2 (escape_length c) E). pose proof (length_as_html r).
      cbn [String.length] in H. lia.
    + rewrite (escape_plain c E). cbn [String.append orb]. rewrite <- IH.
      split; [intros [= H]; exact H|intros ->; reflexivity].
Qed.

End HtmlFacts.

(** ** More about [format] *)

Module FormatMoreFacts.
Import Format FormatSpec Formatted TreeSpec.
Import FormatFacts.

Lemma in_descendants_child p nm a cs c :
  In c cs -> In c (descendants (Tag p nm a cs)).
Proof.
  intros Hc. rewrite descendants_Tag. apply in_concat.
  exists (c :: descendants c). split; [|left; reflexivity].
  apply in_map_iff. exists c. auto.
Qed.

Lemma in_descendants_below p nm a cs c x :
  In c cs -> In x (descendants c) -> In x (descendants (Tag p nm a cs)).
Proof.
  intros Hc Hx. rewrite descendants_Tag. apply in_concat.
  exists (c :: descendants c). split; [|right; exact Hx].
  apply in_map_iff. exists c. auto.
Qed.

Lemma descendants_trans n c x :
  In c (descendants n) -> In x (descendants c) -> In x (descendants n).
Proof.
  induction n as [k s|p nm a cs IH] using node_ind_nested; [intros []|].
  intros Hc Hx. rewrite descendants_Tag in Hc.
  apply in_concat in Hc as (l & Hl & Hc). apply in_map_iff in Hl as (d & <- & Hd).
  destruct Hc as [->|Hc]; [apply (in_descendants_below _ _ _ _ c); assumption|].
  rewrite Forall_forall in IH. apply (in_descendants_below _ _ _ _ d); [exact Hd|].
  apply IH; [apply list_elem_of_In, Hd|exact Hc|exact Hx].
Qed.

(** What holds of every element below [e] holds after the empty tags are
    removed, when it does not depend on a tag's contents. *)
Lemma remove_empty_Forall (P : node -> Prop) :
  (forall p nm a cs cs', P (Tag p nm a cs) -> P (Tag p nm a cs')) ->
  forall e, Forall P (descendants e) -> Forall P (descendants (remove_empty e)).
Proof.
  intros HP e. induction e as [k s|p nm a cs IH] using node_ind_nested; intros H.
  - constructor.
  - cbn [remove_empty].
    apply Forall_descendants_Tag in H. apply Forall_descendants_Tag.
    rewrite keep_map_spec.
    induction cs as [|c r IHr]; [constructor|].
    inversion_clear IH as [|? ? IHc IHr']. inversion_clear H as [|? ? [Hc Hd] Hr].
    cbn [List.filter]. destruct (negb (is_empty_tag c)); cbn [List.map].
    + constructor; [|apply IHr; assumption]. split; [|apply IHc, Hd].
      destruct c as [k s|p' nm' a' cs']; [exact Hc|exact (HP _ _ _ _ _ Hc)].
    + apply IHr; assumption.
Qed.

(** What holds of every element the passes leave below the root holds
    below the root of the document [format] returns under bs4 4.12 and
    before. *)
Lemma format_Forall (P : node -> Prop) (soup : node) (no_empty : bool) :
  (forall p nm a cs cs', P (Tag p nm a cs) -> P (Tag p nm a cs')) ->
  (forall c, In c (descendants soup) -> in_destroy c = false ->
             P (pass c) /\ Forall P (descendants (pass c))) ->
  Forall P (descendants (format_4_12 soup no_empty)).
Proof.
  intros HP H. destruct soup as [k s|p nm a cs]; [constructor|].
  assert (H2 : Forall P (descendants (Tag p nm a (pass_list cs)))).
  { apply Forall_descendants_Tag. rewrite pass_list_spec.
    assert (Hin : forall c, In c cs -> in_destroy c = false ->
                            P (pass c) /\ Forall P (descendants (pass c))).
    { intros c Hc. apply H, in_descendants_child, Hc. }
    clear H HP. induction cs as [|c r IHr]; [constructor|].
    cbn [List.filter]. destruct (in_destroy c) eqn:D; cbn [negb List.map].
    - apply IHr. intros x Hx. apply Hin. right. exact Hx.
    - constructor; [apply Hin; [left; reflexivity|exact D]|].
      apply IHr. intros x Hx. apply Hin. right. exact Hx. }
  unfold format_4_12. change (apply_recorded (Tag p nm a (List.map visit cs)))
    with (Tag p nm a (pass_list cs)).
  destruct no_empty; [|exact H2].
  apply (remove_empty_Forall P HP), H2.
Qed.

Lemma clear_kml_not_kml p : clear_kml p <> Some "kml".
Proof.
  unfold clear_kml. destruct (bool_decide (p = Some "kml")) eqn:E; [discriminate|].
  apply bool_decide_eq_false in E. exact E.
Qed.

Lemma pass_no_kml e :
  prefix_of (pass e) <> Some "kml" /\
  Forall (fun x => prefix_of x <> Some "kml") (descendants (pass e)).
Proof.
  induction e as [k s|p nm a cs IH] using node_ind_nested.
  - assert (E : exists k' s', pass (Str k s) = Str k' s') by apply apply_recorded_is_Str.
    destruct E as (k' & s' & ->). split; [discriminate|constructor].
  - rewrite pass_Tag. split; [apply clear_kml_not_kml|].
    apply Forall_descendants_Tag.
    destruct (restring cs) as [new|] eqn:R.
    + apply restring_Some in R as (k & s & c & r & _ & -> & _).
      repeat constructor. discriminate.
    + rewrite pass_list_spec. clear R.
      induction IH as [|c r Hc Hr IHr]; [constructor|].
      cbn [List.filter]. destruct (negb (in_destroy c)); cbn [List.map]; [|exact IHr].
      constructor; [exact Hc|exact IHr].
Qed.


(** X28.  Under bs4 4.12 and before, [format] returns, with either value
    of the flag, and every string left in the document it returns is
    trimmed: it is not whitespace in the sense of [str.isspace], and it has
    neither leading nor trailing whitespace.  (A string that was all
    whitespace and the only child of its tag is left as an empty string.) *)
Theorem format_strings_trimmed (soup : node) (no_empty : bool) :
  exists soup',
    format Bs4_12 soup no_empty = Ok soup' /\
    Forall trimmed_string (descendants soup').
Proof.
  exists (format_4_12 soup no_empty). split; [reflexivity|].
  apply format_4_12_trimmed.
Qed.

(** X3.  Under bs4 4.12 and before, [format] returns, with either value
    of the flag, and no element below the root of the document it returns
    carries the prefix [kml]. *)
Theorem format_clears_kml_prefix (soup : node) (no_empty : bool) :
  exists soup',
    format Bs4_12 soup no_empty = Ok soup' /\
    Forall (fun e => prefix_of e <> Some "kml") (descendants soup').
Proof.
  exists (format_4_12 soup no_empty). split; [reflexivity|].
  apply format_Forall.
  - intros p nm a cs cs' H. exact H.
  - intros c _ _. apply pass_no_kml.
Qed.

Lemma pass_trims (originals : list string) e :
  (forall s, In s (omap text_of (e :: descendants e)) -> In s originals) ->
  in_destroy e = false ->
  trims_one_of originals (pass e) /\
  Forall (trims_one_of originals) (descendants (pass e)).
Proof.
  induction e as [k s|p nm a cs IH] using node_ind_nested; intros Hin D.
  - assert (Hs : In s originals) by (apply Hin; left; reflexivity).
    unfold pass. cbn [visit apply_recorded in_strip]. cbn [in_destroy] in D. rewrite D.
    cbn [negb andb]. destruct (String.eqb (strip s) s) eqn:Q; cbn [negb].
    + apply String.eqb_eq in Q. split; [|constructor]. exists s. auto.
    + split; [|constructor]. exists s. auto.
  - rewrite pass_Tag. split; [exact I|]. apply Forall_descendants_Tag.
    assert (Hin' : forall c, In c cs ->
                     forall s, In s (omap text_of (c :: descendants c)) -> In s originals).
    { intros c Hc s Hs. apply Hin. cbn [omap list_omap text_of].
      apply list_elem_of_In, list_elem_of_omap in Hs as (x & Hx & Ex).
      apply list_elem_of_In, list_elem_of_omap. exists x. split; [|exact Ex].
      apply list_elem_of_In. apply list_elem_of_In in Hx. destruct Hx as [<-|Hx].
      - apply in_descendants_child, Hc.
      - apply (in_descendants_below _ _ _ _ c); assumption. }
    destruct (restring cs) as [new|] eqn:R.
    + apply restring_Some in R as (k & s & c & r & -> & -> & _).
      repeat constructor. exists (String c r). split; [|reflexivity].
      apply (Hin' (Str k (String c r))); left; reflexivity.
    + rewrite pass_list_spec. clear R Hin D. revert Hin'.
      induction IH as [|c r Hc Hr IHr]; intros Hin'; [constructor|].
      cbn [List.filter]. destruct (in_destroy c) eqn:Dc; cbn [negb List.map].
      * apply IHr. intros x Hx. apply Hin'. right. exact Hx.
      * constructor.
        -- apply Hc; [apply Hin'; left; reflexivity|reflexivity].
        -- apply IHr. intros x Hx. apply Hin'. right. exact Hx.
Qed.

(** X4.  Under bs4 4.12 and before, [format] returns and changes no text
    except by trimming it: the text of every string of the document after
    the call is the trimmed text of a string of the document before it. *)
Theorem format_only_trims (soup : node) (no_empty : bool) :
  exists soup',
    format Bs4_12 soup no_empty = Ok soup' /\
    Forall (trims_one_of (texts soup)) (descendants soup').
Proof.
  exists (format_4_12 soup no_empty). split; [reflexivity|].
  apply format_Forall.
  - intros p nm a cs cs' H. exact H.
  - intros c Hc D. apply pass_trims; [|exact D].
    intros s Hs. unfold texts.
    apply list_elem_of_In, list_elem_of_omap in Hs as (x & Hx & Ex).
    apply list_elem_of_In, list_elem_of_omap. exists x. split; [|exact Ex].
    apply list_elem_of_In. apply list_elem_of_In in Hx. destruct Hx as [<-|Hx]; [exact Hc|].
    apply (descendants_trans _ c); assumption.
Qed.

Lemma self_elements_Str k s : self_elements (Str k s) = [].
Proof. reflexivity. Qed.

Lemma elements_Tag p nm a cs :
  elements (Tag p nm a cs) = concat (List.map self_elements cs).
Proof.
  unfold elements. rewrite descendants_Tag.
  induction cs as [|c r IH]; [reflexivity|].
  cbn [List.map concat]. rewrite omap_app, IH. reflexivity.
Qed.

Lemma self_elements_Tag p nm a cs :
  self_elements (Tag p nm a cs) = (nm, a) :: concat (List.map self_elements cs).
Proof.
  unfold self_elements. cbn [omap list_omap element_of].
  f_equal. apply elements_Tag.
Qed.

Lemma in_destroy_Str e : in_destroy e = true -> exists k s, e = Str k s.
Proof. destruct e as [k s|]; [eauto|discriminate]. Qed.

Lemma pass_self_elements e :
  in_destroy e = false -> self_elements (pass e) = self_elements e.
Proof.
  induction e as [k s|p nm a cs IH] using node_ind_nested; intros D.
  - destruct (apply_recorded_is_Str k s) as (k' & s' & E).
    unfold pass. cbn [visit]. rewrite E. reflexivity.
  - rewrite pass_Tag, !self_elements_Tag. f_equal.
    destruct (restring cs) as [new|] eqn:R.
    + apply restring_Some in R as (k & s & c & r & -> & -> & _). reflexivity.
    + rewrite pass_list_spec. clear R D.
      induction IH as [|c r Hc Hr IHr]; [reflexivity|].
      cbn [List.filter]. destruct (in_destroy c) eqn:Dc; cbn [negb List.map concat].
      * destruct (in_destroy_Str c Dc) as (k & s & ->). rewrite self_elements_Str. exact IHr.
      * rewrite (Hc eq_refl), IHr. reflexivity.
Qed.

Lemma format_4_12_elements (soup : node) :
  elements (format_4_12 soup false) = elements soup.
Proof.
  destruct soup as [k s|p nm a cs]; [reflexivity|].
  unfold format_4_12.
  change (apply_recorded (Tag p nm a (List.map visit cs)))
    with (Tag p nm a (pass_list cs)).
  rewrite !elements_Tag, pass_list_spec.
  induction cs as [|c r IHr]; [reflexivity|].
  cbn [List.filter]. destruct (in_destroy c) eqn:Dc; cbn [negb List.map concat].
  - destruct (in_destroy_Str c Dc) as (k & s & ->). rewrite self_elements_Str. exact IHr.
  - rewrite (pass_self_elements c Dc), IHr. reflexivity.
Qed.

(** The walk of bs4 4.13, one element at a time. *)
Lemma visit_4_13_Tag p nm a cs :
  visit_4_13 (Tag p nm a cs) Going =
  match restring cs with
  | Some new => ([Tag (clear_kml p) nm a [new]], Ended (List.hd (Tag p nm a cs) cs))
  | None =>
      let '(cs', w') := visit_list_4_13 cs Going in
      ([Tag (clear_kml p) nm a cs'], w')
  end.
Proof. reflexivity. Qed.

Lemma visit_list_4_13_cons c r w :
  visit_list_4_13 (c :: r) w =
  let '(c', w1) := visit_4_13 c w in
  let '(r', w2) := visit_list_4_13 r w1 in
  (c' ++ r', w2).
Proof. reflexivity. Qed.

Lemma visit_4_13_Ended e old : visit_4_13 e (Ended old) = ([e], Ended old).
Proof. destruct e; reflexivity. Qed.

Lemma visit_list_4_13_elements cs :
  Forall (fun c => forall w,
            concat (List.map self_elements (visit_4_13 c w).1) = self_elements c) cs ->
  forall w, concat (List.map self_elements (visit_list_4_13 cs w).1)
            = concat (List.map self_elements cs).
Proof.
  induction 1 as [|c r Hc _ IHr]; intros w; [reflexivity|].
  rewrite visit_list_4_13_cons. specialize (Hc w).
  destruct (visit_4_13 c w) as [c' w1]. specialize (IHr w1).
  destruct (visit_list_4_13 r w1) as [r' w2]. cbn [fst] in *.
  rewrite List.map_app, concat_app, Hc, IHr. reflexivity.
Qed.

Lemma visit_4_13_elements e :
  forall w, concat (List.map self_elements (visit_4_13 e w).1) = self_elements e.
Proof.
  induction e as [k s|p nm a cs IH] using node_ind_nested; intros [|old].
  - cbn [visit_4_13]. destruct (in_destroy (Str k s)); [reflexivity|].
    destruct (in_strip (Str k s)); reflexivity.
  - reflexivity.
  - rewrite visit_4_13_Tag. destruct (restring cs) as [new|] eqn:R.
    + apply restring_Some in R as (k & s & c & r & -> & -> & _). reflexivity.
    + pose proof (visit_list_4_13_elements cs IH Going) as E.
      destruct (visit_list_4_13 cs Going) as [cs' w']. cbn [fst] in *.
      cbn [List.map concat]. rewrite app_nil_r, !self_elements_Tag, E. reflexivity.
  - rewrite visit_4_13_Ended. cbn [fst List.map concat]. apply app_nil_r.
Qed.

(** *** Where the loop of bs4 4.13 ends *)

Lemma sole_text_restring p nm a cs :
  sole_text (Tag p nm a cs) = match restring cs with Some _ => true | None => false end.
Proof.
  destruct cs as [|[k [|c r]|] [|]]; try reflexivity.
  rewrite restring_Str. reflexivity.
Qed.

Lemma state_after_app l1 l2 :
  state_after (l1 ++ l2) =
  match state_after l1 with
  | Going => state_after l2
  | w => w
  end.
Proof.
  unfold state_after. rewrite List.filter_app.
  induction (List.filter sole_text l1) as [|x r IH] eqn:E in l1 |- *; [reflexivity|].
  assert (Hx : sole_text x = true).
  { assert (Hin : In x (List.filter sole_text l1)) by (rewrite E; left; reflexivity).
    apply filter_In in Hin as [_ Hx]. exact Hx. }
  cbn [app head]. destruct x as [k s|p nm a [|c cs]]; try discriminate. reflexivity.
Qed.

Lemma visit_list_4_13_Ended l old : (visit_list_4_13 l (Ended old)).2 = Ended old.
Proof.
  induction l as [|c r IH]; [reflexivity|].
  rewrite visit_list_4_13_cons, visit_4_13_Ended.
  destruct (visit_list_4_13 r (Ended old)) as [r' w2]. exact IH.
Qed.

Lemma visit_list_4_13_state cs :
  Forall (fun c => (visit_4_13 c Going).2 = state_after (c :: descendants c)) cs ->
  (visit_list_4_13 cs Going).2
  = state_after (concat (List.map (fun c => c :: descendants c) cs)).
Proof.
  induction 1 as [|c r Hc _ IHr]; [reflexivity|].
  rewrite visit_list_4_13_cons. cbn [List.map concat]. rewrite state_after_app, <- Hc.
  destruct (visit_4_13 c Going) as [c' [|old]]; cbn [snd].
  - destruct (visit_list_4_13 r Going) as [r' w2]. exact IHr.
  - pose proof (visit_list_4_13_Ended r old) as E.
    destruct (visit_list_4_13 r (Ended old)) as [r' w2]. exact E.
Qed.

Lemma visit_4_13_state e :
  (visit_4_13 e Going).2 = state_after (e :: descendants e).
Proof.
  induction e as [k s|p nm a cs IH] using node_ind_nested.
  - cbn [visit_4_13]. destruct (in_destroy (Str k s)); [reflexivity|].
    destruct (in_strip (Str k s)); reflexivity.
  - rewrite visit_4_13_Tag. unfold state_after at 1. cbn [List.filter].
    rewrite sole_text_restring. destruct (restring cs) as [new|] eqn:R.
    + apply restring_Some in R as (k & s & c & r & -> & _ & _). reflexivity.
    + pose proof (visit_list_4_13_state cs IH) as E. rewrite descendants_Tag.
      destruct (visit_list_4_13 cs Going) as [cs' w']. exact E.
Qed.

(** X29.  Under bs4 4.13 and later, [format] raises exactly when the first
    tag of the document, in document order, whose only child is a non-empty
    string holds a text that is not all whitespace and has leading or
    trailing whitespace; what it raises is the [ValueError] of
    [replace_with] at line 85.  In every other case it returns. *)
Theorem format_4_13_raises (soup : node) (no_empty : bool) (e : exn) :
  format Bs4_13 soup no_empty = Raise e <->
  e = ValueError not_in_tree /\
  exists k s, first_sole_text soup = Some (Str k s) /\ isspace s = false /\ strip s <> s.
Proof.
  unfold format, first_sole_text, find, find_all.
  destruct soup as [k0 s0|p nm a cs].
  { split; [discriminate|]. intros (_ & k & s & H & _). discriminate. }
  unfold format_4_13.
  pose proof (visit_list_4_13_state cs) as E. rewrite descendants_Tag.
  destruct (visit_list_4_13 cs Going) as [cs' w]. cbn [snd] in E.
  rewrite E by (apply Forall_forall; intros c _; apply visit_4_13_state).
  unfold state_after.
  destruct (head (List.filter sole_text (concat (List.map (fun c => c :: descendants c) cs))))
    as [[k s|p' nm' a' [|c r]]|] eqn:Eh.
  - split; [discriminate|]. intros (_ & k1 & s1 & H & _). discriminate.
  - split; [discriminate|]. intros (_ & k1 & s1 & H & _). discriminate.
  - assert (Hs : sole_text (Tag p' nm' a' (c :: r)) = true).
    { apply head_Some_elem_of, list_elem_of_In, filter_In in Eh as [_ H]. exact H. }
    destruct c as [k s|]; [|destruct r; discriminate].
    cbn [in_strip]. destruct (isspace s) eqn:Ei; cbn [negb andb].
    + split; [discriminate|]. intros (_ & k1 & s1 & [= -> ->] & H & _). congruence.
    + destruct (String.eqb (strip s) s) eqn:Es; cbn [negb].
      * apply String.eqb_eq in Es. split; [discriminate|].
        intros (_ & k1 & s1 & [= -> ->] & _ & H). congruence.
      * apply String.eqb_neq in Es. split.
        -- intros [= <-]. split; [reflexivity|]. exists k, s. auto.
        -- intros [-> _]. reflexivity.
  - split; [discriminate|]. intros (_ & k1 & s1 & H & _). discriminate.
Qed.

(** X5.  With the flag off, [format] neither removes, adds, renames nor
    reorders an element, and it leaves every attribute alone: the tags of
    the document returned by [formatted] are, by name and attributes and
    in document order, those of the document passed in.  This holds of
    every document [formatted] returns, under either bs4; under bs4 4.12
    and before it always returns. *)
Theorem formatted_keeps_elements (soup : node) :
  (exists soup', formatted Bs4_12 soup = Ok soup') /\
  (forall v soup', formatted v soup = Ok soup' -> elements soup' = elements soup).
Proof.
  split; [eexists; reflexivity|]. intros [|] soup'; unfold formatted, format.
  - intros [= <-]. apply format_4_12_elements.
  - destruct soup as [k s|p nm a cs]; [intros [= <-]; reflexivity|].
    unfold format_4_13.
    pose proof (visit_list_4_13_elements cs) as E.
    destruct (visit_list_4_13 cs Going) as [cs' w] eqn:Ev.
    assert (E' : elements (Tag p nm a cs') = elements (Tag p nm a cs)).
    { rewrite !elements_Tag. specialize (E ltac:(apply Forall_forall; intros c _;
        apply visit_4_13_elements) Going). rewrite Ev in E. exact E. }
    destruct w as [|old]; [intros [= <-]; exact E'|].
    destruct (in_strip old); [discriminate|]. intros [= <-]. exact E'.
Qed.

Lemma not_blank_app l1 l2 : not_blank (l1 ++ l2) = not_blank l1 ++ not_blank l2.
Proof. unfold not_blank. rewrite List.filter_app, omap_app. reflexivity. Qed.

Lemma kept_none cs :
  match List.filter (fun c => negb (in_destroy c)) cs with [] => true | _ => false end
  = forallb in_destroy cs.
Proof.
  induction cs as [|c r IH]; [reflexivity|].
  cbn [List.filter forallb]. destruct (in_destroy c); [exact IH|reflexivity].
Qed.

Lemma is_empty_pass e : is_empty_tag (pass e) = is_blank e.
Proof.
  destruct e as [k s|p nm a cs].
  - destruct (apply_recorded_is_Str k s) as (k' & s' & E).
    unfold pass. cbn [visit]. rewrite E. reflexivity.
  - rewrite pass_Tag. cbn [is_blank].
    destruct (restring cs) as [new|] eqn:R.
    + apply restring_Some in R as (k & s & c & r & -> & -> & _).
      cbn [forallb length Nat.eqb negb]. rewrite andb_false_r. reflexivity.
    + rewrite pass_list_spec. rewrite <- kept_none.
      destruct cs as [|c [|c' r]].
      * reflexivity.
      * destruct c as [k s|p' nm' a' cs']; [|reflexivity].
        rewrite restring_Str in R. destruct s as [|c0 r0]; [reflexivity|discriminate].
      * cbn [length Nat.eqb negb]. rewrite andb_true_r.
        destruct (List.filter (fun c => negb (in_destroy c)) (c :: c' :: r)); reflexivity.
Qed.

Lemma blank_below e : is_blank e = true -> not_blank (descendants e) = [].
Proof.
  destruct e as [k s|p nm a cs]; [reflexivity|]. cbn [is_blank].
  intros [H _]%andb_true_iff. rewrite descendants_Tag.
  induction cs as [|c r IH]; [reflexivity|].
  cbn [forallb] in H. apply andb_true_iff in H as [Hc Hr].
  destruct (in_destroy_Str c Hc) as (k & s & ->).
  cbn [List.map concat descendants app]. apply IH, Hr.
Qed.

Lemma remove_pass_list cs :
  Forall (fun c => in_destroy c = false -> is_blank c = false ->
                   self_elements (remove_empty (pass c)) = not_blank (c :: descendants c)) cs ->
  concat (List.map self_elements
            (keep_map (fun c => negb (is_empty_tag c)) remove_empty (pass_list cs)))
  = not_blank (concat (List.map (fun c => c :: descendants c) cs)).
Proof.
  rewrite keep_map_spec, pass_list_spec.
  induction 1 as [|c r Hc Hr IHr]; [reflexivity|].
  cbn [List.map concat]. rewrite not_blank_app, <- IHr.
  cbn [List.filter]. destruct (in_destroy c) eqn:Dc; cbn [negb List.map List.filter].
  - destruct (in_destroy_Str c Dc) as (k & s & ->). reflexivity.
  - rewrite is_empty_pass. destruct (is_blank c) eqn:B; cbn [negb List.map concat].
    + change (c :: descendants c) with ([c] ++ descendants c).
      rewrite not_blank_app, (blank_below c B). unfold not_blank. cbn [List.filter].
      rewrite B. reflexivity.
    + rewrite (Hc eq_refl eq_refl). reflexivity.
Qed.

Lemma remove_pass_elements e :
  in_destroy e = false -> is_blank e = false ->
  self_elements (remove_empty (pass e)) = not_blank (e :: descendants e).
Proof.
  induction e as [k s|p nm a cs IH] using node_ind_nested; intros D B.
  - destruct (apply_recorded_is_Str k s) as (k' & s' & E).
    unfold pass. cbn [visit]. rewrite E. reflexivity.
  - rewrite pass_Tag. cbn [remove_empty]. rewrite self_elements_Tag.
    unfold not_blank at 1. cbn [List.filter]. rewrite B. cbn [negb omap list_omap element_of].
    f_equal. fold (not_blank (descendants (Tag p nm a cs))).
    rewrite descendants_Tag.
    destruct (restring cs) as [new|] eqn:R.
    + apply restring_Some in R as (k & s & c & r & -> & -> & _). reflexivity.
    + apply remove_pass_list, IH.
Qed.

(** X6.  Under bs4 4.12 and before, [format] with the flag on returns,
    and the elements it removes are the blank ones:
    the tags with no contents, and the tags whose contents are two or more
    strings that are all whitespace.  Every other tag stays, with its name
    and attributes and in document order; in particular a tag is kept when
    the removal empties it, and when its only child is one whitespace
    string. *)
Theorem format_removes_blank_elements (soup : node) :
  exists soup',
    format Bs4_12 soup true = Ok soup' /\
    elements soup' = not_blank (descendants soup).
Proof.
  exists (format_4_12 soup true). split; [reflexivity|].
  destruct soup as [k s|p nm a cs]; [reflexivity|].
  unfold format_4_12.
  change (apply_recorded (Tag p nm a (List.map visit cs)))
    with (Tag p nm a (pass_list cs)).
  cbn [remove_empty]. rewrite elements_Tag, descendants_Tag.
  apply remove_pass_list. apply Forall_forall. intros c _. apply remove_pass_elements.
Qed.

End FormatMoreFacts.

(** ** [format] a second time *)

Module FormatTwiceFacts.
Import Format FormatSpec TreeSpec.
Import FormatFacts FormatMoreFacts.









(** *** The removal of the empty tags *)










(** *** The second call under bs4 4.13 *)














(** The number of elements does not grow in the loops. *)
Local Abbreviation weight :=
  (fold_right (fun (c : node) (n : nat) => (S (length (descendants c)) + n)%nat) 0%nat).









End FormatTwiceFacts.

(** ** More about the accessors *)

Module AccessMoreFacts.
Import Access AccessSpec.
Import Format FormatSpec Formatted.

Lemma find_None (pred : node -> bool) (n : node) :
  find pred n = None <-> Forall (fun e => pred e = false) (descendants n).
Proof.
  unfold find, find_all. induction (descendants n) as [|x l IH]; cbn [List.filter].
  - split; [constructor|reflexivity].
  - destruct (pred x) eqn:E.
    + split; [discriminate|]. intros H. inversion_clear H. congruence.
    + rewrite IH. split; [intros H; constructor; assumption|].
      intros H. inversion_clear H. assumption.
Qed.

(** X7.  [get_data] with a string raises [ValueError], with the message that
    names the field, exactly when no element below [pm] is a [Data] or
    [SimpleData] with that [name] attribute; no other failure of the call
    is a [ValueError]. *)
Theorem get_data_not_found (pm : node) (nm : string) :
  (Forall (fun e => is_data_named nm e = false) (descendants pm) ->
   get_data pm (NStr nm)
   = Raise (ValueError (String.append "Data/SimpleData not found: name='"
                          (String.append nm "'")))) /\
  (forall msg, get_data pm (NStr nm) = Raise (ValueError msg) ->
               Forall (fun e => is_data_named nm e = false) (descendants pm)).
Proof.
  split.
  - intros H%find_None. cbn [get_data]. rewrite H. reflexivity.
  - intros msg. rewrite <- find_None. cbn [get_data].
    destruct (find (is_data_named nm) pm) as [val|]; [|reflexivity].
    destruct (named "Data" val).
    + destruct (find (named "value") val) as [t|]; cbn; [|discriminate].
      destruct (string_of t) as [[k s]|]; cbn; discriminate.
    + cbn. destruct (string_of val) as [[k s]|]; cbn; discriminate.
Qed.

(** X8.  Whenever [get_data] returns, it returns one string, and that string
    has neither leading nor trailing whitespace. *)
Theorem get_data_returns_trimmed (pm : node) (name : Py.name) (d : data) :
  get_data pm name = Ok d ->
  exists s, d = DStr s /\ no_outer_space s = true.
Proof.
  destruct name as [nm|l]; [|discriminate]. cbn [get_data].
  destruct (find (is_data_named nm) pm) as [val|]; [|discriminate].
  destruct (if named "Data" val
            then or_raise (find (named "value") val) AttributeError
            else Ok val) as [t|]; cbn; [|discriminate].
  destruct (string_of t) as [[k s]|]; cbn; [|discriminate].
  intros [= <-]. exists (strip s). split; [reflexivity|apply strip_no_outer_space].
Qed.

Lemma get_data_returns_trimmed_witness :
  exists s, DStr "12" = DStr s /\ no_outer_space s = true.
Proof.
  apply (get_data_returns_trimmed
           (Tag None "Placemark" []
              [Tag None "ExtendedData" []
                 [Tag None "Data" [("name", "pop")]
                    [Tag None "value" [] [Str NavigableString " 12 "]]]])
           (NStr "pop")).
  reflexivity.
Defined.

(** *** [get_data] on a formatted document *)

Lemma find_Some_pred (pred : node -> bool) (n x : node) :
  find pred n = Some x -> pred x = true.
Proof.
  unfold find, find_all. induction (descendants n) as [|y l IH]; [discriminate|].
  cbn [List.filter]. destruct (pred y) eqn:E; [intros [= <-]; exact E|exact IH].
Qed.

Lemma head_app_filter (pred : node -> bool) (l1 l2 : list node) :
  head (List.filter pred (l1 ++ l2)) =
  match head (List.filter pred l1) with
  | Some x => Some x
  | None => head (List.filter pred l2)
  end.
Proof.
  rewrite List.filter_app. destruct (List.filter pred l1); reflexivity.
Qed.

Lemma find_pass_list (pred : node -> bool) (cs : list node) :
  (forall k s, pred (Str k s) = false) ->
  (forall e, pred (pass e) = pred e) ->
  Forall (fun c => find pred (pass c) = option_map pass (find pred c)) cs ->
  head (List.filter pred (concat (List.map (fun c => c :: descendants c) (pass_list cs))))
  = option_map pass
      (head (List.filter pred (concat (List.map (fun c => c :: descendants c) cs)))).
Proof.
  intros Hstr Hpass. rewrite FormatFacts.pass_list_spec.
  induction 1 as [|c r Hc Hr IHr]; [reflexivity|].
  cbn [List.filter List.map concat].
  destruct (in_destroy c) eqn:Dc; cbn [negb List.map concat].
  - destruct c as [k s|]; [|discriminate]. cbn [descendants app List.filter].
    rewrite Hstr. exact IHr.
  - rewrite <- !app_comm_cons. cbn [List.filter]. rewrite Hpass.
    destruct (pred c); [reflexivity|].
    rewrite !head_app_filter. unfold find, find_all in Hc. rewrite Hc, IHr.
    destruct (head (List.filter pred (descendants c))); reflexivity.
Qed.

Lemma find_pass (pred : node -> bool) (e : node) :
  (forall k s, pred (Str k s) = false) ->
  (forall e, pred (pass e) = pred e) ->
  find pred (pass e) = option_map pass (find pred e).
Proof.
  intros Hstr Hpass. induction e as [k s|p nm a cs IH] using node_ind_nested.
  - destruct (FormatFacts.apply_recorded_is_Str k s) as (k' & s' & E).
    unfold pass. cbn [visit]. rewrite E. reflexivity.
  - rewrite FormatFacts.pass_Tag. unfold find, find_all. rewrite !descendants_Tag.
    destruct (restring cs) as [new|] eqn:R.
    + apply FormatFacts.restring_Some in R as (k & s & c & r & -> & -> & _).
      cbn [List.map concat descendants app List.filter]. rewrite !Hstr. reflexivity.
    + apply find_pass_list; assumption.
Qed.

Lemma is_data_named_pass nm e : is_data_named nm (pass e) = is_data_named nm e.
Proof.
  destruct e as [k s|p tn a cs]; [|rewrite FormatFacts.pass_Tag; reflexivity].
  destruct (FormatFacts.apply_recorded_is_Str k s) as (k' & s' & E).
  unfold pass. cbn [visit]. rewrite E. reflexivity.
Qed.

Lemma named_pass nm e : named nm (pass e) = named nm e.
Proof.
  destruct e as [k s|p tn a cs]; [|rewrite FormatFacts.pass_Tag; reflexivity].
  destruct (FormatFacts.apply_recorded_is_Str k s) as (k' & s' & E).
  unfold pass. cbn [visit]. rewrite E. reflexivity.
Qed.

Lemma find_formatted (pred : node -> bool) (soup : node) :
  (forall k s, pred (Str k s) = false) ->
  (forall e, pred (pass e) = pred e) ->
  find pred (format_4_12 soup false) = option_map pass (find pred soup).
Proof.
  intros Hstr Hpass. destruct soup as [k s|p tn a cs]; [reflexivity|].
  unfold format_4_12.
  change (apply_recorded (Tag p tn a (List.map visit cs)))
    with (Tag p tn a (pass_list cs)).
  unfold find, find_all. rewrite !descendants_Tag.
  apply find_pass_list; [exact Hstr|exact Hpass|].
  apply Forall_forall. intros c _. apply find_pass; assumption.
Qed.

(** After the passes the [.string] of a tag is its [.string] of before,
    trimmed. *)
Lemma string_of_pass (t : node) (k : strkind) (s : string) :
  is_tag t = true -> string_of t = Some (k, s) ->
  exists k', string_of (pass t) = Some (k', strip s).
Proof.
  revert k s. induction t as [k0 s0|p nm a cs IH] using node_ind_nested;
    intros k s T H; [discriminate|].
  destruct cs as [|c [|c' r]]; try discriminate.
  rewrite FormatFacts.pass_Tag.
  destruct c as [k0 s0|p0 nm0 a0 cs0].
  - cbn [string_of] in H. injection H as -> ->.
    rewrite FormatFacts.restring_Str. destruct s as [|c0 r0].
    + exists k. reflexivity.
    + eexists. reflexivity.
  - change (string_of (Tag p nm a [Tag p0 nm0 a0 cs0]))
      with (string_of (Tag p0 nm0 a0 cs0)) in H.
    inversion_clear IH as [|? ? IHc _].
    destruct (IHc k s eq_refl H) as (k' & E).
    exists k'. rewrite FormatFacts.pass_list_spec. cbn [restring List.filter in_destroy negb List.map].
    exact E.
Qed.

Lemma get_data_after_4_12 (soup : node) (nm : string) (v : data) :
  get_data soup (NStr nm) = Ok v ->
  get_data (format_4_12 soup false) (NStr nm) = Ok v.
Proof.
  cbn [get_data].
  rewrite (find_formatted (is_data_named nm) soup (fun _ _ => eq_refl)
             (is_data_named_pass nm)).
  destruct (find (is_data_named nm) soup) as [val|] eqn:Eval; [|discriminate].
  cbn [option_map]. rewrite named_pass.
  assert (Tval : is_tag val = true).
  { apply find_Some_pred in Eval. destruct val; [discriminate|reflexivity]. }
  destruct (named "Data" val).
  - rewrite (find_pass (named "value") val); [|reflexivity|apply named_pass].
    destruct (find (named "value") val) as [t|] eqn:Et; [|discriminate].
    cbn [option_map or_raise mbind result_bind Py.bind].
    assert (Tt : is_tag t = true).
    { apply find_Some_pred in Et. destruct t; [discriminate|reflexivity]. }
    destruct (string_of t) as [[k s]|] eqn:Es; [|discriminate].
    destruct (string_of_pass t k s Tt Es) as (k' & ->).
    cbn [or_raise mbind result_bind Py.bind]. intros [= <-]. rewrite strip_idem. reflexivity.
  - cbn [mbind result_bind Py.bind].
    destruct (string_of val) as [[k s]|] eqn:Es; [|discriminate].
    destruct (string_of_pass val k s Tval Es) as (k' & ->).
    cbn [or_raise mbind result_bind Py.bind]. intros [= <-]. rewrite strip_idem. reflexivity.
Qed.

(** *** The same under bs4 4.13 *)

(** The first of the elements [l] and what is below them that passes
    [pred]. *)
Lemma first_among_cons (pred : node -> bool) (c : node) (r : list node) :
  head (List.filter pred (concat (List.map (fun c => c :: descendants c) (c :: r))))
  = match head (List.filter pred (c :: descendants c)) with
    | Some x => Some x
    | None => head (List.filter pred (concat (List.map (fun c => c :: descendants c) r)))
    end.
Proof. cbn [List.map concat]. apply head_app_filter. Qed.

Lemma first_among_app (pred : node -> bool) (l1 l2 : list node) :
  head (List.filter pred (concat (List.map (fun c => c :: descendants c) (l1 ++ l2))))
  = match head (List.filter pred (concat (List.map (fun c => c :: descendants c) l1))) with
    | Some x => Some x
    | None => head (List.filter pred (concat (List.map (fun c => c :: descendants c) l2)))
    end.
Proof. rewrite List.map_app, concat_app. apply head_app_filter. Qed.

Lemma first_among_one (pred : node -> bool) (e : node) :
  head (List.filter pred (concat (List.map (fun c => c :: descendants c) [e])))
  = head (List.filter pred (e :: descendants e)).
Proof. cbn [List.map concat]. rewrite app_nil_r. reflexivity. Qed.

Section found_after_4_13.

Variable pred : node -> bool.
Hypothesis pred_Str : forall k s, pred (Str k s) = false.
Hypothesis pred_shape :
  forall p p' nm a cs cs', pred (Tag p nm a cs) = pred (Tag p' nm a cs').

(** What the walk leaves of the first element that passes [pred] is the
    first element that passes it afterwards. *)
Local Abbreviation found_after before after :=
  (match head (List.filter pred before) with
   | Some t =>
       exists t' w, head (List.filter pred after) = Some t' /\ (visit_4_13 t w).1 = [t']
   | None => head (List.filter pred after) = None
   end).

Lemma found_after_list cs :
  Forall (fun c => forall w,
            found_after (c :: descendants c)
              (concat (List.map (fun c => c :: descendants c) (visit_4_13 c w).1))) cs ->
  forall w,
    found_after (concat (List.map (fun c => c :: descendants c) cs))
      (concat (List.map (fun c => c :: descendants c) (visit_list_4_13 cs w).1)).
Proof.
  induction 1 as [|c r Hc _ IHr]; intros w; [reflexivity|].
  rewrite FormatMoreFacts.visit_list_4_13_cons, first_among_cons. specialize (Hc w).
  destruct (visit_4_13 c w) as [c' w1]. specialize (IHr w1).
  destruct (visit_list_4_13 r w1) as [r' w2]. cbn [fst] in *.
  rewrite first_among_app.
  destruct (head (List.filter pred (c :: descendants c))) as [t|].
  - destruct Hc as (t' & w' & -> & Ht). eauto.
  - rewrite Hc. exact IHr.
Qed.

Lemma found_after_visit e :
  forall w,
    found_after (e :: descendants e)
      (concat (List.map (fun c => c :: descendants c) (visit_4_13 e w).1)).
Proof.
  induction e as [k s|p nm a cs IH] using node_ind_nested; intros [|old].
  - cbn [descendants List.filter]. rewrite pred_Str. cbn [visit_4_13 head].
    destruct (in_destroy (Str k s)); [reflexivity|].
    destruct (in_strip (Str k s)); cbn [fst List.map concat descendants app List.filter];
      rewrite pred_Str; reflexivity.
  - cbn [descendants List.filter visit_4_13 fst List.map concat app].
    rewrite pred_Str. reflexivity.
  - rewrite FormatMoreFacts.visit_4_13_Tag. destruct (restring cs) as [new|] eqn:R.
    + apply FormatFacts.restring_Some in R as (k & s & c & r & -> & -> & _).
      cbn [fst List.map concat descendants app List.filter].
      rewrite !pred_Str, (pred_shape (clear_kml p) p nm a _ [Str k (String c r)]).
      destruct (pred (Tag p nm a [Str k (String c r)])); cbn [head]; [|reflexivity].
      eexists _, Going. split; [reflexivity|].
      rewrite FormatMoreFacts.visit_4_13_Tag, FormatFacts.restring_Str. reflexivity.
    + pose proof (found_after_list cs IH Going) as E.
      destruct (visit_list_4_13 cs Going) as [cs' w'] eqn:Ev. cbn [fst] in *.
      cbv beta iota. cbn [fst].
      rewrite first_among_one. cbn [List.filter].
      rewrite (pred_shape (clear_kml p) p nm a cs' cs), !descendants_Tag.
      destruct (pred (Tag p nm a cs)); cbn [head]; [|exact E].
      eexists _, Going. split; [reflexivity|].
      rewrite FormatMoreFacts.visit_4_13_Tag, R, Ev. reflexivity.
  - rewrite FormatMoreFacts.visit_4_13_Ended. cbn [fst]. rewrite first_among_one.
    destruct (head (List.filter pred (Tag p nm a cs :: descendants (Tag p nm a cs))))
      as [t|]; [|reflexivity].
    exists t, (Ended old). split; [reflexivity|].
    rewrite FormatMoreFacts.visit_4_13_Ended. reflexivity.
Qed.

End found_after_4_13.

(** What the walk leaves of a tag is one tag of the same name and
    attributes. *)
Lemma visit_4_13_tag p nm a cs w :
  exists p' cs', (visit_4_13 (Tag p nm a cs) w).1 = [Tag p' nm a cs'].
Proof.
  destruct w as [|old]; [|eexists _, _; reflexivity].
  rewrite FormatMoreFacts.visit_4_13_Tag. destruct (restring cs) as [new|].
  - eexists _, _. reflexivity.
  - destruct (visit_list_4_13 cs Going) as [cs' w']. eexists _, _. reflexivity.
Qed.

(** After the walk the [.string] of a tag is its [.string] of before, as
    it was or trimmed. *)
Lemma string_of_visit_4_13 (t : node) :
  forall (k : strkind) (s : string) w t',
    is_tag t = true -> string_of t = Some (k, s) -> (visit_4_13 t w).1 = [t'] ->
    exists k' s', string_of t' = Some (k', s') /\ strip s' = strip s.
Proof.
  induction t as [k0 s0|p nm a cs IH] using node_ind_nested;
    intros k s w t' T H; [discriminate|].
  destruct cs as [|c [|c' r]]; try discriminate.
  destruct w as [|old]; [|intros [= <-]; eauto].
  rewrite FormatMoreFacts.visit_4_13_Tag. destruct c as [k0 s0|p0 nm0 a0 cs0].
  - cbn [string_of] in H. injection H as -> ->.
    rewrite FormatFacts.restring_Str. destruct s as [|c0 r0].
    + cbn. intros [= <-]. eauto.
    + intros [= <-]. cbn [string_of]. eexists _, _. split; [reflexivity|].
      apply strip_idem.
  - change (string_of (Tag p nm a [Tag p0 nm0 a0 cs0]))
      with (string_of (Tag p0 nm0 a0 cs0)) in H.
    inversion_clear IH as [|? ? IHc _].
    cbn [restring]. rewrite FormatMoreFacts.visit_list_4_13_cons.
    destruct (visit_4_13_tag p0 nm0 a0 cs0 Going) as (p' & cs' & E).
    specialize (IHc k s Going _ eq_refl H E).
    destruct (visit_4_13 (Tag p0 nm0 a0 cs0) Going) as [c1 w1]. cbn [fst] in E. subst c1.
    cbn [visit_list_4_13 app]. intros [= <-]. exact IHc.
Qed.

Lemma get_data_after_4_13 (soup soup' : node) (nm : string) (v : data) :
  get_data soup (NStr nm) = Ok v ->
  format_4_13 soup false = Ok soup' ->
  get_data soup' (NStr nm) = Ok v.
Proof.
  destruct soup as [k s|p tn a cs]; [intros H [= <-]; exact H|].
  unfold format_4_13.
  pose proof (found_after_list (is_data_named nm) cs) as E.
  destruct (visit_list_4_13 cs Going) as [cs' w] eqn:Ev.
  specialize (E ltac:(apply Forall_forall; intros c _ w0;
                      apply found_after_visit; [reflexivity|reflexivity]) Going).
  rewrite Ev in E. cbn [fst] in E.
  intros H Hret.
  assert (Hsoup : soup' = Tag p tn a cs').
  { destruct w as [|old]; [congruence|]. destruct (in_strip old); congruence. }
  subst soup'. clear Hret. revert H. cbn [get_data]. unfold find at 1 3, find_all.
  rewrite !descendants_Tag.
  destruct (head (List.filter (is_data_named nm)
                    (concat (List.map (fun c => c :: descendants c) cs)))) as [val|] eqn:Eval;
    [|discriminate].
  destruct E as (val' & w' & -> & Hval).
  assert (Tval : exists pv nv av csv, val = Tag pv nv av csv).
  { apply head_Some_elem_of, list_elem_of_In, filter_In in Eval as [_ Hp].
    destruct val; [discriminate|eauto]. }
  destruct Tval as (pv & nv & av & csv & ->).
  destruct (visit_4_13_tag pv nv av csv w') as (pv' & csv' & Hshape).
  assert (val' = Tag pv' nv av csv') as -> by congruence.
  change (named "Data" (Tag pv' nv av csv')) with (named "Data" (Tag pv nv av csv)).
  destruct (named "Data" (Tag pv nv av csv)) eqn:Ed.
  - pose proof (found_after_visit (named "value") (fun _ _ => eq_refl)
                  (fun _ _ _ _ _ _ => eq_refl) (Tag pv nv av csv) w') as F.
    rewrite Hval, first_among_one in F. cbn [List.filter] in F.
    change (named "value" (Tag pv' nv av csv')) with (named "value" (Tag pv nv av csv)) in F.
    assert (Ev' : named "value" (Tag pv nv av csv) = false).
    { cbn [named] in Ed |- *. apply String.eqb_eq in Ed. subst nv. reflexivity. }
    rewrite Ev' in F. unfold find, find_all.
    destruct (head (List.filter (named "value") (descendants (Tag pv nv av csv))))
      as [t|] eqn:Et; [|discriminate].
    destruct F as (t' & w'' & -> & Ht).
    cbn [or_raise mbind result_bind Py.bind].
    assert (Tt : is_tag t = true).
    { apply head_Some_elem_of, list_elem_of_In, filter_In in Et as [_ Hp].
      destruct t; [discriminate|reflexivity]. }
    destruct (string_of t) as [[k s]|] eqn:Es; [|discriminate].
    destruct (string_of_visit_4_13 t k s w'' t' Tt Es Ht) as (k' & s' & -> & Hs).
    cbn [or_raise mbind result_bind Py.bind]. intros [= <-]. rewrite Hs. reflexivity.
  - cbn [mbind result_bind Py.bind].
    destruct (string_of (Tag pv nv av csv)) as [[k s]|] eqn:Es; [|discriminate].
    destruct (string_of_visit_4_13 (Tag pv nv av csv) k s w' _ eq_refl Es Hval)
      as (k' & s' & -> & Hs).
    cbn [or_raise mbind result_bind Py.bind]. intros [= <-]. rewrite Hs. reflexivity.
Qed.

(** X9.  Formatting a document does not change what [get_data] reads from
    it: a value [get_data] returns for the document is the value it returns
    for the document [formatted] returns, under either bs4; under bs4 4.12
    and before [formatted] always returns. *)
Theorem get_data_after_formatted (soup : node) (nm : string) (d : data) :
  get_data soup (NStr nm) = Ok d ->
  (exists soup', formatted Bs4_12 soup = Ok soup') /\
  (forall v soup', formatted v soup = Ok soup' -> get_data soup' (NStr nm) = Ok d).
Proof.
  intros H. split; [eexists; reflexivity|]. intros [|] soup'; unfold formatted, format.
  - intros [= <-]. apply get_data_after_4_12, H.
  - apply get_data_after_4_13, H.
Qed.

Lemma get_data_after_formatted_witness :
  let soup :=
    Tag None "[document]" []
      [Str NavigableString " ";
       Tag (Some "kml") "Placemark" []
         [Tag None "Data" [("name", "pop")]
            [Str NavigableString " "; Tag None "value" [] [Str NavigableString "12"]];
          Tag None "description" [] [Str NavigableString " y "]]] in
  get_data soup (NStr "pop") = Ok (DStr "12") /\
  formatted Bs4_13 soup
  = Ok (Tag None "[document]" []
          [Tag None "Placemark" []
             [Tag None "Data" [("name", "pop")]
                [Tag None "value" [] [Str NavigableString "12"]];
              Tag None "description" [] [Str NavigableString " y "]]]) /\
  (exists soup', formatted Bs4_12 soup = Ok soup') /\
  (forall v soup', formatted v soup = Ok soup' ->
                   get_data soup' (NStr "pop") = Ok (DStr "12")).
Proof.
  split; [reflexivity|]. split; [reflexivity|].
  apply get_data_after_formatted. reflexivity.
Defined.

End AccessMoreFacts.

(** ** What [add] builds *)

Module AddFacts.
Import Access AccessSpec ColorSpec.






Lemma update_appended f p nm a cs x q :
  update f (Tag p nm a (cs ++ [x])) (length cs :: q) = Tag p nm a (cs ++ [update f x q]).
Proof.
  cbn [update]. f_equal.
  rewrite alter_app_r_alt by lia. rewrite Nat.sub_diag. reflexivity.
Qed.

Lemma add_NStr (doc : node) (tag : path) (n : string) p nm a cs :
  get doc tag = Some (Tag p nm a cs) ->
  add doc tag (NStr n) (Some [])
  = Ok (update (fun _ => Tag p nm a (cs ++ chain [n])) doc tag, tag ++ deepest (length cs) [n]).
Proof.
  intros H. cbn [add soup_new_tag mbind result_bind Py.bind]. rewrite H. do 2 f_equal.
  apply update_ext. intros m Hm. rewrite H in Hm. injection Hm as <-. reflexivity.
Qed.






End AddFacts.

(** ** [coords_from_tag] *)

Section comprehension_facts.
Context {A B : Type}.
Implicit Types (f : A -> result B) (l : list A).

Lemma comprehension_Ok f l ys :
  comprehension f l = Ok ys -> Forall2 (fun x y => f x = Ok y) l ys.
Proof.
  revert ys. induction l as [|x l IH]; intros ys; cbn [comprehension].
  - intros [= <-]. constructor.
  - destruct (f x) as [y|e] eqn:E; [|discriminate]. cbn [Py.bind].
    destruct (comprehension f l) as [ys'|e]; [|discriminate]. cbn [Py.bind].
    intros [= <-]. constructor; [exact E|]. apply IH. reflexivity.
Qed.

(** When every failure of [f] is the exception [e], and [f] fails
    somewhere in [l], the comprehension raises [e]. *)
Lemma comprehension_Raise f l e x :
  (forall x' e', In x' l -> f x' = Raise e' -> e' = e) ->
  In x l -> f x = Raise e -> comprehension f l = Raise e.
Proof.
  intros Hall. induction l as [|x' l IH]; intros Hin Hx; [destruct Hin|].
  cbn [comprehension]. destruct (f x') as [y|e'] eqn:E; cbn [Py.bind].
  - destruct Hin as [->|Hin]; [congruence|].
    rewrite IH; [reflexivity| |exact Hin|exact Hx].
    intros x'' e'' Hin''. apply Hall. right. exact Hin''.
  - f_equal. apply (Hall x' e'); [left; reflexivity|exact E].
Qed.

End comprehension_facts.

Module CoordFacts.
Import Access AccessSpec.

Lemma all_space_strip (s : string) : all_space s = true -> strip s = EmptyString.
Proof.
  unfold strip. intros H. assert (E : lstrip s = EmptyString).
  { induction s as [|c s IH]; [reflexivity|]. cbn [all_space] in H.
    apply andb_true_iff in H as [Hc Hs]. cbn [lstrip]. rewrite Hc. apply IH, Hs. }
  rewrite E. reflexivity.
Qed.

Section coordinates.
Variable float : Type.
Variable parse_float : string -> option float.

Local Abbreviation coords_from_tag := (coords_from_tag float parse_float).
Local Abbreviation not_a_float := (ValueError "could not convert string to float").

Lemma parse_all (ps : list string) (dims : list float) :
  comprehension (fun dim => or_raise (parse_float dim) not_a_float) ps = Ok dims ->
  List.map parse_float ps = List.map Some dims.
Proof.
  intros H%comprehension_Ok. induction H as [|dim x ps dims Hx _ IH]; [reflexivity|].
  cbn [List.map]. rewrite IH. f_equal.
  destruct (parse_float dim); [injection Hx as ->; reflexivity|discriminate].
Qed.

Lemma map_take_Some (n : nat) (ps : list string) (dims : list float) :
  List.map parse_float ps = List.map Some dims ->
  List.map parse_float (take n ps) = List.map Some (take n dims).
Proof.
  revert n dims. induction ps as [|p ps IH]; intros n [|d dims] H; try discriminate.
  - destruct n; reflexivity.
  - destruct n as [|n]; [reflexivity|]. cbn [take List.map] in *.
    injection H as Hd Hr. rewrite Hd, (IH n dims Hr). reflexivity.
Qed.

(** X11.  When [coords_from_tag] returns, it returns one tuple for each
    whitespace-separated chunk of the tag's text, in order, and the tuple
    holds the floats of the chunk's first [first_n_coords] comma-separated
    pieces (of all its pieces when it has fewer). *)
Theorem coords_from_tag_tuples (tag : node) (k : strkind) (s : string)
    (first_n_coords : nat) (l : list (list float)) :
  string_of tag = Some (k, s) ->
  coords_from_tag (Some tag) first_n_coords = Ok l ->
  Forall2 (fun ps tuple =>
             List.map parse_float (take first_n_coords ps) = List.map Some tuple)
    (pieces s) l.
Proof.
  intros Hs. unfold Access.coords_from_tag. cbn [or_raise mbind result_bind Py.bind].
  rewrite Hs. cbn [or_raise Py.bind]. intros H%comprehension_Ok.
  unfold pieces. apply Forall2_fmap_l.
  eapply Forall2_impl; [exact H|]. cbn beta. intros chunk tuple.
  destruct (comprehension _ (split_on "," chunk)) as [dims|e] eqn:E; [|discriminate].
  cbn [Py.bind]. intros [= <-]. apply map_take_Some, parse_all, E.
Qed.

(** X12.  Every piece of every chunk is converted before the tuple is cut to
    its first [first_n_coords] entries: one piece anywhere that is not a
    float makes the call raise [ValueError], also when the piece lies
    beyond the entries that would be kept. *)
Theorem coords_from_tag_malformed (tag : node) (k : strkind) (s : string)
    (first_n_coords : nat) (ps : list string) (dim : string) :
  string_of tag = Some (k, s) ->
  In ps (pieces s) -> In dim ps -> parse_float dim = None ->
  coords_from_tag (Some tag) first_n_coords = Raise not_a_float.
Proof.
  intros Hs Hps Hdim Hnone. unfold Access.coords_from_tag.
  cbn [or_raise mbind result_bind Py.bind]. rewrite Hs. cbn [or_raise Py.bind].
  unfold pieces in Hps. apply in_map_iff in Hps as (chunk & <- & Hchunk).
  assert (Hin : forall ps',
             (exists e, comprehension
                          (fun dim => or_raise (parse_float dim) not_a_float) ps' = Raise e) ->
             comprehension (fun dim => or_raise (parse_float dim) not_a_float) ps'
             = Raise not_a_float).
  { intros ps'. induction ps' as [|d r IH]; intros (e & He); [discriminate|].
    cbn [comprehension] in *. destruct (parse_float d); cbn [or_raise Py.bind] in *;
      [|reflexivity].
    destruct (comprehension _ r) as [ys|e'] eqn:Er; [discriminate|].
    rewrite IH by eauto. reflexivity. }
  apply (comprehension_Raise _ _ _ chunk); [|exact Hchunk|].
  - intros chunk' e' _.
    destruct (comprehension _ (split_on "," chunk')) as [dims|e''] eqn:E;
      [discriminate|].
    rewrite Hin in E by eauto. injection E as <-.
    cbn [mbind result_bind Py.bind]. congruence.
  - rewrite (comprehension_Raise _ _ not_a_float dim); [reflexivity| |exact Hdim|].
    + intros d e' _. destruct (parse_float d); [discriminate|]. cbn. congruence.
    + rewrite Hnone. reflexivity.
Qed.

End coordinates.

Lemma coords_from_tag_tuples_witness :
  Forall2 (fun ps tuple =>
             List.map Double.parse_float (take 2 ps) = List.map Some tuple)
    (pieces " 1,2,0  3,4 ") [[1; 2]; [3; 4]]%Z.
Proof.
  apply (coords_from_tag_tuples Z Double.parse_float
           (Double.text_tag "coordinates" " 1,2,0  3,4 ") NavigableString _ 2);
    reflexivity.
Defined.

Lemma coords_from_tag_malformed_witness :
  coords_from_tag Z Double.parse_float
    (Some (Double.text_tag "coordinates" "1,2,up 3,4")) 2
  = Raise (ValueError "could not convert string to float").
Proof.
  apply (coords_from_tag_malformed Z Double.parse_float _ NavigableString
           "1,2,up 3,4" 2 ["1"; "2"; "up"] "up").
  - reflexivity.
  - left. reflexivity.
  - right. right. left. reflexivity.
  - reflexivity.
Defined.

End CoordFacts.

(** ** More about the spatial index *)

Module SpatialMoreFacts.
Import Access Spatial SpatialSpec.

Section collaborators.
Variable float : Type.
Variable parse_float : string -> option float.
Variable get_cell get_cells_1d get_cells_2d : points float -> Z -> kwargs -> gset cell.

Local Abbreviation _spatial_index :=
  (_spatial_index float parse_float get_cell get_cells_1d get_cells_2d).
Local Abbreviation spatial_index :=
  (spatial_index float parse_float get_cell get_cells_1d get_cells_2d).
Local Abbreviation _spdx_mg :=
  (_spdx_mg float parse_float get_cell get_cells_1d get_cells_2d).
Local Abbreviation _spdx_pt :=
  (_spdx_pt float parse_float get_cell get_cells_1d get_cells_2d).
Local Abbreviation _spdx_ls :=
  (_spdx_ls float parse_float get_cell get_cells_1d get_cells_2d).
Local Abbreviation mg_body :=
  (mg_body float parse_float get_cell get_cells_1d get_cells_2d).
Local Abbreviation geometry_names :=
  (geometry_names float parse_float get_cell get_cells_1d get_cells_2d).
Local Abbreviation geometry_cells :=
  (geometry_cells float parse_float get_cell get_cells_1d get_cells_2d).
Local Abbreviation coordinates_of := (coordinates_of float parse_float).
Local Abbreviation covers :=
  (covers float parse_float get_cell get_cells_1d get_cells_2d).

(** *** [_spdx_mg] *)

Lemma mg_body_eq (scale : Z) (cells : gset cell) (geom : node) :
  mg_body scale cells geom =
  Py.bind (geometry_cells geom scale) (fun found => Ok (cells ∪ found)).
Proof.
  unfold Spatial.mg_body, SpatialSpec.geometry_cells.
  destruct (or_raise (tag_name geom) AttributeError) as [nm|e]; [|reflexivity].
  cbn [mbind result_bind Py.bind].
  destruct (tag_function float parse_float get_cell get_cells_1d get_cells_2d nm);
    reflexivity.
Qed.

Lemma mg_for_each (scale : Z) (l : list node) (cells : gset cell) :
  for_each (mg_body scale) l cells =
  Py.bind (comprehension (fun geom => geometry_cells geom scale) l)
    (fun founds => Ok (cells ∪ ⋃ founds)).
Proof.
  revert cells. induction l as [|g r IH]; intros cells.
  - cbn [for_each comprehension Py.bind union_list foldr].
    rewrite (right_id_L ∅ (∪)). reflexivity.
  - cbn [for_each comprehension]. rewrite mg_body_eq.
    destruct (geometry_cells g scale) as [found|e]; [|reflexivity].
    cbn [Py.bind]. rewrite IH.
    destruct (comprehension _ r) as [founds|e]; [|reflexivity].
    cbn [Py.bind union_list foldr]. rewrite (assoc_L (∪)). reflexivity.
Qed.

(** X14.  [_spdx_mg] returns the union of the cells of every Point, LineString,
    Polygon and MultiGeometry at any depth below the tag, each computed by
    its own function of [_TAG_TO_FUNCTION]; without any such tag below it
    that is the empty set.  It raises what the first of them, in document
    order, raises. *)
Theorem _spdx_mg_union (mg : node) (scale : Z) :
  _spdx_mg mg scale =
  Py.bind
    (comprehension (fun geom => geometry_cells geom scale)
       (find_all (named_in geometry_names) mg))
    (fun founds => Ok (⋃ founds)).
Proof.
  rewrite SpatialFacts._spdx_mg_unfold, mg_for_each.
  destruct (comprehension _ _) as [founds|e]; [|reflexivity].
  cbn [Py.bind]. rewrite (left_id_L ∅ (∪)). reflexivity.
Qed.

(** *** Blank coordinates *)

(** X13.  A [coordinates] tag whose text is empty or all whitespace gives no
    coordinate at all.  For a Point that is an [IndexError], since
    [_spdx_pt] takes the first coordinate; for a LineString it is not an
    error, and [_spdx_ls] asks [get_cells_1d] for the cells of an empty
    list of points. *)
Theorem blank_coordinates (geom tag : node) (k : strkind) (s : string) (scale : Z) :
  find (named "coordinates") geom = Some tag ->
  string_of tag = Some (k, s) ->
  all_space s = true ->
  coordinates_of geom = Ok [] /\
  _spdx_pt geom scale = Raise IndexError /\
  _spdx_ls geom scale = Ok (get_cells_1d (Points []) scale None).
Proof.
  intros Hfind Hs Hblank.
  assert (E : coordinates_of geom = Ok []).
  { unfold Spatial.coordinates_of, Access.coords_from_tag. rewrite Hfind.
    cbn [or_raise mbind result_bind Py.bind]. rewrite Hs.
    cbn [or_raise mbind result_bind Py.bind].
    rewrite (CoordFacts.all_space_strip s Hblank). reflexivity. }
  split; [exact E|]. split.
  - unfold Spatial._spdx_pt. fold coordinates_of. rewrite E. reflexivity.
  - unfold Spatial._spdx_ls. fold coordinates_of. rewrite E. reflexivity.
Qed.

(** *** The index inverts the cells of the placemarks *)

Lemma add_to_index_lookup (i : nat) (cells : gset cell)
    (index : gmap cell (gset nat)) (c : cell) :
  add_to_index i cells index !! c =
  if decide (c ∈ cells) then Some ({[i]} ∪ default ∅ (index !! c)) else index !! c.
Proof.
  unfold add_to_index, set_fold. cbn [compose].
  assert (H : forall l : list cell,
             foldr (fun c idx => <[c := {[i]} ∪ default ∅ (idx !! c)]> idx) index l !! c =
             if decide (c ∈ l) then Some ({[i]} ∪ default ∅ (index !! c))
             else index !! c).
  { induction l as [|x l IH]; cbn [foldr].
    - rewrite decide_False by apply not_elem_of_nil. reflexivity.
    - destruct (decide (c = x)) as [->|Hne].
      + rewrite lookup_insert_eq, decide_True by apply list_elem_of_here.
        rewrite IH. destruct (decide (x ∈ l)); [|reflexivity].
        cbn [from_option id Datatypes.id]. rewrite (assoc_L (∪)), (idemp_L (∪)). reflexivity.
      + rewrite lookup_insert_ne by congruence. rewrite IH.
        destruct (decide (c ∈ l)) as [Hin|Hin].
        * rewrite decide_True by (apply list_elem_of_further, Hin). reflexivity.
        * rewrite decide_False; [reflexivity|].
          intros [E|Hin']%elem_of_cons; [congruence|exact (Hin Hin')]. }
  rewrite H. destruct (decide (c ∈ cells)) as [Hin|Hin].
  - rewrite decide_True by (apply elem_of_elements, Hin). reflexivity.
  - rewrite decide_False; [reflexivity|]. rewrite elem_of_elements. exact Hin.
Qed.

Lemma index_loop (scale : Z) (pms : list node) :
  forall (k : nat) (index0 index : gmap cell (gset nat)),
    for_each
      (fun index '(i, pm) =>
         cells ← _spatial_index pm scale;
         Ok (add_to_index i cells index))
      (combine (seq k (length pms)) pms) index0 = Ok index ->
    (forall c i,
        i ∈ default ∅ (index !! c) <->
        i ∈ default ∅ (index0 !! c) \/
        exists pm cells,
          ((k <= i)%nat /\ pms !! (i - k)%nat = Some pm) /\
          _spatial_index pm scale = Ok cells /\ c ∈ cells) /\
    ((forall c pool, index0 !! c = Some pool -> pool <> ∅) ->
     forall c pool, index !! c = Some pool -> pool <> ∅).
Proof.
  induction pms as [|pm r IH]; intros k index0 index.
  - intros [= <-]. split; [|auto]. intros c i. split; [auto|].
    intros [H|(pm & cells & [_ H] & _)]; [exact H|discriminate].
  - cbn [length seq combine for_each].
    destruct (_spatial_index pm scale) as [cells|e] eqn:E; [|discriminate].
    cbn [mbind result_bind Py.bind]. intros H.
    destruct (IH _ _ _ H) as [IH1 IH2]. clear IH H. split.
    + intros c i. rewrite IH1, add_to_index_lookup. clear IH1 IH2. split.
      * intros [H|(pm' & cells' & [Hle Hpm'] & Hcells' & Hc)].
        -- destruct (decide (c ∈ cells)) as [Hin|Hin]; [|left; exact H].
           cbn [from_option id Datatypes.id] in H. apply elem_of_union in H as [->%elem_of_singleton|H];
             [|left; exact H].
           right. exists pm, cells. rewrite Nat.sub_diag. auto.
        -- right. exists pm', cells'. split; [|auto]. split; [lia|].
           replace (i - k)%nat with (S (i - S k)) by lia. exact Hpm'.
      * intros [H|(pm' & cells' & [Hle Hpm'] & Hcells' & Hc)].
        -- left. destruct (decide (c ∈ cells)); [|exact H].
           cbn [from_option id Datatypes.id]. apply elem_of_union. right. exact H.
        -- destruct (decide (i = k)) as [->|Hne].
           ++ rewrite Nat.sub_diag in Hpm'. injection Hpm' as <-.
              rewrite E in Hcells'. injection Hcells' as <-.
              left. rewrite decide_True by exact Hc. cbn [from_option id Datatypes.id].
              apply elem_of_union. left. apply elem_of_singleton. reflexivity.
           ++ right. exists pm', cells'. split; [|auto]. split; [lia|].
              replace (i - k)%nat with (S (i - S k)) in Hpm' by lia. exact Hpm'.
    + intros H0. apply IH2. intros c pool. rewrite add_to_index_lookup.
      destruct (decide (c ∈ cells)); [|apply H0].
      intros [= <-]. set_solver.
Qed.

(** X15.  The index [spatial_index] returns is the inverse of the placemarks'
    cells: the set at a cell holds exactly the positions, in document
    order, of the placemarks whose cells include it, and no cell of the
    index has an empty set. *)
Theorem spatial_index_inverts (soup : node) (scale : Z)
    (index : gmap cell (gset nat)) :
  spatial_index soup scale = Ok index ->
  (forall c i, i ∈ default ∅ (index !! c) <-> covers soup scale c i) /\
  (forall c pool, index !! c = Some pool -> pool <> ∅).
Proof.
  unfold Spatial.spatial_index, enumerate. intros H.
  destruct (index_loop scale _ 0 ∅ index H) as [H1 H2]. split.
  - intros c i. rewrite H1, lookup_empty. cbn [from_option id Datatypes.id]. unfold SpatialSpec.covers.
    split.
    + intros [Hin|(pm & cells & [_ Hpm] & Hrest)]; [set_solver|].
      rewrite Nat.sub_0_r in Hpm. eauto.
    + intros (pm & cells & Hpm & Hrest). right. exists pm, cells.
      rewrite Nat.sub_0_r. split; [split; [lia|exact Hpm]|exact Hrest].
  - apply H2. intros c pool. rewrite lookup_empty. discriminate.
Qed.

(** X16.  The counts of an index [spatial_index] has built lie between 1 and
    the number of placemarks of the document, and so do the least and the
    greatest count [spatial_index_stats] reports for it. *)
Theorem stats_of_spatial_index (soup : node) (scale : Z)
    (index : gmap cell (gset nat)) (r : stats_result) :
  spatial_index soup scale = Ok index ->
  spatial_index_stats index = Ok r ->
  let n := Z.of_nat (length (find_all (named "Placemark") soup)) in
  Forall (fun count => (1 <= count <= n)%Z) (data r) /\
  (1 <= stat_min r)%Z /\ (stat_max r <= n)%Z.
Proof.
  intros Hindex Hstats n.
  unfold Spatial.spatial_index, enumerate in Hindex.
  destruct (index_loop scale _ 0 ∅ index Hindex) as [Hcov Hne].
  assert (Hne' : forall c pool, index !! c = Some pool -> pool <> ∅).
  { apply Hne. intros c pool. rewrite lookup_empty. discriminate. }
  assert (Hcounts : Forall (fun count => (1 <= count <= n)%Z) (counts index)).
  { unfold counts. apply Forall_forall. intros count Hin%list_elem_of_In.
    apply in_map_iff in Hin as ([c pool] & <- & Hin).
    apply list_elem_of_In, elem_of_map_to_list in Hin. cbn [snd]. split.
    - assert (size pool <> 0)%nat; [|lia].
      intros E%size_empty_inv. apply (Hne' c pool Hin). apply leibniz_equiv, E.
    - assert (Hsub : pool ⊆ set_seq 0 (length (find_all (named "Placemark") soup))).
      { intros i Hi. apply elem_of_set_seq. split; [lia|].
        assert (Hc : i ∈ default ∅ (index !! c)) by (rewrite Hin; exact Hi).
        apply Hcov in Hc as [Hc|(pm & cells & [_ Hpm] & _)].
        - rewrite lookup_empty in Hc. cbn in Hc. set_solver.
        - apply lookup_lt_Some in Hpm. cbn. lia. }
      apply subseteq_size in Hsub. rewrite size_set_seq in Hsub. unfold n. lia. }
  assert (Hnonempty : counts index <> []).
  { intros E. unfold spatial_index_stats in Hstats. rewrite E in Hstats. discriminate. }
  destruct (StatsFacts.stats_from_spec (counts index) Hnonempty) as (r' & Hr' & Hd).
  unfold spatial_index_stats in Hstats. rewrite Hstats in Hr'. injection Hr' as <-.
  destruct Hd as (Hdata & _ & _ & [Hmin _] & [Hmax _] & _).
  rewrite Forall_forall in Hcounts. split; [|split].
  - rewrite Hdata. apply Forall_forall. exact Hcounts.
  - apply (Hcounts _ (proj2 (list_elem_of_In _ _) Hmin)).
  - apply (Hcounts _ (proj2 (list_elem_of_In _ _) Hmax)).
Qed.

End collaborators.

Import Double.

Lemma blank_coordinates_witness :
  let geom := Tag None "Point" [] [text_tag "coordinates" "  "] in
  coordinates_of Z parse_float geom = Ok [] /\
  _spdx_pt Z parse_float get_cell get_cells_1d get_cells_2d geom 16 = Raise IndexError /\
  _spdx_ls Z parse_float get_cell get_cells_1d get_cells_2d geom 16
  = Ok (get_cells_1d (Points []) 16 None).
Proof.
  cbv zeta.
  apply (blank_coordinates Z parse_float get_cell get_cells_1d get_cells_2d
           (Tag None "Point" [] [text_tag "coordinates" "  "])
           (text_tag "coordinates" "  ") NavigableString "  " 16); reflexivity.
Defined.

Lemma spatial_index_inverts_witness :
  let soup := Tag None "[document]" [] [point_placemark; point_placemark] in
  let index : gmap cell (gset nat) := {[ (2, 3)%Z := {[0%nat; 1%nat]} ]} in
  spatial_index Z parse_float get_cell get_cells_1d get_cells_2d soup 16 = Ok index /\
  (forall c i,
      i ∈ default ∅ (index !! c) <->
      covers Z parse_float get_cell get_cells_1d get_cells_2d soup 16 c i) /\
  (forall c pool, index !! c = Some pool -> pool <> ∅).
Proof.
  cbv zeta. split; [vm_compute; reflexivity|].
  apply (spatial_index_inverts Z parse_float get_cell get_cells_1d get_cells_2d).
  vm_compute. reflexivity.
Defined.

Lemma stats_of_spatial_index_witness :
  let soup := Tag None "[document]" [] [point_placemark; point_placemark] in
  let index : gmap cell (gset nat) := {[ (2, 3)%Z := {[0%nat; 1%nat]} ]} in
  exists r,
    spatial_index_stats index = Ok r /\
    Forall (fun count => (1 <= count <= 2)%Z) (data r) /\
    (1 <= stat_min r)%Z /\ (stat_max r <= 2)%Z.
Proof.
  cbv zeta. eexists. split; [reflexivity|].
  apply (stats_of_spatial_index Z parse_float get_cell get_cells_1d get_cells_2d
           (Tag None "[document]" [] [point_placemark; point_placemark]) 16
           {[ (2, 3)%Z := {[0%nat; 1%nat]} ]}).
  - vm_compute. reflexivity.
  - reflexivity.
Defined.

End SpatialMoreFacts.

(** ** More about [spatial_index_stats] *)

Module StatsMoreFacts.
Import Spatial SpatialSpec.

Lemma counts_nil (index : gmap cell (gset nat)) : counts index = [] <-> index = ∅.
Proof.
  unfold counts. split.
  - intros E. apply map_eq_nil in E. apply map_to_list_empty_iff, E.
  - intros ->. rewrite map_to_list_empty. reflexivity.
Qed.

(** X17.  [spatial_index_stats] raises [ZeroDivisionError] exactly when the
    index is empty; that is the error of the division of line 339, which
    comes before [min] and [max] are asked for. *)
Theorem spatial_index_stats_empty (index : gmap cell (gset nat)) :
  spatial_index_stats index = Raise ZeroDivisionError <-> index = ∅.
Proof.
  split.
  - intros H. destruct (decide (index = ∅)) as [E|Hne]; [exact E|]. exfalso.
    destruct (StatsFacts.stats_from_spec (counts index)) as (r & Hr & _).
    + rewrite counts_nil. exact Hne.
    + unfold spatial_index_stats in H. congruence.
  - intros ->. unfold spatial_index_stats. rewrite (proj2 (counts_nil ∅) eq_refl).
    reflexivity.
Qed.

Lemma fold_add_bounds (lo hi : Z) (l : list Z) (a : Z) :
  Forall (fun x => (lo <= x <= hi)%Z) l ->
  (a + lo * Z.of_nat (length l) <= fold_left Z.add l a <= a + hi * Z.of_nat (length l))%Z.
Proof.
  intros H. revert a. induction H as [|x l Hx Hl IH]; intros a; cbn [fold_left length].
  - lia.
  - specialize (IH (a + x)%Z). lia.
Qed.

Lemma Permutation_in_stats (s stats : list Z) (i : nat) (m : Z) :
  s ≡ₚ stats -> nth_error s i = Some m -> In m stats.
Proof.
  intros Hp Hm. apply list_elem_of_In. rewrite <- Hp. apply list_elem_of_In.
  eapply nth_error_In, Hm.
Qed.

(** X18.  Whenever [spatial_index_stats] returns, the least count is at most
    the greatest, the mean and the median lie between the two, the range is
    not negative and neither is the deviation. *)
Theorem spatial_index_stats_bounds (index : gmap cell (gset nat)) (r : stats_result) :
  spatial_index_stats index = Ok r ->
  (stat_min r <= stat_max r)%Z /\
  (inject_Z (stat_min r) <= avg r)%Q /\ (avg r <= inject_Z (stat_max r))%Q /\
  median_within (stat_min r) (stat_max r) (median r) /\
  (0 <= stat_range r)%Z /\ (0 <= stdev r)%R.
Proof.
  intros Hstats.
  assert (Hne : counts index <> []).
  { intros E. unfold spatial_index_stats in Hstats. rewrite E in Hstats. discriminate. }
  destruct (StatsFacts.stats_from_spec (counts index) Hne) as (r' & Hr' & Hd).
  unfold spatial_index_stats in Hstats. rewrite Hstats in Hr'. injection Hr' as <-.
  set (stats := counts index) in *.
  destruct Hd as (_ & Havg & (v & _ & Hdev & _) & [Hmin Hlo] & [Hmax Hhi] & Hrange
                  & [_ Hperm] & Hodd & Heven).
  assert (Hbounds : Forall (fun x => (stat_min r <= x <= stat_max r)%Z) stats).
  { rewrite Forall_forall in Hlo, Hhi. apply Forall_forall. intros x Hx.
    split; [apply Hlo, Hx|apply Hhi, Hx]. }
  assert (Hle : (stat_min r <= stat_max r)%Z).
  { rewrite Forall_forall in Hlo. apply Hlo, list_elem_of_In, Hmax. }
  assert (Hin : forall i m, nth_error (sorted_Z stats) i = Some m ->
                            (stat_min r <= m <= stat_max r)%Z).
  { intros i m Hm. rewrite Forall_forall in Hbounds. apply Hbounds, list_elem_of_In.
    exact (Permutation_in_stats _ _ _ _ Hperm Hm). }
  assert (Hn : (0 < inject_Z (Z.of_nat (length stats)))%Q).
  { destruct stats; [congruence|]. unfold Qlt. cbn [Qnum Qden inject_Z length]. lia. }
  pose proof (fold_add_bounds _ _ stats 0%Z Hbounds) as Hsum. fold (sum_Z stats) in Hsum.
  split; [exact Hle|]. split; [|split; [|split; [|split]]].
  - apply (Qmult_lt_0_le_reg_r _ _ _ Hn). rewrite Havg, <- inject_Z_mult.
    rewrite <- Zle_Qle. lia.
  - apply (Qmult_lt_0_le_reg_r _ _ _ Hn). rewrite Havg, <- inject_Z_mult.
    rewrite <- Zle_Qle. lia.
  - destruct (Nat.odd (length stats)) eqn:E.
    + destruct (Hodd eq_refl) as (m & Hm & ->). exact (Hin _ _ Hm).
    + assert (Ev : Nat.even (length stats) = true).
      { rewrite <- Nat.negb_odd, E. reflexivity. }
      destruct (Heven Ev) as (a & b & Ha & Hb & _ & ->).
      destruct (a =? b)%Z; [exact (Hin _ _ Ha)|].
      constructor; [exact (Hin _ _ Ha)|]. constructor; [exact (Hin _ _ Hb)|constructor].
  - lia.
  - exact Hdev.
Qed.

Lemma spatial_index_stats_bounds_witness :
  let index : gmap cell (gset nat) :=
    <[(0, 0)%Z := {[0%nat; 1%nat]}]> (<[(0, 1)%Z := {[1%nat]}]> ∅) in
  exists r,
    spatial_index_stats index = Ok r /\
    (stat_min r <= stat_max r)%Z /\
    (inject_Z (stat_min r) <= avg r)%Q /\ (avg r <= inject_Z (stat_max r))%Q /\
    median_within (stat_min r) (stat_max r) (median r) /\
    (0 <= stat_range r)%Z /\ (0 <= stdev r)%R.
Proof.
  cbv zeta. eexists. split; [reflexivity|].
  apply (spatial_index_stats_bounds
           (<[(0, 0)%Z := {[0%nat; 1%nat]}]> (<[(0, 1)%Z := {[1%nat]}]> ∅))).
  reflexivity.
Defined.

End StatsMoreFacts.

(** ** More about [apply_color] *)

Module ColorMoreFacts.
Import Access Color ColorSpec StyleSpec.
Import ColorFacts.

(** *** Without placemarks *)

Lemma is_stale_empty (e : node) : is_stale ∅ e = false.
Proof.
  destruct e as [k s|p nm a cs]; [reflexivity|]. cbn [is_stale].
  destruct (attr "id" a); [|apply andb_false_r].
  rewrite bool_decide_eq_false_2 by set_solver. apply andb_false_r.
Qed.

Lemma remove_styles_empty (e : node) : remove_styles ∅ e = Ok e.
Proof.
  induction e as [k s|p nm a cs IH] using node_ind_nested; [reflexivity|].
  cbn [remove_styles].
  match goal with
  | |- mbind _ (?go cs) = _ => assert (E : go cs = Ok cs)
  end.
  { induction IH as [|c r Hc Hr IHr]; [reflexivity|].
    rewrite is_stale_empty, Hc. cbn [mbind result_bind Py.bind]. rewrite IHr. reflexivity. }
  rewrite E. reflexivity.
Qed.

Lemma find_all_paths_length pred soup :
  length (find_all_paths pred soup []) = length (find_all pred soup).
Proof. apply (Forall2_length _ _ _ (find_all_paths_spec pred soup)). Qed.

(** X19.  On a document without a Placemark, [apply_color] changes nothing and
    raises nothing, whatever the coloring and the tables, and whether or
    not the document has a Document tag. *)
Theorem apply_color_no_placemarks (soup : node) (coloring : gmap nat N)
    (colorize icons : gmap N string) :
  find_all (named "Placemark") soup = [] ->
  apply_color soup coloring colorize icons = Ok soup.
Proof.
  intros H. unfold apply_color, apply_urls.
  assert (E : find_all_paths (named "Placemark") soup [] = []).
  { apply length_zero_iff_nil. rewrite find_all_paths_length, H. reflexivity. }
  rewrite E. cbn [enumerate length seq combine for_each mbind result_bind Py.bind].
  rewrite remove_styles_empty. cbn [Py.bind]. unfold create_styles, sorted.
  rewrite elements_empty. reflexivity.
Qed.

Lemma apply_color_no_placemarks_witness :
  apply_color (Tag None "[document]" [] [Tag None "Style" [("id", "color1")] []])
    ∅ ∅ ∅
  = Ok (Tag None "[document]" [] [Tag None "Style" [("id", "color1")] []]).
Proof. apply apply_color_no_placemarks. reflexivity. Defined.

(** *** What a successful call needs *)

Lemma for_each_Ok_each {A S} (body : S -> A -> result S) (l : list A) (s s' : S) :
  for_each body l s = Ok s' -> Forall (fun x => exists s1 s2, body s1 x = Ok s2) l.
Proof.
  revert s. induction l as [|x l IH]; intros s; [constructor|].
  cbn [for_each]. destruct (body s x) as [s1|e] eqn:E; [|discriminate].
  cbn [Py.bind]. intros H. constructor; [eauto|exact (IH _ H)].
Qed.

Lemma create_style_Ok colorize icons soup i soup' :
  create_style colorize icons soup i = Ok soup' ->
  exists v w, lookup_last_digit colorize i = Ok v /\ lookup_last_digit icons i = Ok w.
Proof.
  unfold create_style, create_style_at.
  destruct (find_path (named "Document") soup []) as [doc|]; [|discriminate].
  cbn [or_raise mbind result_bind Py.bind].
  destruct (lookup_last_digit colorize i) as [v|]; [|discriminate].
  cbn [mbind result_bind Py.bind].
  destruct (add _ _ (NList [NStr "PolyStyle"; NStr "color"]) None) as [[s1 t1]|];
    [|discriminate].
  cbn [mbind result_bind Py.bind].
  destruct (add _ _ (NList [NStr "LineStyle"; NStr "color"]) None) as [[s2 t2]|];
    [|discriminate].
  cbn [mbind result_bind Py.bind].
  destruct (lookup_last_digit icons i) as [w|]; [|discriminate].
  intros _. eauto.
Qed.

(** X20.  [apply_color] returns only when the coloring has a color for the
    position of every placemark and both tables have an entry for the last
    decimal digit of each of those colors. *)
Theorem apply_color_needs (soup : node) (coloring : gmap nat N)
    (colorize icons : gmap N string) (soup' : node) :
  apply_color soup coloring colorize icons = Ok soup' ->
  forall i, (i < length (find_all (named "Placemark") soup))%nat ->
    exists c, coloring !! i = Some c /\
              is_Some (colorize !! (c mod 10)%N) /\ is_Some (icons !! (c mod 10)%N).
Proof.
  unfold apply_color.
  destruct (apply_urls soup coloring) as [[soup1 ids]|] eqn:Hurls; [|discriminate].
  cbn [mbind result_bind Py.bind].
  destruct (remove_styles ids soup1) as [soup2|]; [|discriminate].
  cbn [Py.bind]. intros Hcreate i Hi.
  rewrite <- find_all_paths_length in Hi.
  assert (Hc : exists c, coloring !! i = Some c).
  { unfold apply_urls in Hurls. apply for_each_Ok_each in Hurls.
    assert (Hall : Forall (fun j => exists c, coloring !! j = Some c)
                     (fst <$> enumerate (find_all_paths (named "Placemark") soup []))).
    { apply Forall_fmap. eapply Forall_impl; [exact Hurls|].
      intros [j pm] ([s1 ids1] & [s2 ids2] & Hstep). cbn [compose fst].
      apply style_placemark_ids in Hstep as (c & Hc & _). eauto. }
    rewrite fst_enumerate, Forall_forall in Hall. apply Hall, elem_of_seq. lia. }
  destruct Hc as (c & Hc). exists c. split; [exact Hc|].
  assert (Hid : style_id c ∈ sorted ids).
  { apply sorted_elem_of. rewrite (apply_urls_ids _ _ _ _ Hurls).
    apply elem_of_list_to_set, list_elem_of_fmap. exists c. split; [reflexivity|].
    unfold colors_used. apply list_elem_of_omap. exists i. split; [|exact Hc].
    apply elem_of_seq. lia. }
  unfold create_styles in Hcreate. apply for_each_Ok_each in Hcreate.
  rewrite Forall_forall in Hcreate.
  destruct (Hcreate _ Hid) as (s1 & s2 & Hstyle).
  apply create_style_Ok in Hstyle as (v & w & Hv & Hw).
  rewrite lookup_last_digit_style_id in Hv, Hw.
  split.
  - destruct (colorize !! (c mod 10)%N); [eauto|discriminate].
  - destruct (icons !! (c mod 10)%N); [eauto|discriminate].
Qed.

(** *** One style for each used id *)

Lemma remove_styles_no_stale (ids : gset string) (n n' : node) :
  remove_styles ids n = Ok n' ->
  Forall (fun e => is_stale ids e = false) (descendants n').
Proof.
  revert n'. induction n as [k s|p nm a cs IH] using node_ind_nested; intros n'.
  - intros [= <-]. constructor.
  - cbn [remove_styles].
    match goal with
    | |- mbind _ (?go cs) = _ -> _ =>
        assert (E : forall cs', go cs = Ok cs' ->
                      Forall (fun c => is_stale ids c = false /\
                                       Forall (fun e => is_stale ids e = false)
                                         (descendants c)) cs');
        [|destruct (go cs) as [cs'|]; [|discriminate]]
    end.
    { induction IH as [|c r Hc Hr IHr]; intros cs'.
      - intros [= <-]. constructor.
      - destruct (is_stale ids c) eqn:S.
        + destruct (existsb is_style (descendants c)); [discriminate|]. apply IHr.
        + destruct (remove_styles ids c) as [c'|] eqn:Ec; [|discriminate].
          cbn [mbind result_bind Py.bind].
          match goal with
          | |- mbind _ ?x = _ -> _ => destruct x as [r'|] eqn:Er; [|discriminate]
          end.
          cbn [mbind result_bind Py.bind]. intros [= <-]. constructor; [|apply IHr; reflexivity].
          split; [|apply Hc; reflexivity].
          destruct c as [k s|p0 nm0 a0 cs0]; cbn [remove_styles] in Ec.
          * injection Ec as <-. reflexivity.
          * match type of Ec with
            | mbind _ ?x = _ => destruct x; [|discriminate]
            end.
            injection Ec as <-. exact S. }
    cbn [mbind result_bind Py.bind]. intros [= <-].
    apply Forall_descendants_Tag, E. reflexivity.
Qed.

Lemma create_styles_inv colorize icons (l : list string) :
  forall (soup soup' : node) (doc : path) p nm a cs,
    find_path (named "Document") soup [] = Some doc ->
    get soup doc = Some (Tag p nm a cs) ->
    for_each (create_style colorize icons) l soup = Ok soup' ->
    exists es,
      comprehension (styled colorize icons) l = Ok es /\
      soup' = update (fun _ => Tag p nm a (rev es ++ cs)) soup doc.
Proof.
  induction l as [|i r IH]; intros soup soup' doc p nm a cs Hfind Hget.
  - intros [= <-]. exists []. split; [reflexivity|].
    cbn [rev app]. rewrite (update_get _ _ _ Hget). reflexivity.
  - cbn [for_each comprehension].
    rewrite (create_style_spec _ _ _ _ _ _ _ _ _ Hfind Hget).
    destruct (styled colorize icons i) as [e|]; [|discriminate].
    cbn [Py.bind]. intros H.
    destruct (IH _ _ doc p nm a (e :: cs)
                (find_Document_stable _ _ _ _ _ _ _ Hfind Hget)
                (get_update _ _ _ _ Hget) H) as (es & -> & ->).
    exists (e :: es). split; [reflexivity|].
    rewrite update_here. cbn [rev]. rewrite <- app_assoc. reflexivity.
Qed.

Lemma concat_map_nil {A B} (h : A -> list B) (cs : list A) :
  Forall (fun x => h x = []) cs -> concat (List.map h cs) = [].
Proof.
  induction 1 as [|x r Hx Hr IH]; [reflexivity|].
  cbn [List.map concat]. rewrite Hx, IH. reflexivity.
Qed.

Lemma concat_alter_one {A B} (h : A -> list B) (g : A -> A) (cs : list A) (i : nat) (c : A) :
  Forall (fun x => h x = []) cs -> cs !! i = Some c ->
  concat (List.map h (alter g i cs)) = h (g c).
Proof.
  intros H. revert i. induction H as [|x r Hx Hr IH]; intros i; [discriminate|].
  destruct i as [|i]; cbn [lookup list_lookup alter list_alter List.map concat].
  - intros [= ->]. rewrite (concat_map_nil h r Hr). apply app_nil_r.
  - intros Hc. rewrite Hx. apply IH, Hc.
Qed.

Lemma filter_concat {A} (pred : A -> bool) (ls : list (list A)) :
  List.filter pred (concat ls) = concat (List.map (List.filter pred) ls).
Proof.
  induction ls as [|l ls IH]; [reflexivity|].
  cbn [concat List.map]. rewrite List.filter_app, IH. reflexivity.
Qed.

Lemma find_all_Tag pred p nm a cs :
  find_all pred (Tag p nm a cs)
  = concat (List.map (fun c => List.filter pred (c :: descendants c)) cs).
Proof.
  unfold find_all. rewrite descendants_Tag, filter_concat, List.map_map. reflexivity.
Qed.

Lemma find_all_nil_children pred p nm a cs :
  find_all pred (Tag p nm a cs) = [] ->
  Forall (fun c => List.filter pred (c :: descendants c) = []) cs.
Proof.
  rewrite find_all_Tag. induction cs as [|c r IH]; [constructor|].
  cbn [List.map concat]. intros [Hc Hr]%app_eq_nil. constructor; [exact Hc|apply IH, Hr].
Qed.

(** In a tree without an element that passes [pred], after the element
    at [q] is replaced the elements that pass are those below the new
    element, when the test does not see the change at [q] itself. *)
Lemma find_all_update (pred : node -> bool) (m' : node) :
  (forall p nm a cs cs', pred (Tag p nm a cs) = pred (Tag p nm a cs')) ->
  forall (q : path) (n m : node),
    get n q = Some m -> q <> [] -> pred m' = pred m ->
    find_all pred n = [] ->
    find_all pred (update (fun _ => m') n q) = find_all pred m'.
Proof.
  intros HP q. induction q as [|i q IH]; intros n m Hget Hq Hm Hnone; [congruence|].
  destruct n as [k s|p nm a cs]; [discriminate|]. cbn [get update] in *.
  destruct (cs !! i) as [c|] eqn:Ec; [|discriminate].
  pose proof (find_all_nil_children _ _ _ _ _ Hnone) as Hcs.
  rewrite find_all_Tag.
  rewrite (concat_alter_one _ _ _ _ _ Hcs Ec).
  assert (Hc : List.filter pred (c :: descendants c) = []).
  { rewrite Forall_forall in Hcs. apply Hcs, list_elem_of_lookup. eauto. }
  cbn [List.filter] in Hc |- *.
  destruct (pred c) eqn:Epc; [discriminate|].
  destruct q as [|j q].
  - cbn [get update] in *. injection Hget as ->. rewrite Hm, Epc. reflexivity.
  - assert (Epc' : pred (update (fun _ => m') c (j :: q)) = false).
    { destruct c as [k s|p0 nm0 a0 cs0]; [discriminate|]. cbn [update].
      rewrite <- Epc. apply HP. }
    rewrite Epc'. apply (IH c m Hget); [discriminate|exact Hm|exact Hc].
Qed.

Lemma find_all_below pred (q : path) :
  forall n m, get n q = Some m -> find_all pred n = [] -> find_all pred m = [].
Proof.
  induction q as [|i q IH]; intros n m; cbn [get].
  - intros [= ->]. auto.
  - destruct n as [k s|p nm a cs]; [discriminate|].
    destruct (cs !! i) as [c|] eqn:Ec; [|discriminate].
    intros Hget Hnone. apply (IH c m Hget).
    pose proof (find_all_nil_children _ _ _ _ _ Hnone) as Hcs.
    rewrite Forall_forall in Hcs.
    assert (Hc : List.filter pred (c :: descendants c) = []).
    { apply Hcs, list_elem_of_lookup. eauto. }
    cbn [List.filter] in Hc. destruct (pred c); [discriminate|exact Hc].
Qed.

Lemma has_style_id_contents i p nm a cs cs' :
  has_style_id i (Tag p nm a cs) = has_style_id i (Tag p nm a cs').
Proof. reflexivity. Qed.

Lemma has_style_id_stale (ids : gset string) (i : string) (e : node) :
  i ∈ ids -> has_style_id i e = true -> is_stale ids e = true.
Proof.
  intros Hi. destruct e as [k s|p nm a cs]; [discriminate|]. cbn [has_style_id is_stale].
  intros [Hs Hid]%andb_true_iff. rewrite Hs. apply bool_decide_eq_true in Hid.
  rewrite Hid. rewrite bool_decide_eq_true_2 by exact Hi. reflexivity.
Qed.

Lemma styled_one (colorize icons : gmap N string) (i j : string) (e : node) :
  styled colorize icons i = Ok e ->
  List.filter (has_style_id j) (e :: descendants e) = if decide (i = j) then [e] else [].
Proof.
  unfold styled.
  destruct (lookup_last_digit colorize i) as [v|]; [|discriminate].
  destruct (lookup_last_digit icons i) as [w|]; [|discriminate].
  cbn [mbind result_bind Py.bind]. intros [= <-].
  cbn [style_element descendants app List.filter has_style_id is_style named_in existsb
         named attr String.eqb Ascii.eqb Bool.eqb orb andb].
  destruct (decide (i = j)) as [->|Hne].
  - rewrite bool_decide_eq_true_2 by reflexivity. reflexivity.
  - rewrite bool_decide_eq_false_2 by congruence. reflexivity.
Qed.

Lemma one_of_them {A} (R : string -> A -> Prop) (g : A -> list A)
    (l : list string) (es : list A) (j : string) :
  (forall i e, R i e -> g e = if decide (i = j) then [e] else []) ->
  Forall2 R l es -> NoDup l -> j ∈ l ->
  exists e, R j e /\ concat (List.map g es) = [e].
Proof.
  intros Hg H. induction H as [|i e l es Hie Hrest IH]; intros Hnd Hj.
  - apply not_elem_of_nil in Hj. destruct Hj.
  - apply NoDup_cons in Hnd as [Hi Hnd]. cbn [List.map concat].
    rewrite (Hg _ _ Hie). destruct (decide (i = j)) as [->|Hne].
    + exists e. split; [exact Hie|]. cbn [app]. f_equal.
      apply concat_map_nil. clear IH Hj Hnd Hie.
      induction Hrest as [|i' e' l es Hie' Hrest IH]; [constructor|].
      apply not_elem_of_cons in Hi as [Hne Hi].
      constructor; [|apply IH, Hi].
      rewrite (Hg _ _ Hie'). rewrite decide_False by congruence. reflexivity.
    + apply elem_of_cons in Hj as [Hj|Hj]; [congruence|].
      destruct (IH Hnd Hj) as (e0 & He0 & ->). exists e0. split; [exact He0|reflexivity].
Qed.

Lemma Forall2_rev {A B} (R : A -> B -> Prop) (l : list A) (k : list B) :
  Forall2 R l k -> Forall2 R (rev l) (rev k).
Proof.
  induction 1 as [|x y l k Hxy Hlk IH]; [constructor|].
  cbn [rev]. apply Forall2_app; [exact IH|]. constructor; [exact Hxy|constructor].
Qed.

Lemma apply_color_inv soup coloring colorize icons soup' :
  apply_color soup coloring colorize icons = Ok soup' ->
  exists soup1 ids soup2,
    apply_urls soup coloring = Ok (soup1, ids) /\
    remove_styles ids soup1 = Ok soup2 /\
    for_each (create_style colorize icons) (sorted ids) soup2 = Ok soup'.
Proof.
  unfold apply_color.
  destruct (apply_urls soup coloring) as [[soup1 ids]|]; [|discriminate].
  cbn [mbind result_bind Py.bind].
  destruct (remove_styles ids soup1) as [soup2|] eqn:E; [|discriminate].
  cbn [mbind result_bind Py.bind]. intros H. exists soup1, ids, soup2.
  split; [reflexivity|]. split; [exact E|exact H].
Qed.

Lemma used_id (soup : node) (coloring : gmap nat N) soup1 (ids : gset string) (i : nat) (c : N) :
  apply_urls soup coloring = Ok (soup1, ids) ->
  (i < length (find_all (named "Placemark") soup))%nat -> coloring !! i = Some c ->
  style_id c ∈ ids.
Proof.
  intros Hurls Hi Hc. rewrite (apply_urls_ids _ _ _ _ Hurls).
  apply elem_of_list_to_set, list_elem_of_fmap. exists c. split; [reflexivity|].
  unfold colors_used. apply list_elem_of_omap. exists i. split; [|exact Hc].
  apply elem_of_seq. rewrite find_all_paths_length. lia.
Qed.

(** X21.  When [apply_color] has returned, the document holds, for the color
    of each placemark, exactly one [Style] or [StyleMap] tag with that
    color's id: the new style element, filled from the tables' entries for
    the last digit of the color number. *)
Theorem apply_color_one_style (soup : node) (coloring : gmap nat N)
    (colorize icons : gmap N string) (soup' : node) :
  apply_color soup coloring colorize icons = Ok soup' ->
  forall i c,
    (i < length (find_all (named "Placemark") soup))%nat -> coloring !! i = Some c ->
    exists v w,
      colorize !! (c mod 10)%N = Some v /\ icons !! (c mod 10)%N = Some w /\
      find_all (has_style_id (style_id c)) soup' = [style_element (style_id c) v w].
Proof.
  intros (soup1 & ids & soup2 & Hurls & Hremove & Hcreate)%apply_color_inv i c Hi Hc.
  pose proof (used_id _ _ _ _ _ _ Hurls Hi Hc) as Hid.
  set (j := style_id c) in *.
  assert (Hj : j ∈ sorted ids) by (apply sorted_elem_of, Hid).
  assert (Hdoc : exists doc, find_path (named "Document") soup2 [] = Some doc).
  { destruct (sorted ids) as [|x r]; [apply not_elem_of_nil in Hj; destruct Hj|].
    cbn [for_each] in Hcreate. unfold create_style in Hcreate.
    destruct (find_path (named "Document") soup2 []) as [doc|]; [eauto|discriminate]. }
  destruct Hdoc as (doc & Hfind).
  assert (Hm : exists p nm a cs, get soup2 doc = Some (Tag p nm a cs)).
  { rewrite find_path_root in Hfind.
    destruct (find_first_sound _ _ _ Hfind) as ([k s|p nm a cs] & Hget & Hn);
      [discriminate|eauto]. }
  destruct Hm as (p & nm & a & cs & Hget).
  destruct (create_styles_inv _ _ _ _ _ _ _ _ _ _ Hfind Hget Hcreate) as (es & Hes & ->).
  assert (Hnone : find_all (has_style_id j) soup2 = []).
  { pose proof (remove_styles_no_stale _ _ _ Hremove) as Hns.
    unfold find_all. induction Hns as [|e l He Hl IH]; [reflexivity|].
    cbn [List.filter]. destruct (has_style_id j e) eqn:E; [|exact IH].
    rewrite (has_style_id_stale ids j e Hid E) in He. discriminate. }
  assert (Hq : doc <> []).
  { rewrite find_path_root in Hfind. intros ->. exact (find_first_nonempty _ _ Hfind). }
  rewrite (find_all_update (has_style_id j) _ (has_style_id_contents j) doc soup2 _
             Hget Hq (has_style_id_contents j _ _ _ _ _) Hnone).
  rewrite find_all_Tag, List.map_app, concat_app.
  pose proof (find_all_below _ _ _ _ Hget Hnone) as Hcs. rewrite find_all_Tag in Hcs.
  rewrite Hcs, app_nil_r.
  apply comprehension_Ok in Hes.
  destruct (one_of_them (fun i e => styled colorize icons i = Ok e)
              (fun e => List.filter (has_style_id j) (e :: descendants e))
              (rev (sorted ids)) (rev es) j) as (e & He & ->).
  - intros i0 e0. apply styled_one.
  - apply Forall2_rev, Hes.
  - rewrite <- (Permutation_rev (sorted ids)). apply sorted_NoDup.
  - rewrite <- (Permutation_rev (sorted ids)). exact Hj.
  - unfold styled in He. subst j. rewrite !lookup_last_digit_style_id in He.
    destruct (colorize !! (c mod 10)%N) as [v|]; [|discriminate].
    destruct (icons !! (c mod 10)%N) as [w|]; [|discriminate].
    cbn [or_raise mbind result_bind Py.bind] in He. injection He as <-.
    exists v, w. auto.
Qed.

(** *** The removal loop *)

Lemma is_stale_is_style ids e : is_stale ids e = true -> is_style e = true.
Proof.
  destruct e as [k s|p nm a cs]; [discriminate|]. cbn [is_stale].
  intros [H _]%andb_true_iff. exact H.
Qed.

Lemma no_style_below_removable ids c :
  existsb is_style (descendants c) = false -> Forall (removable ids) (descendants c).
Proof.
  intros H. apply Forall_forall. intros d Hd%list_elem_of_In Hs. exfalso.
  apply is_stale_is_style in Hs.
  assert (E : existsb is_style (descendants c) = true).
  { apply existsb_exists. exists d. auto. }
  congruence.
Qed.

(** X22.  The loop of lines 303-305 raises exactly when a [Style] or [StyleMap]
    tag whose id is in use has another [Style] or [StyleMap] tag below it,
    as a StyleMap with an inline Style has; and what it raises then is a
    [TypeError], from [has_attr] on a tag that [decompose] has destroyed
    together with its parent. *)
Theorem removal_fails_on_nested_style (ids : gset string) (n : node) :
  (is_ok (remove_styles ids n) = true <-> Forall (removable ids) (descendants n)) /\
  (forall e, remove_styles ids n = Raise e -> e = TypeError).
Proof.
  induction n as [k s|p nm a cs IH] using node_ind_nested.
  - split; [split; [constructor|reflexivity]|discriminate].
  - cbn [remove_styles]. rewrite Forall_descendants_Tag.
    match goal with
    | |- context [mbind _ (?go cs)] =>
        assert (E : (is_ok (go cs) = true <->
                     Forall (fun c => removable ids c /\
                                      Forall (removable ids) (descendants c)) cs) /\
                    (forall e, go cs = Raise e -> e = TypeError));
        [|destruct (go cs) as [cs'|e0]]
    end.
    { induction IH as [|c r [Hc1 Hc2] Hr [IHr1 IHr2]].
      - split; [split; [constructor|reflexivity]|discriminate].
      - rewrite Forall_cons. destruct (is_stale ids c) eqn:S.
        + destruct (existsb is_style (descendants c)) eqn:X.
          * split; [|intros e [= <-]; reflexivity].
            split; [discriminate|]. intros [[Hrm _] _]. specialize (Hrm S). congruence.
          * split; [|exact IHr2]. rewrite IHr1. split.
            -- intros H. split; [|exact H].
               split; [intros _; exact X|apply no_style_below_removable, X].
            -- intros [_ H]. exact H.
        + destruct (remove_styles ids c) as [c'|e1] eqn:Ec.
          * cbn [mbind result_bind Py.bind].
            match goal with
            | |- context [mbind _ ?x] => destruct x as [r'|e2]
            end; cbn [mbind result_bind Py.bind is_ok].
            -- split; [|discriminate]. split; [|reflexivity]. intros _.
               split; [|apply IHr1; reflexivity].
               split; [intros Hs; congruence|apply Hc1; reflexivity].
            -- split; [|intros e [= <-]; apply IHr2; reflexivity].
               split; [discriminate|]. intros [_ H]. apply IHr1 in H. discriminate.
          * cbn [mbind result_bind Py.bind is_ok].
            split; [|intros e [= <-]; apply Hc2; reflexivity].
            split; [discriminate|]. intros [[_ H] _]. apply Hc1 in H. discriminate. }
    + destruct E as [E1 E2]. split; [|discriminate].
      cbn [mbind result_bind Py.bind is_ok]. rewrite <- E1. reflexivity.
    + destruct E as [E1 E2]. cbn [mbind result_bind Py.bind is_ok].
      split; [rewrite <- E1; reflexivity|]. intros e [= <-]. apply E2. reflexivity.
Qed.


Import Examples.

Lemma apply_color_needs_witness :
  let coloring : gmap nat N := list_to_map [(0%nat, 2%N); (1%nat, 1%N)] in
  exists soup',
    apply_color two_regions coloring _GREEN_ORANGE _BLURPGRELLOW = Ok soup' /\
    forall i, (i < length (find_all (named "Placemark") two_regions))%nat ->
      exists c, coloring !! i = Some c /\
                is_Some (_GREEN_ORANGE !! (c mod 10)%N) /\
                is_Some (_BLURPGRELLOW !! (c mod 10)%N).
Proof.
  cbv zeta. eexists. split; [vm_compute; reflexivity|].
  eapply (apply_color_needs two_regions (list_to_map [(0%nat, 2%N); (1%nat, 1%N)])
           _GREEN_ORANGE _BLURPGRELLOW).
  vm_compute. reflexivity.
Defined.

Lemma apply_color_one_style_witness :
  let coloring : gmap nat N := list_to_map [(0%nat, 12%N)] in
  let colorize : gmap N string := list_to_map [(2%N, "7f065fb4")] in
  let icons : gmap N string := list_to_map [(2%N, "two.png")] in
  let soup := in_document [Tag None "StyleMap" [("id", "color12")] []; placemark []] in
  exists soup',
    apply_color soup coloring colorize icons = Ok soup' /\
    forall i c,
      (i < length (find_all (named "Placemark") soup))%nat -> coloring !! i = Some c ->
      exists v w,
        colorize !! (c mod 10)%N = Some v /\ icons !! (c mod 10)%N = Some w /\
        find_all (has_style_id (style_id c)) soup' = [style_element (style_id c) v w].
Proof.
  cbv zeta. eexists. split; [vm_compute; reflexivity|].
  apply (apply_color_one_style
           (in_document [Tag None "StyleMap" [("id", "color12")] []; placemark []])
           (list_to_map [(0%nat, 12%N)]) (list_to_map [(2%N, "7f065fb4")])
           (list_to_map [(2%N, "two.png")])).
  vm_compute. reflexivity.
Defined.

End ColorMoreFacts.

(** ** The order in which [apply_color] creates the styles *)

Module ColorOrderFacts.
Import Access Color ColorSpec StyleSpec.
Import ColorFacts ColorMoreFacts.
Import Examples.

(** C1, as amended.  When [apply_color] returns, it has created one style
    per used id, going through the ids in the order of [sorted] on strings
    and inserting each as the first child of the first Document tag: the
    styles end up in front of the other children of that tag, the last
    created first.  (With no id in use there need not be a Document tag,
    and nothing is created.)  The ids are those of the colors of the
    placemarks' positions, whatever the order of the placemarks, and when
    every color number is below 10 the order of the strings is the
    ascending order of the numbers. *)
Theorem apply_color_creation_order (soup : node) (coloring : gmap nat N)
    (colorize icons : gmap N string) (soup' : node) :
  apply_color soup coloring colorize icons = Ok soup' ->
  let colors :=
    colors_used coloring (length (find_all_paths (named "Placemark") soup [])) in
  let ids : gset string := list_to_set (style_id <$> colors) in
  exists soup1 soup2 es,
    apply_urls soup coloring = Ok (soup1, ids) /\
    remove_styles ids soup1 = Ok soup2 /\
    comprehension (styled colorize icons) (sorted ids) = Ok es /\
    match find_path (named "Document") soup2 [] with
    | Some doc =>
        exists p nm a cs,
          get soup2 doc = Some (Tag p nm a cs) /\
          soup' = update (fun _ => Tag p nm a (rev es ++ cs)) soup2 doc
    | None => es = [] /\ soup' = soup2
    end /\
    Sorted str_le (sorted ids) /\
    (forall i, i ∈ sorted ids <-> i ∈ ids) /\
    (Forall (fun c => (c < 10)%N) colors ->
     sorted ids = style_id <$> sorted_N (list_to_set colors)).
Proof.
  intros (soup1 & ids0 & soup2 & Hu & Hr & Hc)%apply_color_inv colors ids.
  pose proof (apply_urls_ids _ _ _ _ Hu) as Hids. fold colors in Hids. fold ids in Hids.
  subst ids0.
  assert (Hes : exists es,
             comprehension (styled colorize icons) (sorted ids) = Ok es /\
             match find_path (named "Document") soup2 [] with
             | Some doc =>
                 exists p nm a cs,
                   get soup2 doc = Some (Tag p nm a cs) /\
                   soup' = update (fun _ => Tag p nm a (rev es ++ cs)) soup2 doc
             | None => es = [] /\ soup' = soup2
             end).
  { destruct (find_path (named "Document") soup2 []) as [doc|] eqn:Ef.
    - pose proof Ef as Ef'. rewrite find_path_root in Ef'.
      destruct (find_first_sound _ _ _ Ef') as (D & HD & Hnamed).
      destruct D as [ks s|p nm a cs]; [discriminate|].
      destruct (create_styles_inv _ _ _ _ _ _ _ _ _ _ Ef HD Hc) as (es & Hes & ->).
      exists es. split; [exact Hes|]. exists p, nm, a, cs. auto.
    - destruct (sorted ids) as [|i r] eqn:Es.
      + injection Hc as <-. exists []. auto.
      + cbn [for_each] in Hc. unfold create_style in Hc. rewrite Ef in Hc. discriminate. }
  destruct Hes as (es & Hes & Hdoc).
  exists soup1, soup2, es. split; [exact Hu|]. split; [exact Hr|]. split; [exact Hes|].
  split; [exact Hdoc|]. split; [apply sorted_Sorted|]. split; [apply sorted_elem_of|].
  intros Hsmall. apply sorted_small_colors, Hsmall.
Qed.

Lemma apply_color_creation_order_witness :
  let coloring : gmap nat N := list_to_map [(0%nat, 2%N); (1%nat, 1%N)] in
  let colors :=
    colors_used coloring (length (find_all_paths (named "Placemark") two_regions [])) in
  let ids : gset string := list_to_set (style_id <$> colors) in
  let soup' :=
    in_document
      (style_element "color2" "7f065fb4"
         "http://maps.google.com/mapfiles/kml/paddle/ylw-circle.png"
       :: style_element "color1" "7fa8d7b6"
            "http://maps.google.com/mapfiles/kml/paddle/blu-circle.png"
       :: two_regions_styled "#color2" "#color1") in
  apply_color two_regions coloring _GREEN_ORANGE _BLURPGRELLOW = Ok soup' /\
  exists soup1 soup2 es,
    apply_urls two_regions coloring = Ok (soup1, ids) /\
    remove_styles ids soup1 = Ok soup2 /\
    comprehension (styled _GREEN_ORANGE _BLURPGRELLOW) (sorted ids) = Ok es /\
    match find_path (named "Document") soup2 [] with
    | Some doc =>
        exists p nm a cs,
          get soup2 doc = Some (Tag p nm a cs) /\
          soup' = update (fun _ => Tag p nm a (rev es ++ cs)) soup2 doc
    | None => es = [] /\ soup' = soup2
    end /\
    Sorted str_le (sorted ids) /\
    (forall i, i ∈ sorted ids <-> i ∈ ids) /\
    (Forall (fun c => (c < 10)%N) colors ->
     sorted ids = style_id <$> sorted_N (list_to_set colors)).
Proof.
  cbv zeta. split; [vm_compute; reflexivity|].
  apply (apply_color_creation_order two_regions
           (list_to_map [(0%nat, 2%N); (1%nat, 1%N)]) _GREEN_ORANGE _BLURPGRELLOW).
  vm_compute. reflexivity.
Defined.

End ColorOrderFacts.

(** ** [new_soup] *)

Module SoupFacts.
Import Format FormatSpec Formatted Access AccessSpec Soup.

Section parser.
Variable parse : string -> node.

Lemma restring_ends_with_tag cs p nm a l : restring (cs ++ [Tag p nm a l]) = None.
Proof.
  apply FormatFacts.restring_not_sole_string. intros k c r.
  destruct cs as [|x [|y cs]]; discriminate.
Qed.

Lemma pass_list_snoc_tag cs p nm a l :
  pass_list (cs ++ [Tag p nm a l]) = pass_list cs ++ [pass (Tag p nm a l)].
Proof.
  rewrite !FormatFacts.pass_list_spec, List.filter_app, List.map_app. reflexivity.
Qed.

Lemma pass_name_tag (nm : string) :
  pass (Tag None "name" [] [Str NavigableString nm])
  = Tag None "name" [] [Str (kind_of (strip nm)) (strip nm)].
Proof.
  rewrite FormatFacts.pass_Tag, FormatFacts.restring_Str.
  destruct nm as [|c r]; reflexivity.
Qed.

(** X23.  Under bs4 4.12 and before, [new_soup] with a name, on a source
    whose document has a Document tag, returns, and the first Document tag
    of the document returned ends with a new [name] tag that holds the
    name, trimmed, and as CDATA when the trimmed name has a [<], [>] or
    [&]; before it come the tag's own children as [format] leaves them. *)
Theorem new_soup_names_document (src nm : string) p dn a cs :
  find (named "Document") (parse src) = Some (Tag p dn a cs) ->
  exists soup,
    new_soup parse Bs4_12 (Some nm) src = Ok soup /\
    find (named "Document") soup
    = Some (Tag (clear_kml p) dn a
              (pass_list cs ++ [Tag None "name" [] [Str (kind_of (strip nm)) (strip nm)]])).
Proof.
  intros Hfind. rewrite find_find_first in Hfind.
  destruct (find_first (named "Document") (parse src)) as [doc|] eqn:Hdoc; [|discriminate].
  unfold new_soup. rewrite find_path_root, Hdoc.
  cbn [or_raise mbind result_bind Py.bind].
  rewrite ColorFacts.add_soup, (AddFacts.add_NStr _ _ _ _ _ _ _ Hfind).
  cbn [mbind result_bind Py.bind chain deepest length].
  rewrite update_focus, AddFacts.update_appended.
  eexists. split; [reflexivity|].
  rewrite (AccessMoreFacts.find_formatted (named "Document") _ (fun _ _ => eq_refl)
             (AccessMoreFacts.named_pass "Document")).
  rewrite find_find_first.
  assert (Hn : named "Document" (Tag p dn a cs) = true).
  { destruct (find_first_sound _ _ _ Hdoc) as (m & Hm & Hn). congruence. }
  rewrite (find_first_stable _ _ _ _ _ Hdoc Hfind) by exact Hn.
  rewrite (get_update _ _ _ _ Hfind). cbn [option_map].
  cbn [repeat update set_string].
  rewrite FormatFacts.pass_Tag, restring_ends_with_tag, pass_list_snoc_tag, pass_name_tag.
  reflexivity.
Qed.

End parser.

Lemma new_soup_names_document_witness :
  let parse := fun _ : string =>
    Tag None "[document]" []
      [Tag (Some "kml") "kml" []
         [Str NavigableString " "; Tag (Some "kml") "Document" [] [Str NavigableString " "]]] in
  exists soup,
    new_soup parse Bs4_12 (Some " a & b ") _SOUP_STOCK = Ok soup /\
    find (named "Document") soup
    = Some (Tag None "Document" [] [Tag None "name" [] [Str CData "a & b"]]).
Proof.
  cbv zeta.
  apply (new_soup_names_document
           (fun _ : string =>
              Tag None "[document]" []
                [Tag (Some "kml") "kml" []
                   [Str NavigableString " ";
                    Tag (Some "kml") "Document" [] [Str NavigableString " "]]])
           _SOUP_STOCK " a & b " (Some "kml") "Document" [] [Str NavigableString " "]).
  reflexivity.
Defined.

End SoupFacts.

(** ** The first loop of [apply_color] *)

Module UrlFacts.
Import Access Color ColorSpec UrlSpec.
Import ColorFacts.

Implicit Types (coloring : gmap nat N) (n m : node) (p q base : path).

(** *** One step *)

Lemma update_app (g : node -> node) n p q :
  update g n (p ++ q) = update (fun m => update g m q) n p.
Proof.
  revert n. induction p as [|i p IH]; intros n; [reflexivity|].
  destruct n as [k s|pr nm a cs]; [reflexivity|]. cbn [app update]. f_equal.
  apply list_alter_ext; [|reflexivity]. intros c _. apply IH.
Qed.

(** The soup part of [style_placemark]. *)
Lemma style_placemark_local coloring (s : node) (ids : gset string) (i : nat) p pr nm a cs :
  get s p = Some (Tag pr nm a cs) ->
  style_placemark coloring (s, ids) (i, p) =
  Py.bind (or_raise (coloring !! i) KeyError)
    (fun c => Ok (update (style_one (url_of c)) s p, {[ style_id c ]} ∪ ids)).
Proof.
  intros Hget. unfold style_placemark.
  destruct (coloring !! i) as [c|]; [|reflexivity].
  cbn [or_raise mbind result_bind Py.bind]. fold (url_of c).
  unfold find_path. rewrite Hget.
  destruct (find_first (named "styleUrl") (Tag pr nm a cs)) as [t|] eqn:Et;
    cbn [option_map mbind result_bind Py.bind].
  - f_equal. f_equal. rewrite update_app. apply update_ext.
    intros m Hm. rewrite Hget in Hm. injection Hm as <-.
    unfold style_one. rewrite Et. reflexivity.
  - rewrite add_soup, (AddFacts.add_NStr _ _ _ _ _ _ _ Hget).
    cbn [mbind result_bind Py.bind AccessSpec.chain AccessSpec.deepest length].
    f_equal. f_equal. rewrite update_focus, AddFacts.update_appended.
    cbn [repeat update set_string]. symmetry. apply update_ext.
    intros m Hm. rewrite Hget in Hm. injection Hm as <-.
    unfold style_one. rewrite Et. reflexivity.
Qed.

Lemma style_step_local coloring (s : node) (i : nat) p m :
  get s p = Some m -> is_tag m = true ->
  style_step coloring s (i, p) =
  Py.bind (style_at coloring i m) (fun m' => Ok (update (fun _ => m') s p)).
Proof.
  intros Hget Hm. destruct m as [k0 s0|pr nm a cs]; [discriminate|].
  unfold style_step, style_at. rewrite (style_placemark_local _ _ _ _ _ _ _ _ _ Hget).
  destruct (coloring !! i) as [c|]; [|reflexivity].
  cbn [or_raise mbind result_bind Py.bind]. f_equal. apply update_ext.
  intros m Hm'. rewrite Hget in Hm'. injection Hm' as <-. reflexivity.
Qed.

(** The ids do not bear on the document. *)
Lemma style_placemark_split coloring (s : node) (ids : gset string) (i : nat) p :
  style_placemark coloring (s, ids) (i, p) =
  Py.bind (style_step coloring s (i, p))
    (fun s' => Ok (s', list_to_set (style_id <$> omap (fun i => coloring !! i) [i]) ∪ ids)).
Proof.
  unfold style_step, style_placemark.
  destruct (coloring !! i) as [c|] eqn:Ec; [|reflexivity].
  cbn [or_raise mbind result_bind Py.bind].
  destruct (match find_path (named "styleUrl") s p with
            | Some t => Ok (s, t)
            | None => add s p (NStr "styleUrl") None
            end) as [[s1 t]|e]; [|reflexivity].
  cbn [mbind result_bind Py.bind omap list_omap]. rewrite Ec.
  cbn [fmap list_fmap list_to_set]. f_equal. f_equal.
  change (drop_first (String.append "#color" (repr c))) with (style_id c).
  set_solver.
Qed.

Lemma urls_loop_split coloring (l : list (nat * path)) :
  forall (s : node) (ids : gset string),
    for_each (style_placemark coloring) l (s, ids) =
    Py.bind (for_each (style_step coloring) l s)
      (fun s' => Ok (s', list_to_set (style_id <$> omap (fun i => coloring !! i) (fst <$> l))
                         ∪ ids)).
Proof.
  induction l as [|[i p] r IH]; intros s ids.
  - cbn. rewrite (left_id_L ∅ (∪)). reflexivity.
  - cbn [for_each]. rewrite style_placemark_split.
    destruct (style_step coloring s (i, p)) as [s1|e]; [|reflexivity].
    cbn [Py.bind]. rewrite IH.
    destruct (for_each (style_step coloring) r s1) as [s'|e]; [|reflexivity].
    cbn [Py.bind fmap list_fmap omap list_omap fst]. f_equal. f_equal.
    destruct (coloring !! i) as [c|]; cbn [fmap list_fmap list_to_set]; set_solver.
Qed.

Lemma restyle_Tag coloring pr nm a cs k :
  restyle coloring (Tag pr nm a cs) k =
  Py.bind (restyle_children coloring cs k) (fun '(cs', k') => Ok (Tag pr nm a cs', k')).
Proof. reflexivity. Qed.

Lemma restyle_children_cons coloring c r k :
  restyle_children coloring (c :: r) k =
  Py.bind (if named "Placemark" c
           then Py.bind (style_at coloring k c) (fun pm => Ok (pm, S k))
           else restyle coloring c k)
    (fun '(c', k1) =>
       Py.bind (restyle_children coloring r k1) (fun '(r', k2) => Ok (c' :: r', k2))).
Proof. reflexivity. Qed.

Lemma flat_Tag pr nm a cs : flat (Tag pr nm a cs) = flat_children cs.
Proof.
  cbn [flat]. unfold flat_children. induction cs as [|c r IH]; [reflexivity|].
  cbn [forallb]. rewrite IH. reflexivity.
Qed.

Lemma filter_map_cons (pred : path -> bool) (i : nat) (l : list path) :
  List.filter pred (List.map (cons i) l) =
  List.map (cons i) (List.filter (fun q => pred (i :: q)) l).
Proof.
  induction l as [|q l IH]; [reflexivity|]. cbn [List.map List.filter].
  destruct (pred (i :: q)); cbn [List.map]; rewrite IH; reflexivity.
Qed.

Lemma placemark_paths_Tag pr nm a cs :
  placemark_paths (Tag pr nm a cs) = child_paths 0 cs.
Proof.
  unfold placemark_paths at 1. cbn [descendant_paths].
  assert (H : forall pre l, cs = pre ++ l ->
            List.filter
              (fun q => match get (Tag pr nm a cs) q with
                        | Some d => named "Placemark" d
                        | None => false
                        end)
              ((fix go (i : nat) (l : list node) : list path :=
                  match l with
                  | [] => []
                  | c :: r => [i] :: List.map (cons i) (descendant_paths c) ++ go (S i) r
                  end) (length pre) l)
            = child_paths (length pre) l).
  { intros pre l. revert pre. induction l as [|c r IH]; intros pre Hcs; [reflexivity|].
    assert (Hlook : forall q, get (Tag pr nm a cs) (length pre :: q) = get c q).
    { intros q. cbn [get]. rewrite Hcs, lookup_app_r, Nat.sub_diag by lia. reflexivity. }
    cbn [List.filter child_paths]. rewrite (Hlook []). cbn [get].
    rewrite List.filter_app, filter_map_cons.
    specialize (IH (pre ++ [c])). rewrite length_app, Nat.add_1_r in IH.
    rewrite IH by (rewrite <- app_assoc; exact Hcs).
    assert (E : List.filter
                  (fun q => match get (Tag pr nm a cs) (length pre :: q) with
                            | Some d => named "Placemark" d
                            | None => false
                            end) (descendant_paths c) = placemark_paths c).
    { unfold placemark_paths. apply List.filter_ext. intros q. rewrite Hlook. reflexivity. }
    rewrite E. destruct (named "Placemark" c); reflexivity. }
  apply (H [] cs eq_refl).
Qed.

Lemma placemark_paths_none (c : node) :
  existsb (named "Placemark") (descendants c) = false -> placemark_paths c = [].
Proof.
  unfold placemark_paths. intros H.
  induction (descendant_paths_get c) as [|q x qs xs Hq Hqs IH]; [reflexivity|].
  cbn [existsb] in H. apply orb_false_iff in H as [Hx Hxs].
  cbn [List.filter]. rewrite Hq, Hx. apply IH, Hxs.
Qed.

Lemma update_child (c' : node) (soup : node) base pr nm a pre c r :
  get soup base = Some (Tag pr nm a (pre ++ c :: r)) ->
  update (fun _ => c') soup (base ++ [length pre])
  = update (fun _ => Tag pr nm a (pre ++ c' :: r)) soup base.
Proof.
  intros Hget. rewrite update_app. apply update_ext.
  intros m Hm. rewrite Hget in Hm. injection Hm as <-.
  cbn [update]. f_equal. rewrite alter_app_r_alt by lia. rewrite Nat.sub_diag. reflexivity.
Qed.

Lemma get_child (soup : node) base pr nm a pre c r :
  get soup base = Some (Tag pr nm a (pre ++ c :: r)) ->
  get soup (base ++ [length pre]) = Some c.
Proof.
  intros Hget. rewrite get_app, Hget. cbn [get].
  rewrite lookup_app_r, Nat.sub_diag by lia. reflexivity.
Qed.

Lemma map_app_cons base (i : nat) (l : list path) :
  List.map (app base) (List.map (cons i) l) = List.map (app (base ++ [i])) l.
Proof.
  rewrite List.map_map. apply List.map_ext. intros q. rewrite <- app_assoc. reflexivity.
Qed.

Lemma enum_map_app {A B} (f : A -> B) (l1 l2 : list A) (k : nat) :
  combine (seq k (length (l1 ++ l2))) (List.map f (l1 ++ l2))
  = combine (seq k (length l1)) (List.map f l1)
    ++ combine (seq (k + length l1) (length l2)) (List.map f l2).
Proof.
  pose proof (enumerate_from_app (List.map f l1) (List.map f l2) k) as H.
  rewrite <- List.map_app, !length_map in H. exact H.
Qed.

(** The loop over the placemarks below one element works in that
    element, and it is [restyle] there. *)
Lemma loop_subtree coloring n :
  flat n = true ->
  forall (soup : node) base (k : nat),
    get soup base = Some n ->
    for_each (style_step coloring)
      (combine (seq k (length (placemark_paths n)))
         (List.map (app base) (placemark_paths n))) soup
    = Py.bind (restyle coloring n k) (fun '(n', _) => Ok (update (fun _ => n') soup base))
    /\ (forall n' k', restyle coloring n k = Ok (n', k') ->
                      k' = (k + length (placemark_paths n))%nat).
Proof.
  induction n as [k0 s0|pr nm a cs IH] using node_ind_nested; intros Hflat soup base k Hget.
  - cbn. split; [rewrite (update_get _ _ _ Hget); reflexivity|].
    intros n' k' [= _ <-]. lia.
  - rewrite flat_Tag in Hflat. rewrite placemark_paths_Tag, restyle_Tag.
    assert (H : forall l, Forall (fun n =>
                  flat n = true ->
                  forall (soup : node) base (k : nat),
                    get soup base = Some n ->
                    for_each (style_step coloring)
                      (combine (seq k (length (placemark_paths n)))
                         (List.map (app base) (placemark_paths n))) soup
                    = Py.bind (restyle coloring n k)
                        (fun '(n', _) => Ok (update (fun _ => n') soup base))
                    /\ (forall n' k', restyle coloring n k = Ok (n', k') ->
                                      k' = (k + length (placemark_paths n))%nat)) l ->
              forall pre (soup : node) (k : nat),
                flat_children l = true ->
                get soup base = Some (Tag pr nm a (pre ++ l)) ->
                for_each (style_step coloring)
                  (combine (seq k (length (child_paths (length pre) l)))
                     (List.map (app base) (child_paths (length pre) l))) soup
                = Py.bind (restyle_children coloring l k)
                    (fun '(l', _) => Ok (update (fun _ => Tag pr nm a (pre ++ l')) soup base))
                /\ (forall l' k', restyle_children coloring l k = Ok (l', k') ->
                                  k' = (k + length (child_paths (length pre) l))%nat)).
    { clear IH Hflat soup k Hget. intros l Hl.
      induction Hl as [|c r Hc Hr IHr]; intros pre soup k Hflat Hget.
      - cbn. split; [rewrite (update_get _ _ _ Hget); reflexivity|].
        intros l' k' [= _ <-]. lia.
      - cbn [flat_children forallb] in Hflat. apply andb_true_iff in Hflat as [Hfc Hfr].
        fold (flat_children r) in Hfr.
        pose proof (get_child _ _ _ _ _ _ _ _ Hget) as Hgc.
        rewrite restyle_children_cons. cbn [child_paths].
        destruct (named "Placemark" c) eqn:Epm.
        + apply negb_true_iff in Hfc. rewrite (placemark_paths_none c Hfc).
          cbn [List.map app length seq combine for_each].
          rewrite (style_step_local _ _ _ _ _ Hgc)
            by (destruct c; [discriminate|reflexivity]).
          destruct (style_at coloring k c) as [c'|e]; [|split; [reflexivity|discriminate]].
          cbn [Py.bind]. rewrite (update_child c' _ _ _ _ _ _ _ _ Hget).
          specialize (IHr (pre ++ [c']) (update (fun _ => Tag pr nm a (pre ++ c' :: r)) soup base)
                        (S k) Hfr).
          rewrite length_app, Nat.add_1_r in IHr.
          destruct IHr as [IH1 IH2].
          { rewrite (get_update _ _ _ _ Hget), <- app_assoc. reflexivity. }
          rewrite IH1. split.
          * destruct (restyle_children coloring r (S k)) as [[r' k2]|e]; [|reflexivity].
            cbn [Py.bind]. rewrite update_here, <- app_assoc. reflexivity.
          * intros l' k'.
            destruct (restyle_children coloring r (S k)) as [[r' k2]|e]; [|discriminate].
            cbn [Py.bind]. intros [= _ <-]. rewrite (IH2 r' k2 eq_refl). lia.
        + cbn [app]. rewrite enum_map_app, for_each_app, length_map, map_app_cons.
          destruct (Hc Hfc soup (base ++ [length pre]) k Hgc) as [Hc1 Hc2].
          rewrite Hc1.
          destruct (restyle coloring c k) as [[c' k1]|e]; [|split; [reflexivity|discriminate]].
          cbn [Py.bind]. rewrite (update_child c' _ _ _ _ _ _ _ _ Hget).
          rewrite <- (Hc2 c' k1 eq_refl).
          specialize (IHr (pre ++ [c']) (update (fun _ => Tag pr nm a (pre ++ c' :: r)) soup base)
                        k1 Hfr).
          rewrite length_app, Nat.add_1_r in IHr.
          destruct IHr as [IH1 IH2].
          { rewrite (get_update _ _ _ _ Hget), <- app_assoc. reflexivity. }
          rewrite IH1. split.
          * destruct (restyle_children coloring r k1) as [[r' k2]|e]; [|reflexivity].
            cbn [Py.bind]. rewrite update_here, <- app_assoc. reflexivity.
          * intros l' k'.
            destruct (restyle_children coloring r k1) as [[r' k2]|e]; [|discriminate].
            cbn [Py.bind]. intros [= _ <-]. rewrite (IH2 r' k2 eq_refl).
            rewrite (Hc2 c' k1 eq_refl), length_app, length_map. lia. }
    destruct (H cs IH [] soup k Hflat Hget) as [H1 H2]. cbn [length app] in H1, H2.
    rewrite H1. split.
    + destruct (restyle_children coloring cs k) as [[cs' k']|e]; reflexivity.
    + intros n' k'. destruct (restyle_children coloring cs k) as [[cs' k'']|e]; [|discriminate].
      cbn [Py.bind]. intros [= _ <-]. apply (H2 cs' k'' eq_refl).
Qed.

Lemma find_all_paths_root (soup : node) :
  find_all_paths (named "Placemark") soup [] = placemark_paths soup.
Proof.
  unfold find_all_paths, placemark_paths. cbn [get].
  rewrite (List.map_ext (app []) (fun q => q)) by reflexivity. apply List.map_id.
Qed.

Lemma placemark_paths_length (soup : node) :
  length (placemark_paths soup) = length (find_all (named "Placemark") soup).
Proof. rewrite <- find_all_paths_root. apply ColorMoreFacts.find_all_paths_length. Qed.

Lemma urls_restyle (soup : node) coloring :
  flat soup = true ->
  apply_urls soup coloring =
  Py.bind (restyle coloring soup 0) (fun '(soup1, n) => Ok (soup1, ids_upto coloring n)).
Proof.
  intros Hflat. unfold apply_urls, enumerate. rewrite find_all_paths_root.
  rewrite urls_loop_split.
  destruct (loop_subtree coloring soup Hflat soup [] 0 eq_refl) as [H1 H2].
  rewrite (List.map_ext (app []) (fun q => q)), List.map_id in H1 by reflexivity.
  rewrite H1.
  destruct (restyle coloring soup 0) as [[soup1 n]|e]; [|reflexivity].
  cbn [Py.bind update]. f_equal. f_equal.
  rewrite (H2 soup1 n eq_refl). cbn [Nat.add].
  change (combine (seq 0 (length (placemark_paths soup))) (placemark_paths soup))
    with (enumerate (placemark_paths soup)).
  rewrite fst_enumerate, (right_id_L ∅ (∪)). reflexivity.
Qed.

Lemma restyle_counts coloring (soup soup1 : node) (k : nat) :
  flat soup = true -> restyle coloring soup 0 = Ok (soup1, k) ->
  k = length (find_all (named "Placemark") soup).
Proof.
  intros Hflat H.
  destruct (loop_subtree coloring soup Hflat soup [] 0 eq_refl) as [_ H2].
  rewrite (H2 _ _ H), placemark_paths_length. reflexivity.
Qed.

(** X24.  On a document where no Placemark lies below a Placemark, the first
    loop of [apply_color] is [restyle]: every placemark, in document order,
    gets the url of the color of its position as the contents of its first
    [styleUrl] tag, or in a new [styleUrl] tag appended to it when it has
    none; nothing else in the document changes; and the ids collected are
    those of the colors of the positions, one position for each
    placemark. *)
Theorem apply_urls_restyle (soup : node) coloring :
  flat soup = true ->
  apply_urls soup coloring =
  Py.bind (restyle coloring soup 0) (fun '(soup1, n) => Ok (soup1, ids_upto coloring n))
  /\ (forall soup1 (k : nat), restyle coloring soup 0 = Ok (soup1, k) ->
                             k = length (find_all (named "Placemark") soup)).
Proof.
  intros Hflat. split; [apply urls_restyle, Hflat|].
  intros soup1 k. apply restyle_counts, Hflat.
Qed.

Lemma apply_urls_restyle_witness :
  let coloring : gmap nat N := list_to_map [(0%nat, 2%N); (1%nat, 1%N)] in
  flat Examples.two_regions = true /\
  (apply_urls Examples.two_regions coloring =
   Py.bind (restyle coloring Examples.two_regions 0)
     (fun '(soup1, n) => Ok (soup1, ids_upto coloring n))
   /\ (forall soup1 (k : nat), restyle coloring Examples.two_regions 0 = Ok (soup1, k) ->
                       k = length (find_all (named "Placemark") Examples.two_regions))).
Proof.
  cbv zeta. split; [reflexivity|]. apply apply_urls_restyle. reflexivity.
Defined.

(** *** When the first loop fails *)

Lemma child_paths_length (i j : nat) (l : list node) :
  length (child_paths i l) = length (child_paths j l).
Proof.
  revert i j. induction l as [|c r IH]; intros i j; [reflexivity|].
  cbn [child_paths]. rewrite !length_app, !length_map, (IH (S i) (S j)).
  destruct (named "Placemark" c); reflexivity.
Qed.

Lemma restyle_total coloring n :
  flat n = true ->
  forall k,
    (forall i, (k <= i < k + length (placemark_paths n))%nat -> is_Some (coloring !! i)) ->
    exists n', restyle coloring n k = Ok (n', (k + length (placemark_paths n))%nat).
Proof.
  induction n as [k0 s0|pr nm a cs IH] using node_ind_nested; intros Hflat k Hcol.
  - exists (Str k0 s0). cbn. f_equal. f_equal. lia.
  - rewrite flat_Tag in Hflat. rewrite placemark_paths_Tag in Hcol |- *. rewrite restyle_Tag.
    assert (H : exists cs', restyle_children coloring cs k
                            = Ok (cs', (k + length (child_paths 0 cs))%nat)).
    { clear pr nm a. revert k Hcol. generalize 0%nat.
      induction IH as [|c r Hc Hr IHr]; intros i k Hcol.
      - exists []. cbn. f_equal. f_equal. lia.
      - cbn [flat_children forallb] in Hflat. apply andb_true_iff in Hflat as [Hfc Hfr].
        rewrite restyle_children_cons. cbn [child_paths] in Hcol |- *.
        rewrite !length_app, length_map in Hcol |- *.
        destruct (named "Placemark" c) eqn:Epm.
        + apply negb_true_iff in Hfc. rewrite (placemark_paths_none c Hfc) in Hcol |- *.
          cbn [length Nat.add] in Hcol |- *.
          destruct (Hcol k) as (col & Hk); [lia|].
          unfold style_at. rewrite Hk. cbn [or_raise mbind result_bind Py.bind].
          destruct (IHr Hfr (S i) (S k)) as (r' & Hr'); [intros j Hj; apply Hcol; lia|].
          rewrite Hr'. cbn [Py.bind]. eexists. f_equal. f_equal. lia.
        + cbn [length Nat.add] in Hcol |- *.
          destruct (Hc Hfc k) as (c' & Hc'); [intros j Hj; apply Hcol; lia|].
          rewrite Hc'. cbn [Py.bind].
          destruct (IHr Hfr (S i) (k + length (placemark_paths c))%nat) as (r' & Hr');
            [intros j Hj; apply Hcol; lia|].
          rewrite Hr'. cbn [Py.bind]. eexists. f_equal. f_equal. lia. }
    destruct H as (cs' & ->). cbn [Py.bind]. eauto.
Qed.

Lemma restyle_raises coloring n :
  forall k e, restyle coloring n k = Raise e -> e = KeyError.
Proof.
  induction n as [k0 s0|pr nm a cs IH] using node_ind_nested; intros k e; [discriminate|].
  rewrite restyle_Tag.
  assert (H : forall k e, restyle_children coloring cs k = Raise e -> e = KeyError).
  { clear k e. induction IH as [|c r Hc Hr IHr]; intros k e; [discriminate|].
    rewrite restyle_children_cons.
    destruct (named "Placemark" c).
    - unfold style_at. destruct (coloring !! k);
        cbn [or_raise mbind result_bind Py.bind]; [|congruence].
      destruct (restyle_children coloring r (S k)) as [[r' k2]|e'] eqn:Er; [discriminate|].
      cbn [Py.bind]. intros [= <-]. exact (IHr _ _ Er).
    - destruct (restyle coloring c k) as [[c' k1]|e'] eqn:Ec;
        [|cbn [Py.bind]; intros [= <-]; exact (Hc _ _ Ec)].
      cbn [Py.bind].
      destruct (restyle_children coloring r k1) as [[r' k2]|e'] eqn:Er; [discriminate|].
      cbn [Py.bind]. intros [= <-]. exact (IHr _ _ Er). }
  destruct (restyle_children coloring cs k) as [[cs' k']|e'] eqn:E; [discriminate|].
  cbn [Py.bind]. intros [= <-]. exact (H _ _ E).
Qed.

(** X25.  On a document where no Placemark lies below a Placemark, the first
    loop of [apply_color] succeeds exactly when the coloring has a color
    for the position of every placemark, and when it fails it raises
    [KeyError]. *)
Theorem apply_urls_complete_coloring (soup : node) coloring :
  flat soup = true ->
  (is_ok (apply_urls soup coloring) = true <->
   forall i, (i < length (find_all (named "Placemark") soup))%nat -> is_Some (coloring !! i))
  /\ (forall e, apply_urls soup coloring = Raise e -> e = KeyError).
Proof.
  intros Hflat. rewrite (urls_restyle soup coloring Hflat). split; [split|].
  - intros Hok i Hi.
    destruct (restyle coloring soup 0) as [[soup1 n]|e] eqn:E; [|discriminate].
    assert (Hurls : apply_urls soup coloring = Ok (soup1, ids_upto coloring n)).
    { rewrite (urls_restyle soup coloring Hflat), E. reflexivity. }
    unfold apply_urls in Hurls. apply ColorMoreFacts.for_each_Ok_each in Hurls.
    assert (Hall : Forall (fun j => is_Some (coloring !! j))
                     (fst <$> enumerate (find_all_paths (named "Placemark") soup []))).
    { apply Forall_fmap. eapply Forall_impl; [exact Hurls|].
      intros [j pm] ([s1 ids1] & [s2 ids2] & Hstep). cbn [compose fst].
      apply style_placemark_ids in Hstep as (c & Hc & _). eauto. }
    rewrite fst_enumerate, Forall_forall in Hall. apply Hall, elem_of_seq.
    rewrite ColorMoreFacts.find_all_paths_length. lia.
  - intros Hcol.
    destruct (restyle_total coloring soup Hflat 0) as (soup1 & ->); [|reflexivity].
    intros i Hi. apply Hcol. rewrite <- placemark_paths_length. lia.
  - intros e. destruct (restyle coloring soup 0) as [[soup1 n]|e'] eqn:E; [discriminate|].
    cbn [Py.bind]. intros [= <-]. exact (restyle_raises _ _ _ _ E).
Qed.

Lemma apply_urls_complete_coloring_witness :
  let coloring : gmap nat N := list_to_map [(0%nat, 2%N)] in
  flat Examples.two_regions = true /\
  ((is_ok (apply_urls Examples.two_regions coloring) = true <->
    forall i, (i < length (find_all (named "Placemark") Examples.two_regions))%nat ->
              is_Some (coloring !! i))
   /\ (forall e, apply_urls Examples.two_regions coloring = Raise e -> e = KeyError)).
Proof.
  cbv zeta. split; [reflexivity|]. apply apply_urls_complete_coloring. reflexivity.
Defined.

End UrlFacts.

(** ** [apply_color] a second time *)

Module AgainFacts.
Import Access Color ColorSpec StyleSpec UrlSpec.
Import ColorFacts FormatMoreFacts AddFacts ColorMoreFacts UrlFacts.

Implicit Types (coloring : gmap nat N) (ids : gset string) (n m c e : node) (p q doc : path).

(** *** Names *)

Lemma existsb_false {A} (P : A -> bool) (l : list A) :
  existsb P l = false <-> Forall (fun x => P x = false) l.
Proof.
  induction l as [|x l IH]; cbn [existsb]; [split; [constructor|reflexivity]|].
  rewrite orb_false_iff, IH, Forall_cons. reflexivity.
Qed.

Lemma none_below_Tag (P : node -> bool) pr nm a cs :
  existsb P (descendants (Tag pr nm a cs)) = false <->
  Forall (fun c => P c = false /\ existsb P (descendants c) = false) cs.
Proof.
  rewrite existsb_false, Forall_descendants_Tag.
  apply Forall_iff. intros c. rewrite existsb_false. reflexivity.
Qed.

Lemma none_weaken (P Q : node -> bool) (l : list node) :
  (forall e, P e = false -> Q e = false) -> existsb P l = false -> existsb Q l = false.
Proof.
  intros H. rewrite !existsb_false. intros HF.
  eapply Forall_impl; [exact HF|exact H].
Qed.

Lemma barred_cases e :
  barred e = false ->
  named "Placemark" e = false /\ is_style e = false /\ named "Document" e = false.
Proof.
  unfold barred, is_style, named_in. cbn [existsb].
  rewrite !orb_false_r. intros H.
  repeat (apply orb_false_iff in H as [? H]).
  repeat split; try assumption.
  apply orb_false_iff. split; assumption.
Qed.

Lemma barred_Placemark e : barred e = false -> named "Placemark" e = false.
Proof. intros H. apply barred_cases, H. Qed.

Lemma barred_is_style e : barred e = false -> is_style e = false.
Proof. intros H. apply barred_cases, H. Qed.

Lemma marked_barred e : marked e = true -> barred e = true.
Proof.
  unfold marked, barred, named_in. cbn [existsb]. rewrite !orb_false_r.
  intros H. rewrite orb_assoc, orb_assoc, <- (orb_assoc (named "Placemark" e)), H.
  reflexivity.
Qed.

Lemma Placemark_marked e : named "Placemark" e = true -> marked e = true.
Proof. unfold marked, named_in. cbn [existsb]. intros ->. reflexivity. Qed.

Lemma is_style_marked e : is_style e = true -> marked e = true.
Proof.
  unfold marked, is_style, named_in. cbn [existsb]. rewrite !orb_false_r.
  intros ->. apply orb_true_r.
Qed.

Lemma is_style_not_Placemark e : is_style e = true -> named "Placemark" e = false.
Proof.
  destruct e as [k s|pr nm a cs]; [discriminate|].
  unfold is_style, named_in, named. cbn [existsb]. rewrite !orb_false_r.
  intros [H|H]%orb_true_iff; apply String.eqb_eq in H; subst nm; reflexivity.
Qed.

Lemma Document_not_marked e : named "Document" e = true -> marked e = false.
Proof.
  destruct e as [k s|pr nm a cs]; [discriminate|].
  unfold named. intros H%String.eqb_eq. subst nm. reflexivity.
Qed.

Lemma Document_barred e : named "Document" e = true -> barred e = true.
Proof.
  destruct e as [k s|pr nm a cs]; [discriminate|].
  unfold named. intros H%String.eqb_eq. subst nm. reflexivity.
Qed.

Lemma marked_names e e' :
  (forall nm, named nm e' = named nm e) -> marked e' = marked e.
Proof.
  intros H. unfold marked, named_in. cbn [existsb]. rewrite !H. reflexivity.
Qed.

Lemma is_stale_not_style ids e : is_style e = false -> is_stale ids e = false.
Proof.
  destruct e as [k s|pr nm a cs]; [reflexivity|]. cbn [is_stale]. intros ->. reflexivity.
Qed.

(** *** The loops over the children *)

Lemma tidy_Tag pr nm a cs : tidy (Tag pr nm a cs) = tidy_children cs.
Proof.
  cbn [tidy]. unfold tidy_children. induction cs as [|c r IH]; [reflexivity|].
  cbn [forallb]. rewrite IH. reflexivity.
Qed.

Lemma remove_Tag ids pr nm a cs :
  remove_styles ids (Tag pr nm a cs) =
  Py.bind (remove_children ids cs) (fun cs' => Ok (Tag pr nm a cs')).
Proof. reflexivity. Qed.

Lemma remove_children_cons ids c r :
  remove_children ids (c :: r) =
  if is_stale ids c
  then if existsb is_style (descendants c) then Raise TypeError else remove_children ids r
  else Py.bind (remove_styles ids c)
         (fun c' => Py.bind (remove_children ids r) (fun r' => Ok (c' :: r'))).
Proof. reflexivity. Qed.

(** *** Where there is nothing to do *)

Lemma restyle_none coloring n :
  forall k, existsb (named "Placemark") (descendants n) = false ->
            restyle coloring n k = Ok (n, k).
Proof.
  induction n as [ks s|pr nm a cs IH] using node_ind_nested; intros k; [reflexivity|].
  rewrite none_below_Tag, restyle_Tag. intros H.
  assert (E : restyle_children coloring cs k = Ok (cs, k)).
  { revert k. induction H as [|c r [Hc Hd] _ IHr]; intros k; [reflexivity|].
    apply Forall_cons in IH as [IHc IH].
    rewrite restyle_children_cons, Hc, (IHc k Hd). cbn [Py.bind].
    rewrite (IHr IH k). reflexivity. }
  rewrite E. reflexivity.
Qed.

Lemma remove_clean ids n :
  Forall (fun e => is_stale ids e = false) (descendants n) -> remove_styles ids n = Ok n.
Proof.
  induction n as [ks s|pr nm a cs IH] using node_ind_nested; [reflexivity|].
  rewrite Forall_descendants_Tag, remove_Tag. intros H.
  assert (E : remove_children ids cs = Ok cs).
  { induction H as [|c r [Hc Hd] _ IHr]; [reflexivity|].
    apply Forall_cons in IH as [IHc IH].
    rewrite remove_children_cons, Hc, (IHc Hd). cbn [Py.bind].
    rewrite (IHr IH). reflexivity. }
  rewrite E. reflexivity.
Qed.

Lemma remove_none ids n :
  existsb is_style (descendants n) = false -> remove_styles ids n = Ok n.
Proof.
  intros H. apply remove_clean. apply existsb_false in H.
  eapply Forall_impl; [exact H|]. intros e. apply is_stale_not_style.
Qed.

Lemma flat_none n :
  existsb (named "Placemark") (descendants n) = false -> flat n = true.
Proof.
  induction n as [ks s|pr nm a cs IH] using node_ind_nested; [reflexivity|].
  rewrite none_below_Tag, flat_Tag. intros H. unfold flat_children.
  apply forallb_forall. intros c Hc.
  rewrite Forall_forall in H, IH. apply list_elem_of_In in Hc.
  destruct (H c Hc) as [Hn Hd]. rewrite Hn. apply (IH c Hc Hd).
Qed.

Lemma tidy_flat n : tidy n = true -> flat n = true.
Proof.
  induction n as [ks s|pr nm a cs IH] using node_ind_nested; [reflexivity|].
  rewrite tidy_Tag, flat_Tag. unfold tidy_children, flat_children.
  rewrite !forallb_forall. intros H c Hc. specialize (H c Hc).
  rewrite Forall_forall in IH. apply list_elem_of_In in Hc.
  destruct (named "Placemark" c) eqn:Ep.
  - rewrite (Placemark_marked _ Ep) in H. apply negb_true_iff in H.
    apply negb_true_iff. revert H. apply none_weaken. apply barred_Placemark.
  - destruct (marked c); [|apply (IH c Hc H)].
    apply negb_true_iff in H. apply flat_none. revert H.
    apply none_weaken. apply barred_Placemark.
Qed.

(** *** A placemark styled twice *)

Lemma set_string_below url q :
  forall n, barred n = false -> existsb barred (descendants n) = false ->
            barred (update (set_string url) n q) = false /\
            existsb barred (descendants (update (set_string url) n q)) = false.
Proof.
  induction q as [|i q IH]; intros n Hn Hd.
  - destruct n as [ks s|pr nm a cs]; [split; assumption|].
    split; [exact Hn|reflexivity].
  - destruct n as [ks s|pr nm a cs]; [split; assumption|]. cbn [update].
    split; [exact Hn|]. apply none_below_Tag. apply none_below_Tag in Hd.
    apply Forall_alter; [exact Hd|]. intros c _ [Hc Hcd]. apply IH; assumption.
Qed.

Lemma set_string_inside url q n :
  q <> [] -> existsb barred (descendants n) = false ->
  existsb barred (descendants (update (set_string url) n q)) = false.
Proof.
  destruct q as [|i q]; [congruence|]. intros _ Hd.
  destruct n as [ks s|pr nm a cs]; [exact Hd|]. cbn [update].
  apply none_below_Tag. apply none_below_Tag in Hd.
  apply Forall_alter; [exact Hd|]. intros c _ [Hc Hcd]. apply set_string_below; assumption.
Qed.

Lemma find_in_list_app_None pred below (l1 l2 : list node) :
  forall j, find_in_list pred below j l1 = None ->
            find_in_list pred below j (l1 ++ l2) = find_in_list pred below (j + length l1) l2.
Proof.
  induction l1 as [|c r IH]; intros j; cbn [find_in_list app length].
  - intros _. rewrite Nat.add_0_r. reflexivity.
  - destruct (pred c); [discriminate|]. destruct (below c); [discriminate|].
    intros H. rewrite (IH _ H). f_equal. lia.
Qed.

Lemma style_one_again url c :
  named "Placemark" c = true -> existsb barred (descendants c) = false ->
  named "Placemark" (style_one url c) = true /\
  existsb barred (descendants (style_one url c)) = false /\
  style_one url (style_one url c) = style_one url c.
Proof.
  intros Hp Hd. unfold style_one.
  destruct (find_first (named "styleUrl") c) as [t|] eqn:Ef.
  - destruct (find_first_sound _ _ _ Ef) as (m & Hm & Hnamed).
    assert (Ht : t <> []) by (intros ->; exact (find_first_nonempty _ _ Ef)).
    split; [rewrite (named_update _ _ _ _ Ht); exact Hp|].
    split; [apply set_string_inside; assumption|].
    rewrite (find_first_stable "styleUrl" (set_string url) c t m Ef Hm)
      by (destruct m; exact Hnamed).
    pose proof (update_update (set_string url) (set_string url) c t []) as E.
    rewrite app_nil_r in E. rewrite E. apply update_ext.
    intros m' _. destruct m'; reflexivity.
  - destruct c as [ks s|pr nm a cs]; [discriminate|]. cbn [append_child].
    split; [exact Hp|]. split.
    + apply none_below_Tag. apply none_below_Tag in Hd.
      apply Forall_app. split; [exact Hd|]. constructor; [|constructor].
      split; reflexivity.
    + cbn [find_first] in Ef |- *.
      rewrite (find_in_list_app_None _ _ _ _ _ Ef). cbn [find_in_list named String.eqb Ascii.eqb Bool.eqb].
      cbn [Nat.add]. rewrite update_appended. reflexivity.
Qed.

Lemma style_at_again coloring k c pm :
  named "Placemark" c = true -> existsb barred (descendants c) = false ->
  style_at coloring k c = Ok pm ->
  named "Placemark" pm = true /\ existsb barred (descendants pm) = false /\
  style_at coloring k pm = Ok pm.
Proof.
  intros Hp Hd. unfold style_at.
  destruct (coloring !! k) as [col|]; [|discriminate].
  cbn [or_raise mbind result_bind Py.bind]. intros [= <-].
  destruct (style_one_again (url_of col) c Hp Hd) as (H1 & H2 & H3).
  rewrite H3. auto.
Qed.

(** *** The first loop on its own outcome *)

Lemma restyle_names coloring n k n' k' :
  restyle coloring n k = Ok (n', k') -> forall x, named x n' = named x n.
Proof.
  destruct n as [ks s|pr nm a cs]; [intros [= <- _]; reflexivity|].
  rewrite restyle_Tag.
  destruct (restyle_children coloring cs k) as [[cs' k1]|]; [|discriminate].
  cbn [Py.bind]. intros [= <- _] x. reflexivity.
Qed.

Lemma tidy_children_cons c r :
  tidy_children (c :: r) =
  (if marked c then negb (existsb barred (descendants c)) else tidy c) && tidy_children r.
Proof. reflexivity. Qed.

Lemma restyle_children_again coloring cs :
  Forall (fun c => forall k c' k', tidy c = true -> restyle coloring c k = Ok (c', k') ->
                     restyle coloring c' k = Ok (c', k') /\ tidy c' = true) cs ->
  forall k cs' k', tidy_children cs = true -> restyle_children coloring cs k = Ok (cs', k') ->
    restyle_children coloring cs' k = Ok (cs', k') /\ tidy_children cs' = true.
Proof.
  induction 1 as [|c r Hc _ IHr]; intros k cs' k'.
  - intros _ [= <- <-]. split; reflexivity.
  - rewrite tidy_children_cons. intros [Hct Hrt]%andb_true_iff.
    rewrite restyle_children_cons.
    destruct (named "Placemark" c) eqn:Ep.
    + rewrite (Placemark_marked _ Ep) in Hct. apply negb_true_iff in Hct.
      destruct (style_at coloring k c) as [pm|] eqn:Es; [|discriminate]. cbn [Py.bind].
      destruct (restyle_children coloring r (S k)) as [[r' k2]|] eqn:Er; [|discriminate].
      cbn [Py.bind]. intros [= <- <-].
      destruct (style_at_again _ _ _ _ Ep Hct Es) as (Hp & Hb & Hs).
      destruct (IHr _ _ _ Hrt Er) as [Hr1 Hr2]. split.
      * rewrite restyle_children_cons, Hp, Hs. cbn [Py.bind]. rewrite Hr1. reflexivity.
      * rewrite tidy_children_cons, (Placemark_marked _ Hp), Hb, Hr2. reflexivity.
    + destruct (restyle coloring c k) as [[c' k1]|] eqn:Ec; [|discriminate]. cbn [Py.bind].
      destruct (restyle_children coloring r k1) as [[r' k2]|] eqn:Er; [|discriminate].
      cbn [Py.bind]. intros [= <- <-].
      pose proof (restyle_names _ _ _ _ _ Ec) as Hn.
      destruct (IHr _ _ _ Hrt Er) as [Hr1 Hr2].
      destruct (marked c) eqn:Em.
      * apply negb_true_iff in Hct.
        assert (Hnone : existsb (named "Placemark") (descendants c) = false)
          by (revert Hct; apply none_weaken, barred_Placemark).
        rewrite (restyle_none coloring c k Hnone) in Ec. injection Ec as <- <-. split.
        -- rewrite restyle_children_cons, Ep, (restyle_none coloring c k Hnone).
           cbn [Py.bind]. rewrite Hr1. reflexivity.
        -- rewrite tidy_children_cons, Em, Hct, Hr2. reflexivity.
      * destruct (Hc _ _ _ Hct Ec) as [Hc1 Hc2]. split.
        -- rewrite restyle_children_cons, (Hn "Placemark"), Ep, Hc1.
           cbn [Py.bind]. rewrite Hr1. reflexivity.
        -- rewrite tidy_children_cons, (marked_names _ _ Hn), Em, Hc2, Hr2. reflexivity.
Qed.

Lemma restyle_again coloring n :
  forall k n' k', tidy n = true -> restyle coloring n k = Ok (n', k') ->
                  restyle coloring n' k = Ok (n', k') /\ tidy n' = true.
Proof.
  induction n as [ks s|pr nm a cs IH] using node_ind_nested; intros k n' k'.
  - intros _ [= <- <-]. split; reflexivity.
  - rewrite tidy_Tag, restyle_Tag. intros Ht.
    destruct (restyle_children coloring cs k) as [[cs' k1]|] eqn:E; [|discriminate].
    cbn [Py.bind]. intros [= <- <-]. rewrite restyle_Tag, tidy_Tag.
    destruct (restyle_children_again coloring cs IH _ _ _ Ht E) as [H1 H2].
    rewrite H1. auto.
Qed.

(** *** The first loop after the removal *)

Lemma remove_names ids n n' :
  remove_styles ids n = Ok n' -> forall x, named x n' = named x n.
Proof.
  destruct n as [ks s|pr nm a cs]; [intros [= <-]; reflexivity|].
  rewrite remove_Tag.
  destruct (remove_children ids cs) as [cs'|]; [|discriminate].
  cbn [Py.bind]. intros [= <-] x. reflexivity.
Qed.

Lemma settled_cons coloring c r k k' :
  restyle_children coloring (c :: r) k = Ok (c :: r, k') ->
  exists k1,
    (if named "Placemark" c
     then Py.bind (style_at coloring k c) (fun pm => Ok (pm, S k))
     else restyle coloring c k) = Ok (c, k1) /\
    restyle_children coloring r k1 = Ok (r, k').
Proof.
  rewrite restyle_children_cons.
  destruct (if named "Placemark" c then _ else _) as [[c' k1]|]; [|discriminate].
  cbn [Py.bind].
  destruct (restyle_children coloring r k1) as [[r' k2]|] eqn:Er; [|discriminate].
  cbn [Py.bind]. intros [= -> -> ->]. exists k1. auto.
Qed.

Lemma remove_children_settled coloring ids cs :
  Forall (fun c => forall k k' c', tidy c = true -> restyle coloring c k = Ok (c, k') ->
                     remove_styles ids c = Ok c' ->
                     restyle coloring c' k = Ok (c', k') /\ tidy c' = true) cs ->
  forall k k' cs', tidy_children cs = true -> restyle_children coloring cs k = Ok (cs, k') ->
    remove_children ids cs = Ok cs' ->
    restyle_children coloring cs' k = Ok (cs', k') /\ tidy_children cs' = true.
Proof.
  induction 1 as [|c r Hc _ IHr]; intros k k' cs'.
  - intros _ Hs [= <-]. split; [exact Hs|reflexivity].
  - rewrite tidy_children_cons. intros [Hct Hrt]%andb_true_iff.
    intros (k1 & Hstep & Hrest)%settled_cons. rewrite remove_children_cons.
    destruct (is_stale ids c) eqn:Es.
    + pose proof (is_stale_is_style _ _ Es) as Hst.
      rewrite (is_style_marked _ Hst) in Hct. apply negb_true_iff in Hct.
      rewrite (is_style_not_Placemark _ Hst) in Hstep.
      rewrite (restyle_none coloring c k) in Hstep
        by (revert Hct; apply none_weaken, barred_Placemark).
      injection Hstep as <-.
      destruct (existsb is_style (descendants c)); [discriminate|].
      intros Hrm. exact (IHr _ _ _ Hrt Hrest Hrm).
    + destruct (remove_styles ids c) as [c1|] eqn:Ec; [|discriminate]. cbn [Py.bind].
      destruct (remove_children ids r) as [r1|] eqn:Er; [|discriminate]. cbn [Py.bind].
      intros [= <-]. destruct (IHr _ _ _ Hrt Hrest eq_refl) as [Hr1 Hr2].
      destruct (marked c) eqn:Em.
      * apply negb_true_iff in Hct.
        rewrite (remove_none ids c) in Ec by (revert Hct; apply none_weaken, barred_is_style).
        injection Ec as <-. split.
        -- rewrite restyle_children_cons, Hstep. cbn [Py.bind]. rewrite Hr1. reflexivity.
        -- rewrite tidy_children_cons, Em, Hct, Hr2. reflexivity.
      * assert (Ep : named "Placemark" c = false).
        { destruct (named "Placemark" c) eqn:Ep; [|reflexivity].
          rewrite (Placemark_marked _ Ep) in Em. discriminate. }
        rewrite Ep in Hstep. pose proof (remove_names _ _ _ Ec) as Hn.
        destruct (Hc _ _ _ Hct Hstep eq_refl) as [Hc1 Hc2]. split.
        -- rewrite restyle_children_cons, (Hn "Placemark"), Ep, Hc1.
           cbn [Py.bind]. rewrite Hr1. reflexivity.
        -- rewrite tidy_children_cons, (marked_names _ _ Hn), Em, Hc2, Hr2. reflexivity.
Qed.

Lemma remove_settled coloring ids n :
  forall k k' n', tidy n = true -> restyle coloring n k = Ok (n, k') ->
                  remove_styles ids n = Ok n' ->
                  restyle coloring n' k = Ok (n', k') /\ tidy n' = true.
Proof.
  induction n as [ks s|pr nm a cs IH] using node_ind_nested; intros k k' n'.
  - intros _ Hs [= <-]. split; [exact Hs|reflexivity].
  - rewrite tidy_Tag, restyle_Tag, remove_Tag. intros Ht.
    destruct (restyle_children coloring cs k) as [[cs1 k1]|] eqn:E; [|discriminate].
    cbn [Py.bind]. intros [= -> ->].
    destruct (remove_children ids cs) as [cs'|] eqn:Er; [|discriminate].
    cbn [Py.bind]. intros [= <-]. rewrite restyle_Tag, tidy_Tag.
    destruct (remove_children_settled coloring ids cs IH _ _ _ Ht E Er) as [H1 H2].
    rewrite H1. auto.
Qed.

(** *** A change at one child *)

Lemma get_below q :
  forall n m, get n q = Some m -> m = n \/ In m (descendants n).
Proof.
  induction q as [|i q IH]; intros n m; cbn [get].
  - intros [= ->]. left. reflexivity.
  - destruct n as [ks s|pr nm a cs]; [discriminate|].
    destruct (cs !! i) as [c|] eqn:Ei; [|discriminate]. intros H. right.
    assert (Hc : In c cs) by (apply list_elem_of_In, list_elem_of_lookup; eauto).
    destruct (IH _ _ H) as [->|Hin].
    + apply in_descendants_child, Hc.
    + apply (in_descendants_below _ _ _ _ c); assumption.
Qed.

Lemma named_replace c q pr nm a cs cs' :
  get c q = Some (Tag pr nm a cs) ->
  forall x, named x (update (fun _ => Tag pr nm a cs') c q) = named x c.
Proof.
  destruct q as [|i q].
  - intros [= ->] x. reflexivity.
  - intros _ x. apply named_update. discriminate.
Qed.

Lemma settled_at coloring cs :
  forall i c k k', restyle_children coloring cs k = Ok (cs, k') -> cs !! i = Some c ->
                   named "Placemark" c = false ->
                   exists k1 k2, restyle coloring c k1 = Ok (c, k2).
Proof.
  induction cs as [|x r IH]; intros i c k k'; [discriminate|].
  intros (k1 & Hstep & Hrest)%settled_cons. destruct i as [|i]; cbn [lookup list_lookup].
  - intros [= ->] Ep. rewrite Ep in Hstep. eauto.
  - apply (IH i c k1 k'). exact Hrest.
Qed.

Lemma restyle_children_alter coloring (f : node -> node) cs :
  forall i c k k', cs !! i = Some c ->
    named "Placemark" c = false -> named "Placemark" (f c) = false ->
    (forall k1 k2, restyle coloring c k1 = Ok (c, k2) ->
                   restyle coloring (f c) k1 = Ok (f c, k2)) ->
    restyle_children coloring cs k = Ok (cs, k') ->
    restyle_children coloring (alter f i cs) k = Ok (alter f i cs, k').
Proof.
  induction cs as [|x r IH]; intros i c k k'; [discriminate|].
  destruct i as [|i]; cbn [lookup list_lookup alter list_alter].
  - intros [= ->] Ep Ep' Hf (k1 & Hstep & Hrest)%settled_cons.
    rewrite Ep in Hstep. rewrite restyle_children_cons, Ep', (Hf _ _ Hstep).
    cbn [Py.bind]. rewrite Hrest. reflexivity.
  - intros Hi Ep Ep' Hf (k1 & Hstep & Hrest)%settled_cons.
    rewrite restyle_children_cons, Hstep. cbn [Py.bind].
    rewrite (IH i c k1 k' Hi Ep Ep' Hf Hrest). reflexivity.
Qed.

Lemma tidy_children_alter (f : node -> node) cs :
  forall i c, cs !! i = Some c -> marked c = false -> marked (f c) = false ->
              (tidy c = true -> tidy (f c) = true) ->
              tidy_children cs = true -> tidy_children (alter f i cs) = true.
Proof.
  induction cs as [|x r IH]; intros i c; [discriminate|].
  destruct i as [|i]; cbn [lookup list_lookup alter list_alter];
    rewrite !tidy_children_cons.
  - intros [= ->] Em Em' Hf. rewrite Em, Em'. intros [H1 H2]%andb_true_iff.
    rewrite (Hf H1), H2. reflexivity.
  - intros Hi Em Em' Hf [H1 H2]%andb_true_iff.
    rewrite H1, (IH i c Hi Em Em' Hf H2). reflexivity.
Qed.

Lemma tidy_children_at cs :
  forall i c, cs !! i = Some c -> tidy_children cs = true ->
              if marked c then existsb barred (descendants c) = false else tidy c = true.
Proof.
  induction cs as [|x r IH]; intros i c; [discriminate|].
  rewrite tidy_children_cons.
  destruct i as [|i]; cbn [lookup list_lookup].
  - intros [= ->] [H _]%andb_true_iff. destruct (marked c); [apply negb_true_iff|]; exact H.
  - intros Hi [_ H]%andb_true_iff. exact (IH i c Hi H).
Qed.

Lemma remove_children_clean ids cs :
  Forall (fun c => is_stale ids c = false /\
                   Forall (fun e => is_stale ids e = false) (descendants c)) cs ->
  remove_children ids cs = Ok cs.
Proof.
  induction 1 as [|c r [Hc Hd] _ IHr]; [reflexivity|].
  rewrite remove_children_cons, Hc, (remove_clean ids c Hd). cbn [Py.bind].
  rewrite IHr. reflexivity.
Qed.

Lemma remove_children_alter ids (f : node -> node) cs :
  forall i c, cs !! i = Some c ->
    Forall (fun c => is_stale ids c = false /\
                     Forall (fun e => is_stale ids e = false) (descendants c)) cs ->
    is_stale ids (f c) = false -> remove_styles ids (f c) = Ok c ->
    remove_children ids (alter f i cs) = Ok cs.
Proof.
  induction cs as [|x r IH]; intros i c; [discriminate|].
  destruct i as [|i]; cbn [lookup list_lookup alter list_alter];
    rewrite remove_children_cons.
  - intros [= ->] [_ Hr]%Forall_cons Hs Hrm. rewrite Hs, Hrm. cbn [Py.bind].
    rewrite (remove_children_clean ids r Hr). reflexivity.
  - intros Hi [[Hx Hd] Hr]%Forall_cons Hs Hrm.
    rewrite Hx, (remove_clean ids x Hd). cbn [Py.bind].
    rewrite (IH i c Hi Hr Hs Hrm). reflexivity.
Qed.

(** *** New styles in front *)

Lemma restyle_children_prepend coloring ids pre cs k k' :
  Forall (fun e => is_stale ids e = true /\ existsb barred (descendants e) = false) pre ->
  restyle_children coloring cs k = Ok (cs, k') ->
  restyle_children coloring (pre ++ cs) k = Ok (pre ++ cs, k').
Proof.
  intros Hpre Hs. induction Hpre as [|e r [He Hd] _ IHr]; [exact Hs|].
  cbn [app]. rewrite restyle_children_cons.
  rewrite (is_style_not_Placemark _ (is_stale_is_style _ _ He)).
  rewrite (restyle_none coloring e k) by (revert Hd; apply none_weaken, barred_Placemark).
  cbn [Py.bind]. rewrite IHr. reflexivity.
Qed.

Lemma tidy_children_prepend ids pre cs :
  Forall (fun e => is_stale ids e = true /\ existsb barred (descendants e) = false) pre ->
  tidy_children cs = true -> tidy_children (pre ++ cs) = true.
Proof.
  intros Hpre Hs. induction Hpre as [|e r [He Hd] _ IHr]; [exact Hs|].
  cbn [app]. rewrite tidy_children_cons.
  rewrite (is_style_marked _ (is_stale_is_style _ _ He)), Hd, IHr. reflexivity.
Qed.

Lemma remove_children_prepend ids pre cs :
  Forall (fun e => is_stale ids e = true /\ existsb barred (descendants e) = false) pre ->
  remove_children ids (pre ++ cs) = remove_children ids cs.
Proof.
  intros Hpre. induction Hpre as [|e r [He Hd] _ IHr]; [reflexivity|].
  cbn [app]. rewrite remove_children_cons, He.
  rewrite (none_weaken barred is_style _ barred_is_style Hd). exact IHr.
Qed.

(** Styles of ids in use put in front of the contents of the Document
    tag: the first loop leaves the document as it is when it did so
    before, and the second loop takes them out again. *)
Lemma prepend_settled coloring ids pre pr nm a cs :
  Forall (fun e => is_stale ids e = true /\ existsb barred (descendants e) = false) pre ->
  named "Document" (Tag pr nm a cs) = true ->
  forall doc n k k',
    get n doc = Some (Tag pr nm a cs) -> tidy n = true ->
    restyle coloring n k = Ok (n, k') ->
    Forall (fun e => is_stale ids e = false) (descendants n) ->
    let R := update (fun _ => Tag pr nm a (pre ++ cs)) n doc in
    restyle coloring R k = Ok (R, k') /\ tidy R = true /\ remove_styles ids R = Ok n.
Proof.
  intros Hpre HD. induction doc as [|i q IH]; intros n k k'; cbn [get update].
  - intros [= ->]. rewrite tidy_Tag, !restyle_Tag, remove_Tag, tidy_Tag.
    intros Ht Hs Hclean.
    destruct (restyle_children coloring cs k) as [[cs1 k1]|] eqn:E; [|discriminate].
    cbn [Py.bind] in Hs. injection Hs as -> ->.
    rewrite (restyle_children_prepend _ _ _ _ _ _ Hpre E).
    rewrite (tidy_children_prepend _ _ _ Hpre Ht).
    rewrite (remove_children_prepend _ _ _ Hpre).
    rewrite remove_children_clean by (apply Forall_descendants_Tag in Hclean; exact Hclean).
    auto.
  - destruct n as [ks s|pr0 nm0 a0 cs0]; [discriminate|].
    destruct (cs0 !! i) as [c|] eqn:Ei; [|discriminate]. intros Hget.
    rewrite tidy_Tag, !restyle_Tag, remove_Tag, tidy_Tag. intros Ht Hs Hclean.
    destruct (restyle_children coloring cs0 k) as [[cs1 k1]|] eqn:E; [|discriminate].
    cbn [Py.bind] in Hs. injection Hs as -> ->.
    apply Forall_descendants_Tag in Hclean.
    pose proof (tidy_children_at _ _ _ Ei Ht) as Hc.
    assert (Em : marked c = false).
    { destruct (marked c) eqn:Em; [exfalso|reflexivity].
      destruct (get_below _ _ _ Hget) as [<-|Hin].
      - rewrite (Document_not_marked _ HD) in Em. discriminate.
      - apply existsb_false in Hc. rewrite Forall_forall in Hc.
        apply list_elem_of_In in Hin. pose proof (Hc _ Hin) as Hb.
        rewrite (Document_barred _ HD) in Hb. discriminate. }
    rewrite Em in Hc.
    assert (Ep : named "Placemark" c = false).
    { destruct (named "Placemark" c) eqn:Ep; [|reflexivity].
      rewrite (Placemark_marked _ Ep) in Em. discriminate. }
    pose proof (named_replace c q pr nm a cs (pre ++ cs) Hget) as Hn.
    assert (Em' : marked (update (fun _ => Tag pr nm a (pre ++ cs)) c q) = false)
      by (rewrite (marked_names _ _ Hn); exact Em).
    assert (Hcclean : Forall (fun e => is_stale ids e = false) (descendants c)).
    { rewrite Forall_forall in Hclean.
      apply (Hclean c). apply list_elem_of_lookup. eauto. }
    destruct (settled_at _ _ _ _ _ _ E Ei Ep) as (k2 & k3 & Hk).
    destruct (IH c k2 k3 Hget Hc Hk Hcclean) as (_ & Htc & Hrc).
    rewrite (restyle_children_alter coloring _ cs0 i c k k' Ei Ep); cycle 1.
    { rewrite (Hn "Placemark"). exact Ep. }
    { intros j1 j2 Hj. apply (IH c j1 j2 Hget Hc Hj Hcclean). }
    { exact E. }
    rewrite (tidy_children_alter _ cs0 i c Ei Em Em' (fun _ => Htc) Ht).
    rewrite (remove_children_alter ids _ cs0 i c Ei Hclean); cycle 1.
    { apply is_stale_not_style.
      destruct (is_style (update (fun _ => Tag pr nm a (pre ++ cs)) c q)) eqn:Est;
        [|reflexivity].
      rewrite (is_style_marked _ Est) in Em'. discriminate. }
    { exact Hrc. }
    auto.
Qed.

Lemma styled_fresh (colorize icons : gmap N string) ids (i : string) e :
  i ∈ ids -> styled colorize icons i = Ok e ->
  is_stale ids e = true /\ existsb barred (descendants e) = false.
Proof.
  intros Hi. unfold styled.
  destruct (lookup_last_digit colorize i) as [v|]; [|discriminate].
  destruct (lookup_last_digit icons i) as [w|]; [|discriminate].
  cbn [mbind result_bind Py.bind]. intros [= <-]. split; [|reflexivity].
  cbn [style_element is_stale is_style named_in existsb named attr String.eqb Ascii.eqb
         Bool.eqb orb andb].
  apply bool_decide_eq_true_2, Hi.
Qed.

(** X26.  On a document where no Placemark, Style, StyleMap or Document lies
    below a Placemark, a Style or a StyleMap, a call of [apply_color] that
    returned changes nothing when it is made again on its outcome with the
    same coloring and tables: the second call returns and leaves the
    document as the first one left it. *)
Theorem apply_color_again (soup : node) coloring (colorize icons : gmap N string)
    (soup' : node) :
  tidy soup = true ->
  apply_color soup coloring colorize icons = Ok soup' ->
  apply_color soup' coloring colorize icons = Ok soup'.
Proof.
  intros Ht (soup1 & ids & soup2 & Hu & Hr & Hc)%apply_color_inv.
  rewrite (urls_restyle soup coloring (tidy_flat _ Ht)) in Hu.
  destruct (restyle coloring soup 0) as [[s1 k]|] eqn:E1; [|discriminate].
  cbn [Py.bind] in Hu. injection Hu as -> <-.
  destruct (restyle_again coloring soup _ _ _ Ht E1) as [E2 Ht1].
  destruct (remove_settled coloring _ soup1 _ _ _ Ht1 E2 Hr) as [E3 Ht2].
  pose proof (remove_styles_no_stale _ _ _ Hr) as Hclean.
  assert (H : restyle coloring soup' 0 = Ok (soup', k) /\ tidy soup' = true /\
              remove_styles (ids_upto coloring k) soup' = Ok soup2).
  { destruct (find_path (named "Document") soup2 []) as [doc|] eqn:Ef.
    - pose proof Ef as Ef'. rewrite find_path_root in Ef'.
      destruct (find_first_sound _ _ _ Ef') as (D & HD & Hnamed).
      destruct D as [ks s|pr nm a cs]; [discriminate|].
      destruct (create_styles_inv _ _ _ _ _ _ _ _ _ _ Ef HD Hc) as (es & Hes & ->).
      apply (prepend_settled coloring (ids_upto coloring k) (rev es) pr nm a cs);
        try assumption.
      apply comprehension_Ok in Hes. apply Forall_forall.
      intros e He%list_elem_of_In%in_rev%list_elem_of_In.
      apply list_elem_of_lookup in He as [j Hj].
      destruct (Forall2_lookup_r _ _ _ _ _ Hes Hj) as (i & Hi & Hst).
      apply (styled_fresh colorize icons _ i); [|exact Hst].
      apply sorted_elem_of, list_elem_of_lookup. eauto.
    - destruct (sorted (ids_upto coloring k)) as [|i r] eqn:Es.
      + injection Hc as <-. split; [exact E3|]. split; [exact Ht2|].
        apply remove_clean, Hclean.
      + cbn [for_each] in Hc. unfold create_style in Hc. rewrite Ef in Hc. discriminate. }
  destruct H as (E4 & Ht3 & Hr3). unfold apply_color.
  rewrite (urls_restyle soup' coloring (tidy_flat _ Ht3)), E4.
  cbn [mbind result_bind Py.bind]. rewrite Hr3. cbn [mbind result_bind Py.bind].
  exact Hc.
Qed.

Lemma apply_color_again_witness :
  exists soup',
    let coloring : gmap nat N := list_to_map [(0%nat, 2%N); (1%nat, 1%N)] in
    tidy Examples.two_regions = true /\
    apply_color Examples.two_regions coloring _GREEN_ORANGE _BLURPGRELLOW = Ok soup' /\
    apply_color soup' coloring _GREEN_ORANGE _BLURPGRELLOW = Ok soup'.
Proof.
  eexists. cbv zeta. split; [reflexivity|]. split; [vm_compute; reflexivity|].
  apply (apply_color_again Examples.two_regions); [reflexivity|].
  vm_compute. reflexivity.
Defined.

End AgainFacts.
